(** * FireGL: the instanced rendering pipeline

    A shallow embedding of the renderer core of FireGL
    (Transform, BaseMesh, MatrixBuffer, Renderer) and the properties of
    its per-frame algorithm.

    Conventions.
    - [size_t] is a 64-bit unsigned integer: a [Z] in [0, 2^64) with the
      wrap-around written out ([wrap64]).
    - [float], [glm::vec3], [glm::mat4] and the glm functions are kept
      abstract in the class [GLM]: the code only composes them.
    - A raw pointer is [option] of what it points to ([None] is
      [nullptr]); a [SceneObject*] into [Scene::m_Objects] is the index
      of the object in that vector.
    - OpenGL calls and the calls the renderer makes on objects are
      recorded, in program order, in a log of [Event]s.
    - A material on a mesh is a handle; whether it holds a shader is
      given by the class [Materials].
    - A [std::string_view] is kept as its characters and the C string
      at its [data()] ([string_view.t]).

    Around the renderer: the sphere generator, textures and materials,
    the uniforms of a shader, the components of an entity, the material
    of a model, the input manager and the asset path manager. There a
    std::unordered_map is a [gmap], iterated in the order the class
    [UnorderedMap] gives; files, images and paths are kept abstract in
    the class [Platform], <cmath> in [CMath]. *)

From Stdlib Require Import ZArith Lia Bool Ascii String Sorted DecimalString.
From stdpp Require Import base tactics option list strings gmap.

Local Open Scope Z_scope.

(** ** Machine integers *)

Definition SIZE_WIDTH : Z := 64.
Definition wrap64 (z : Z) : Z := z mod 2 ^ SIZE_WIDTH.

(** [std::vector<std::unique_ptr<SceneObject>>::max_size()] on a 64-bit
    target: PTRDIFF_MAX / sizeof(pointer). *)
Definition vector_max_size : Z := 2 ^ 60 - 1.


(** ** glm, kept abstract *)

Record vec3 (F : Type) : Type := mkVec3 { vx : F; vy : F; vz : F }.
Arguments mkVec3 {F} _ _ _.
Arguments vx {F} _.
Arguments vy {F} _.
Arguments vz {F} _.

Class GLM : Type := {
  f32 : Type;                                  (* float *)
  mat4 : Type;                                 (* glm::mat4 *)
  f32_zero : f32;                              (* 0.0f *)
  f32_one : f32;                               (* 1.0f *)
  f32_add : f32 -> f32 -> f32;
  f32_mul : f32 -> f32 -> f32;
  radians : f32 -> f32;                        (* glm::radians *)
  mat4_diag : f32 -> mat4;                     (* glm::mat4(s) *)
  mat4_default : mat4;                         (* glm::mat4() *)
  mat4_mul : mat4 -> mat4 -> mat4;             (* operator* *)
  translate : mat4 -> vec3 f32 -> mat4;        (* glm::translate *)
  rotate : mat4 -> f32 -> vec3 f32 -> mat4;    (* glm::rotate *)
  scale : mat4 -> vec3 f32 -> mat4;            (* glm::scale *)
}.

Declare Scope glm_scope.
Delimit Scope glm_scope with glm.
Infix "*m" := mat4_mul (at level 40, left associativity) : glm_scope.

(** ** Faults: a thrown exception, or undefined behaviour *)

Inductive NullPtr : Set :=
| NullOwner        (* m_Owner is nullptr *)
| NullScene        (* m_Owner->GetScene() is nullptr *)
| NullCamera       (* Scene::GetActiveCamera() is nullptr *)
| NullBuffer.      (* MatrixBuffer::Get() is nullptr *)

Inductive Fault : Set :=
| runtime_error (what : string)     (* std::runtime_error from Log::Error *)
| null_dereference (p : NullPtr)    (* undefined behaviour *)
| out_of_bounds (Index : Z)         (* undefined behaviour *)
| dangling (obj : nat).             (* a SceneObject* outside m_Objects *)

Inductive Outcome (S A : Type) : Type :=
| Ok (a : A) (s : S)
| Raise (f : Fault) (s : S).
Arguments Ok {S A} _ _.
Arguments Raise {S A} _ _.

(** Log::Error (BaseLog.cpp): throws when asked to. Its write to
    std::cerr comes first; where the state keeps a log it is recorded
    by an event of its own right before this. *)
Definition Log_Error {S} (ErrorMessage : string) (ShoudThrow : bool) (s : S)
  : Outcome S unit :=
  if ShoudThrow then Raise (runtime_error ErrorMessage) s else Ok tt s.

(** ** std::string_view *)

(** A view is kept as the two things the code reads of it. [str] is
    the characters the view spans: what [std::string(view)], an
    assignment to a std::string, a comparison and a stream read.
    [data] is the C string that starts at [view.data()]: what is read
    wherever the code passes [view.data()] on as a [const char*] or as
    a std::string; for the view of a part of a string it runs on to the
    terminator of the string underneath. Strings are taken without
    embedded NUL characters. *)
Module string_view.

Record t : Type := mk { str : string; data : string }.

(** The conversion of a std::string, or of a string literal: the view
    of the whole string. *)
Definition of_string (s : string) : t := {| str := s; data := s |}.

End string_view.

(** ** Transform.cpp *)

Module Transform.
Section WithGLM.
Context {G : GLM}.

Definition vec3_add (a b : vec3 f32) : vec3 f32 :=
  mkVec3 (f32_add (vx a) (vx b)) (f32_add (vy a) (vy b)) (f32_add (vz a) (vz b)).
Definition vec3_mul (a b : vec3 f32) : vec3 f32 :=
  mkVec3 (f32_mul (vx a) (vx b)) (f32_mul (vy a) (vy b)) (f32_mul (vz a) (vz b)).
Definition vec3_splat (s : f32) : vec3 f32 := mkVec3 s s s.
Definition vec3_scale (a : vec3 f32) (s : f32) : vec3 f32 :=
  mkVec3 (f32_mul (vx a) s) (f32_mul (vy a) s) (f32_mul (vz a) s).

(** The fields of [class Transform]. [m_Owner] is a back pointer to the
    SceneObject that contains this very transform; it is passed to
    [ComputeModelViewProjection] as what it points to. *)
Record t : Type := mk {
  m_Position : vec3 f32;
  m_Rotation : vec3 f32;
  m_Scale : vec3 f32;
  m_Dirty : bool;
  m_CachedModelMatrix : mat4;
}.

Record BaseCamera : Type := mkCamera { m_View : mat4; m_Projection : mat4 }.
Definition GetViewMatrix (c : BaseCamera) : mat4 := m_View c.
Definition GetProjectionMatrix (c : BaseCamera) : mat4 := m_Projection c.

(** A [std::shared_ptr<BaseCamera>]; a [Scene*] seen through
    [GetActiveCamera]; a [SceneObject*] seen through [GetScene]. *)
Definition CameraPtr : Type := option BaseCamera.
Definition ScenePtr : Type := option CameraPtr.
Definition OwnerPtr : Type := option ScenePtr.

(** Transform::Transform(SceneObject* Owner) *)
Definition new : t :=
  {| m_Position := vec3_splat f32_zero;
     m_Rotation := vec3_splat f32_zero;
     m_Scale := vec3_splat f32_one;
     m_Dirty := true;
     m_CachedModelMatrix := mat4_default |}.

Definition set_Position (p : vec3 f32) (x : t) : t :=
  {| m_Position := p; m_Rotation := m_Rotation x; m_Scale := m_Scale x;
     m_Dirty := m_Dirty x; m_CachedModelMatrix := m_CachedModelMatrix x |}.
Definition set_Rotation (r : vec3 f32) (x : t) : t :=
  {| m_Position := m_Position x; m_Rotation := r; m_Scale := m_Scale x;
     m_Dirty := m_Dirty x; m_CachedModelMatrix := m_CachedModelMatrix x |}.
Definition set_Scale (s : vec3 f32) (x : t) : t :=
  {| m_Position := m_Position x; m_Rotation := m_Rotation x; m_Scale := s;
     m_Dirty := m_Dirty x; m_CachedModelMatrix := m_CachedModelMatrix x |}.
Definition set_Dirty (d : bool) (x : t) : t :=
  {| m_Position := m_Position x; m_Rotation := m_Rotation x; m_Scale := m_Scale x;
     m_Dirty := d; m_CachedModelMatrix := m_CachedModelMatrix x |}.
Definition set_CachedModelMatrix (m : mat4) (x : t) : t :=
  {| m_Position := m_Position x; m_Rotation := m_Rotation x; m_Scale := m_Scale x;
     m_Dirty := m_Dirty x; m_CachedModelMatrix := m |}.

Definition SetPosition3 (X Y Z : f32) (x : t) : t :=
  set_Dirty true (set_Position (mkVec3 X Y Z) x).
Definition SetPosition (NewPosition : vec3 f32) (x : t) : t :=
  set_Dirty true (set_Position NewPosition x).
Definition MoveBy3 (DeltaX DeltaY DeltaZ : f32) (x : t) : t :=
  set_Dirty true
    (set_Position (vec3_add (m_Position x) (mkVec3 DeltaX DeltaY DeltaZ)) x).
Definition MoveBy (Offset : vec3 f32) (x : t) : t :=
  set_Dirty true (set_Position (vec3_add (m_Position x) Offset) x).
Definition GetPosition (x : t) : vec3 f32 := m_Position x.

Definition SetRotation3 (Pitch Yaw Roll : f32) (x : t) : t :=
  set_Dirty true (set_Rotation (mkVec3 Pitch Yaw Roll) x).
Definition SetRotation (NewRotation : vec3 f32) (x : t) : t :=
  set_Dirty true (set_Rotation NewRotation x).
Definition RotateBy3 (DeltaPitch DeltaYaw DeltaRoll : f32) (x : t) : t :=
  set_Dirty true
    (set_Rotation (vec3_add (m_Rotation x) (mkVec3 DeltaPitch DeltaYaw DeltaRoll)) x).
Definition RotateBy (RotationOffset : vec3 f32) (x : t) : t :=
  set_Dirty true (set_Rotation (vec3_add (m_Rotation x) RotationOffset) x).
Definition GetRotation (x : t) : vec3 f32 := m_Rotation x.

Definition SetScale3 (X Y Z : f32) (x : t) : t :=
  set_Dirty true (set_Scale (mkVec3 X Y Z) x).
Definition SetScale (NewScale : vec3 f32) (x : t) : t :=
  set_Dirty true (set_Scale NewScale x).
Definition SetUniformScale (ScaleFactor : f32) (x : t) : t :=
  set_Dirty true (set_Scale (vec3_splat ScaleFactor) x).
Definition ScaleBy3 (FactorX FactorY FactorZ : f32) (x : t) : t :=
  set_Dirty true
    (set_Scale (vec3_mul (m_Scale x) (mkVec3 FactorX FactorY FactorZ)) x).
Definition ScaleBy (ScaleOffset : vec3 f32) (x : t) : t :=
  set_Dirty true (set_Scale (vec3_mul (m_Scale x) ScaleOffset) x).
Definition ScaleByUniform (Factor : f32) (x : t) : t :=
  set_Dirty true (set_Scale (vec3_scale (m_Scale x) Factor) x).
Definition GetScale (x : t) : vec3 f32 := m_Scale x.

(** Transform::RecalculateModelMatrix; [operator*] associates to the
    left. *)
Definition RecalculateModelMatrix (x : t) : t :=
  set_Dirty false
    (set_CachedModelMatrix
       (translate (mat4_diag f32_one) (m_Position x)
        *m rotate (mat4_diag f32_one) (radians (vx (m_Rotation x)))
                  (mkVec3 f32_one f32_zero f32_zero)
        *m rotate (mat4_diag f32_one) (radians (vy (m_Rotation x)))
                  (mkVec3 f32_zero f32_one f32_zero)
        *m rotate (mat4_diag f32_one) (radians (vz (m_Rotation x)))
                  (mkVec3 f32_zero f32_zero f32_one)
        *m scale (mat4_diag f32_one) (m_Scale x))%glm x).

(** Returns (OutModelViewProjection, OutModelMatrix). *)
Definition ApplyCachedModelMatrix (Camera : BaseCamera) (x : t) : mat4 * mat4 :=
  ((GetProjectionMatrix Camera *m GetViewMatrix Camera *m m_CachedModelMatrix x)%glm,
   m_CachedModelMatrix x).

(** The private member functions a query runs, in order. *)
Inductive Call : Set := CallRecalculateModelMatrix | CallApplyCachedModelMatrix.

Definition Call_eqb (a b : Call) : bool :=
  match a, b with
  | CallRecalculateModelMatrix, CallRecalculateModelMatrix => true
  | CallApplyCachedModelMatrix, CallApplyCachedModelMatrix => true
  | _, _ => false
  end.

Definition recalculations (cs : list Call) : nat :=
  length (filter (fun c => Call_eqb c CallRecalculateModelMatrix = true) cs).

Definition ErrInvalidOwner : string :=
  "Invalid owner. For camera usage, call the appropriate function to retrieve the MVP.".

(** Transform::ComputeModelViewProjection. The two out-parameters are
    the result; the state in the outcome is the transform as the call
    leaves it. *)
Definition ComputeModelViewProjection (m_Owner : OwnerPtr) (x : t)
  : list Call * Outcome t (mat4 * mat4) :=
  match m_Owner with
  | None =>
    match Log_Error ErrInvalidOwner true x with
    | Raise f x => ([], Raise f x)
    | Ok _ x => ([], Raise (null_dereference NullOwner) x)
    end
  | Some None => ([], Raise (null_dereference NullScene) x)
  | Some (Some ActiveCamera) =>
    let '(cs, x) :=
      if m_Dirty x then ([CallRecalculateModelMatrix], RecalculateModelMatrix x)
      else ([], x) in
    match ActiveCamera with
    | None => (cs, Raise (null_dereference NullCamera) x)
    | Some Camera =>
      (cs ++ [CallApplyCachedModelMatrix], Ok (ApplyCachedModelMatrix Camera x) x)
    end
  end.

(** An owner that [Scene::AddObject] attached to a scene whose active
    camera is [c]. *)
Definition attached (c : BaseCamera) : OwnerPtr := Some (Some (Some c)).

(** The public mutators, as data, and histories of mutations and queries. *)
Inductive Mutator : Type :=
| MSetPosition3 (X Y Z : f32) | MSetPosition (v : vec3 f32)
| MMoveBy3 (X Y Z : f32) | MMoveBy (v : vec3 f32)
| MSetRotation3 (X Y Z : f32) | MSetRotation (v : vec3 f32)
| MRotateBy3 (X Y Z : f32) | MRotateBy (v : vec3 f32)
| MSetScale3 (X Y Z : f32) | MSetScale (v : vec3 f32)
| MSetUniformScale (s : f32)
| MScaleBy3 (X Y Z : f32) | MScaleBy (v : vec3 f32)
| MScaleByUniform (s : f32).

Definition mutate (m : Mutator) : t -> t :=
  match m with
  | MSetPosition3 X Y Z => SetPosition3 X Y Z | MSetPosition v => SetPosition v
  | MMoveBy3 X Y Z => MoveBy3 X Y Z | MMoveBy v => MoveBy v
  | MSetRotation3 X Y Z => SetRotation3 X Y Z | MSetRotation v => SetRotation v
  | MRotateBy3 X Y Z => RotateBy3 X Y Z | MRotateBy v => RotateBy v
  | MSetScale3 X Y Z => SetScale3 X Y Z | MSetScale v => SetScale v
  | MSetUniformScale s => SetUniformScale s
  | MScaleBy3 X Y Z => ScaleBy3 X Y Z | MScaleBy v => ScaleBy v
  | MScaleByUniform s => ScaleByUniform s
  end.

Inductive Op : Type := Mutate (m : Mutator) | Query.

(** The transform after a history, every query made with owner [o]
    (a query that faults leaves the transform as the fault found it). *)
Definition step (o : OwnerPtr) (x : t) (op : Op) : t :=
  match op with
  | Mutate m => mutate m x
  | Query =>
    match snd (ComputeModelViewProjection o x) with
    | Ok _ x' => x'
    | Raise _ x' => x'
    end
  end.

Definition run (o : OwnerPtr) (ops : list Op) (x : t) : t :=
  fold_left (step o) ops x.

End WithGLM.
End Transform.

(** ** Mesh.cpp: the content hash *)

Record vec2 (F : Type) : Type := mkVec2 { ux : F; uy : F }.
Arguments mkVec2 {F} _ _.

(** [std::hash] is implementation defined; its three instances used by
    [BaseMesh::ComputeHash] are parameters. *)
Class StdHash (G : GLM) : Type := {
  hash_size_t : Z -> Z;
  hash_float : f32 -> Z;
  hash_uint32_t : Z -> Z;
}.

Module Mesh.
Section WithGLM.
Context {G : GLM} {H : StdHash G}.

(** Vertex.h *)
Record Vertex : Type := mkVertex {
  Position : vec3 f32;
  Normal : vec3 f32;
  TexCoords : vec2 f32;
}.

Definition Texture : Type := nat.     (* a texture handle *)
Definition Material : Type := nat.    (* a material handle *)

(** The members of [BaseMesh] the renderer and the hash read. The
    OpenGL names VAO, VBO and EBO, which [FirstPass] fills, are not kept
    here: the passes of a mesh are events of the log. *)
Record BaseMesh : Type := mkBaseMesh {
  m_Vertices : list Vertex;
  m_Indices : list Z;                 (* unsigned int *)
  m_Textures : list Texture;
  m_Material : option Material;       (* std::shared_ptr<Material> *)
  m_MeshHash : option Z;              (* None: never assigned *)
}.

(** hash ^= h + 0x9e3779b9 + (hash << 6) + (hash >> 2), on size_t *)
Definition combine (hash h : Z) : Z :=
  Z.lxor hash
    (wrap64 (wrap64 h + 0x9e3779b9 + wrap64 (Z.shiftl hash 6) + Z.shiftr hash 2)).

Definition hash_vertex (hash : Z) (vertex : Vertex) : Z :=
  let hash := combine hash (hash_float (vx (Position vertex))) in
  let hash := combine hash (hash_float (vy (Position vertex))) in
  combine hash (hash_float (vz (Position vertex))).

Definition hash_index (hash : Z) (index : Z) : Z :=
  combine hash (hash_uint32_t index).

(** The value [BaseMesh::ComputeHash] assigns to [m_MeshHash]. *)
Definition ComputeHash (Vertices : list Vertex) (Indices : list Z) : Z :=
  let hash := wrap64 (hash_size_t (Z.of_nat (length Vertices))) in
  let hash := fold_left hash_vertex Vertices hash in
  fold_left hash_index Indices hash.

(** BaseMesh::BaseMesh *)
Definition new (Vertices : list Vertex) (Indices : list Z)
    (Textures : list Texture) (bComputeHash : bool) : BaseMesh :=
  {| m_Vertices := Vertices; m_Indices := Indices; m_Textures := Textures;
     m_Material := None;
     m_MeshHash := if bComputeHash then Some (ComputeHash Vertices Indices)
                   else None |}.

Definition GetMeshHash (m : BaseMesh) : option Z := m_MeshHash m.

Definition SetMaterial (mat : option Material) (m : BaseMesh) : BaseMesh :=
  {| m_Vertices := m_Vertices m; m_Indices := m_Indices m;
     m_Textures := m_Textures m; m_Material := mat;
     m_MeshHash := m_MeshHash m |}.

End WithGLM.
End Mesh.

(** ** MatrixBuffer.cpp *)

Module MatrixBuffer.
Section WithGLM.
Context {G : GLM}.

Record t : Type := mk {
  m_Buffer : option (list mat4);      (* std::unique_ptr<glm::mat4[]> *)
  m_ObjectCount : Z;                  (* size_t *)
}.

Definition sizeof_mat4 : Z := 64.

(** std::make_unique<glm::mat4[]>(n): an array of [n] default
    matrices. The allocation is taken to succeed: the call throws
    std::bad_array_new_length for an array of more than PTRDIFF_MAX
    bytes and std::bad_alloc when the memory is not there. The
    properties of frames are stated for scenes of at most
    [resize_max_count] objects, for which the first cannot happen. *)
Definition make_unique (n : Z) : list mat4 := replicate (Z.to_nat n) mat4_default.

(** MatrixBuffer::MatrixBuffer() *)
Definition new : t := {| m_Buffer := None; m_ObjectCount := 0 |}.

(** MatrixBuffer::MatrixBuffer(size_t ObjectCount) *)
Definition new_for (ObjectCount : Z) : t :=
  let m_ObjectCount := wrap64 (ObjectCount * 2) in
  {| m_Buffer := Some (make_unique (wrap64 (m_ObjectCount * 2)));
     m_ObjectCount := m_ObjectCount |}.

Definition Resize (NewObjectCount : Z) (b : t) : t :=
  if NewObjectCount <=? m_ObjectCount b then b
  else
    let m_ObjectCount := wrap64 (NewObjectCount * 2) in
    {| m_Buffer := Some (make_unique (wrap64 (m_ObjectCount * 2)));
       m_ObjectCount := m_ObjectCount |}.

Definition Get (b : t) : option (list mat4) := m_Buffer b.
Definition GetObjectCount (b : t) : Z := m_ObjectCount b.
Definition GetBufferSize (b : t) : Z := wrap64 (m_ObjectCount b * 2 * sizeof_mat4).

End WithGLM.
End MatrixBuffer.

(** ** std::map<size_t, std::vector<SceneObject*>> *)

(** The map is kept as what iterating it yields: its entries in
    strictly increasing key order. *)
Module StdMap.

Definition t : Type := list (Z * list nat).

Definition empty : t := [].

(** m[k].push_back(v): [operator[]] inserts an empty vector for a key
    that is not there yet. *)
Fixpoint push_back (k : Z) (v : nat) (m : t) : t :=
  match m with
  | [] => [(k, [v])]
  | (k', vs) :: m' =>
    if k <? k' then (k, [v]) :: (k', vs) :: m'
    else if k =? k' then (k', vs ++ [v]) :: m'
    else (k', vs) :: push_back k v m'
  end.

Definition keys (m : t) : list Z := fst <$> m.

(** The pointers of all vectors, in iteration order. *)
Definition values (m : t) : list nat := concat (snd <$> m).

Fixpoint find (k : Z) (m : t) : option (list nat) :=
  match m with
  | [] => None
  | (k', vs) :: m' => if k =? k' then Some vs else find k m'
  end.

End StdMap.

(** ** Renderer.cpp *)

Inductive BufferName : Set := MVPBufferID | NoBuffer.

Inductive Which : Set := MVP | Model.

Inductive Event : Set :=
| glClear
| glBindBuffer (b : BufferName)              (* target GL_ARRAY_BUFFER *)
| glBufferData (size : Z)
| glBufferSubData (size : Z)
| FirstPass (obj mesh : nat)                 (* BaseMesh::FirstPass *)
| SecondPass (obj mesh : nat)                (* BaseMesh::SecondPass *)
| SetNew (obj : nat) (IsNew : bool)          (* SceneObject::SetNew *)
| Store (Index : Z) (obj : nat) (m : Which)  (* m_MVPMatrixBuffer.Get()[Index] = m *)
| CallRender (obj : nat) (NumberInstance : Z)  (* Object->Render(NumberInstance) *)
| glDrawElementsInstanced (obj mesh : nat) (NumberInstance : Z)
| LogError (ErrorMessage : string)           (* Log::Error: the write to std::cerr *)
| ShaderActivate (program : Z)               (* m_ShaderProgram->Activate() *)
| ActivateTextures (mat : nat)               (* Material::ActivateTextures *)
| ApplyUniforms (mat : nat).                 (* the virtual Material::ApplyUniforms *)

(** What the renderer meets of the materials. A
    [std::shared_ptr<Material>] on a mesh is a handle; the shader a
    material holds is given to its constructor and never changes
    ([None] is a null [Shader*], otherwise the program of the shader). *)
Class Materials : Type := {
  GetShader : nat -> option Z;
}.

Module Renderer.
Section WithGLM.
Context {G : GLM} {H : StdHash G} {MS : Materials}.

(** What the renderer uses of a SceneObject: the results of the
    virtual [GetHash], [IsSkybox] and [GetMeshes], and the members
    [m_New] and [m_Transform]. *)
Record SceneObject : Type := mkSceneObject {
  GetHash : Z;
  IsSkybox : bool;
  GetMeshes : list Mesh.BaseMesh;
  m_New : bool;
  m_Transform : Transform.t;
}.

Definition IsNew (o : SceneObject) : bool := m_New o.

Definition set_New (b : bool) (o : SceneObject) : SceneObject :=
  {| GetHash := GetHash o; IsSkybox := IsSkybox o; GetMeshes := GetMeshes o;
     m_New := b; m_Transform := m_Transform o |}.

Definition set_Transform (x : Transform.t) (o : SceneObject) : SceneObject :=
  {| GetHash := GetHash o; IsSkybox := IsSkybox o; GetMeshes := GetMeshes o;
     m_New := m_New o; m_Transform := x |}.

(** Scene: the objects that [AddObject] attached, and the active camera. *)
Record Scene : Type := mkScene {
  m_ActiveCamera : Transform.CameraPtr;
  m_Objects : list SceneObject;
}.

Definition GetObjects (s : Scene) : list SceneObject := m_Objects s.

(** Scene::AddObject *)
Definition AddObject (Object : SceneObject) (s : Scene) : Scene :=
  {| m_ActiveCamera := m_ActiveCamera s; m_Objects := m_Objects s ++ [Object] |}.

(** Shape::Shape: one mesh, hashed at construction; SceneObject() sets
    m_New. [Shape::GetHash] is the hash of that mesh. *)
Definition Shape (Vertices : list Mesh.Vertex) (Indices : list Z) : SceneObject :=
  {| GetHash := Mesh.ComputeHash Vertices Indices;
     IsSkybox := false;
     GetMeshes := [Mesh.new Vertices Indices [] true];
     m_New := true;
     m_Transform := Transform.new |}.

(** Shape::SetMaterial *)
Definition Shape_SetMaterial (mat : Mesh.Material) (o : SceneObject) : SceneObject :=
  {| GetHash := GetHash o; IsSkybox := IsSkybox o;
     GetMeshes := map (Mesh.SetMaterial (Some mat)) (GetMeshes o);
     m_New := m_New o; m_Transform := m_Transform o |}.

(** Entity::Entity: a new SceneObject that forwards [GetHash] and
    [GetMeshes] to the object it wraps. *)
Definition Entity (m_Object : SceneObject) : SceneObject :=
  {| GetHash := GetHash m_Object; IsSkybox := false;
     GetMeshes := GetMeshes m_Object;
     m_New := true; m_Transform := Transform.new |}.

(** SkyboxEntity: an Entity whose [IsSkybox] returns true. *)
Definition SkyboxEntity (m_Object : SceneObject) : SceneObject :=
  {| GetHash := GetHash m_Object; IsSkybox := true;
     GetMeshes := GetMeshes m_Object;
     m_New := true; m_Transform := Transform.new |}.

(** The renderer, the scene it is given, and the log. *)
Record State : Type := mkState {
  m_MVPMatrixBuffer : MatrixBuffer.t;
  scene : Scene;
  log : list Event;
}.

Definition M (A : Type) : Type := State -> Outcome State A.

Definition ret {A} (a : A) : M A := fun s => Ok a s.
Definition bind {A B} (c : M A) (k : A -> M B) : M B :=
  fun s => match c s with
           | Ok a s' => k a s'
           | Raise f s' => Raise f s'
           end.
Definition raise {A} (f : Fault) : M A := fun s => Raise f s.

Notation "x <- c ;; k" := (bind c (fun x => k))
  (at level 100, c at next level, right associativity).
Notation "c ;; k" := (bind c (fun _ => k))
  (at level 100, right associativity).

Definition emit (es : list Event) : M unit :=
  fun s => Ok tt {| m_MVPMatrixBuffer := m_MVPMatrixBuffer s;
                    scene := scene s; log := log s ++ es |}.

Definition get_buffer : M MatrixBuffer.t := fun s => Ok (m_MVPMatrixBuffer s) s.
Definition put_buffer (b : MatrixBuffer.t) : M unit :=
  fun s => Ok tt {| m_MVPMatrixBuffer := b; scene := scene s; log := log s |}.
Definition get_scene : M Scene := fun s => Ok (scene s) s.

(** Object-> for reading *)
Definition deref (Object : nat) : M SceneObject :=
  fun s => match m_Objects (scene s) !! Object with
           | Some o => Ok o s
           | None => Raise (dangling Object) s
           end.

(** Object-> for writing *)
Definition modify (Object : nat) (f : SceneObject -> SceneObject) : M unit :=
  fun s => match m_Objects (scene s) !! Object with
           | Some o =>
             Ok tt {| m_MVPMatrixBuffer := m_MVPMatrixBuffer s;
                      scene := {| m_ActiveCamera := m_ActiveCamera (scene s);
                                  m_Objects := <[Object := f o]> (m_Objects (scene s)) |};
                      log := log s |}
           | None => Raise (dangling Object) s
           end.

Fixpoint for_each {A} (f : A -> M unit) (l : list A) : M unit :=
  match l with
  | [] => ret tt
  | a :: l' => f a ;; for_each f l'
  end.

(** A loop that carries [size_t& Index]. *)
Fixpoint for_each_idx {A} (f : A -> Z -> M Z) (l : list A) (Index : Z) : M Z :=
  match l with
  | [] => ret Index
  | a :: l' => Index' <- f a Index ;; for_each_idx f l' Index'
  end.

Definition ClearFrameBuffer : M unit := emit [glClear].

Definition BatchStep (acc : StdMap.t * option nat) (iObject : nat * SceneObject)
  : StdMap.t * option nat :=
  let '(ObjectBatches, Skybox) := acc in
  let '(i, Object) := iObject in
  if IsSkybox Object then (ObjectBatches, Some i)
  else
    let VertexHash := GetHash Object in
    (StdMap.push_back VertexHash i ObjectBatches, Skybox).

(** Renderer::BatchSceneObjects, with [Skybox] initially [SkyboxIn]. *)
Definition BatchSceneObjects (Objects : list SceneObject) (SkyboxIn : option nat)
  : StdMap.t * option nat :=
  fold_left BatchStep (imap (fun i o => (i, o)) Objects) (StdMap.empty, SkyboxIn).

Definition PerformFirstPass (Object : nat) : M unit :=
  o <- deref Object ;;
  emit (imap (fun k _ => FirstPass Object k) (GetMeshes o)).

Definition PerformSecondPass (Object : nat) : M unit :=
  o <- deref Object ;;
  emit (imap (fun k _ => SecondPass Object k) (GetMeshes o)).

Definition BindMVPBuffer : M unit := emit [glBindBuffer MVPBufferID].

(** Object->SetNew(b) *)
Definition SetNew_ (Object : nat) (b : bool) : M unit :=
  modify Object (set_New b) ;; emit [SetNew Object b].

Definition ErrNoShader : string :=
  "Shader program is null or uninitialized. Ensure a valid shader program is assigned to this material before activation.".

(** Material::Activate (Material.cpp), on the material behind a handle:
    without a shader, Log::Error writes to std::cerr and throws; with
    one, the shader is activated, then the textures, then the virtual
    ApplyUniforms is called (the one of [Material] does nothing; an
    override is code of the material's class and is taken to return). *)
Definition Material_Activate (mat : nat) : M unit :=
  match GetShader mat with
  | None => emit [LogError ErrNoShader] ;; Log_Error ErrNoShader true
  | Some program =>
    emit [ShaderActivate program; ActivateTextures mat; ApplyUniforms mat]
  end.

(** BaseMesh::Render (Mesh.cpp), on mesh [k] of the object. *)
Definition BaseMesh_Render (Object : nat) (NumberInstance : Z)
    (km : nat * Mesh.BaseMesh) : M unit :=
  (match Mesh.m_Material (snd km) with
   | Some mat => Material_Activate mat
   | None => ret tt
   end) ;;
  emit [glDrawElementsInstanced Object (fst km) NumberInstance].

(** Object->Render(NumberInstance): every mesh of the object is
    rendered in turn ([Shape::Render], [Model::Render]; an [Entity]
    forwards to the object it wraps). *)
Definition Render_ (Object : nat) (NumberInstance : Z) : M unit :=
  o <- deref Object ;;
  emit [CallRender Object NumberInstance] ;;
  for_each (BaseMesh_Render Object NumberInstance)
           (imap (fun k m => (k, m)) (GetMeshes o)).

Definition EnsureBufferCapacity (TotalObjectCount : Z) : M unit :=
  b <- get_buffer ;;
  if negb (bool_decide (is_Some (MatrixBuffer.Get b)))
     || (MatrixBuffer.GetObjectCount b <? TotalObjectCount)
  then
    put_buffer (MatrixBuffer.Resize TotalObjectCount b) ;;
    b <- get_buffer ;;
    emit [glBindBuffer MVPBufferID; glBufferData (MatrixBuffer.GetBufferSize b)]
  else ret tt.

(** m_MVPMatrixBuffer.Get()[Index] = Matrix *)
Definition store (Object : nat) (Index : Z) (w : Which) (Matrix : mat4) : M unit :=
  b <- get_buffer ;;
  match MatrixBuffer.Get b with
  | None => raise (null_dereference NullBuffer)
  | Some data =>
    if (0 <=? Index) && (Index <? Z.of_nat (length data)) then
      put_buffer {| MatrixBuffer.m_Buffer := Some (<[Z.to_nat Index := Matrix]> data);
                    MatrixBuffer.m_ObjectCount := MatrixBuffer.m_ObjectCount b |} ;;
      emit [Store Index Object w]
    else raise (out_of_bounds Index)
  end.

(** Object->GetTransform().ComputeModelViewProjection(MVP, Model). The
    object is in the scene, so its owner and scene pointers are set. *)
Definition ComputeMVP (Object : nat) : M (mat4 * mat4) :=
  o <- deref Object ;;
  sc <- get_scene ;;
  match snd (Transform.ComputeModelViewProjection
               (Some (Some (m_ActiveCamera sc))) (m_Transform o)) with
  | Ok r x => modify Object (set_Transform x) ;; ret r
  | Raise f x => modify Object (set_Transform x) ;; raise f
  end.

Definition ProcessObjectForMVP (Object : nat) (Index : Z) : M Z :=
  o <- deref Object ;;
  (if IsNew o then
     PerformFirstPass Object ;;
     BindMVPBuffer ;;
     PerformSecondPass Object ;;
     SetNew_ Object false
   else ret tt) ;;
  r <- ComputeMVP Object ;;
  store Object Index MVP (fst r) ;;
  store Object (wrap64 (Index + 1)) Model (snd r) ;;
  ret (wrap64 (Index + 2)).

Definition UploadMVPDataToGPU : M unit :=
  b <- get_buffer ;;
  emit [glBindBuffer MVPBufferID;
        glBufferSubData (MatrixBuffer.GetBufferSize b);
        glBindBuffer NoBuffer].

Definition UpdateMVPInstances (ObjectBatches : StdMap.t) (HasSkybox : bool) : M unit :=
  sc <- get_scene ;;
  let TotalObjectCount := wrap64 (Z.of_nat (length (GetObjects sc)) - Z.b2z HasSkybox) in
  EnsureBufferCapacity TotalObjectCount ;;
  for_each_idx
    (fun (entry : Z * list nat) Index =>
       for_each_idx ProcessObjectForMVP (snd entry) Index)
    ObjectBatches 0 ;;
  UploadMVPDataToGPU.

Definition RenderBatches (ObjectBatches : StdMap.t) : M unit :=
  for_each
    (fun entry : Z * list nat =>
       let ObjectBatch := snd entry in
       for_each (fun Object => Render_ Object (Z.of_nat (length ObjectBatch)))
                ObjectBatch)
    ObjectBatches.

Definition RenderSkybox (Skybox : option nat) : M unit :=
  match Skybox with
  | None => ret tt
  | Some Skybox =>
    o <- deref Skybox ;;
    (if IsNew o then
       PerformFirstPass Skybox ;;
       SetNew_ Skybox false
     else ret tt) ;;
    Render_ Skybox 1
  end.

(** Renderer::Render *)
Definition Render : M unit :=
  ClearFrameBuffer ;;
  sc <- get_scene ;;
  let '(ObjectBatches, Skybox) := BatchSceneObjects (GetObjects sc) None in
  UpdateMVPInstances ObjectBatches (bool_decide (is_Some Skybox)) ;;
  RenderBatches ObjectBatches ;;
  RenderSkybox Skybox.

(** Renderer::Renderer: an empty MatrixBuffer. *)
Definition init (sc : Scene) : State :=
  {| m_MVPMatrixBuffer := MatrixBuffer.new; scene := sc; log := [] |}.

(** What a run leaves behind, whether it returned or not. *)
Definition final {A} (r : Outcome State A) : State :=
  match r with Ok _ s => s | Raise _ s => s end.


End WithGLM.
End Renderer.

(** ** A small instance for running the model: floats and matrices are
    integers, every glm function is given some integer meaning. *)
Definition ToyGLM : GLM :=
  {| f32 := Z; mat4 := Z; f32_zero := 0; f32_one := 1;
     f32_add := Z.add; f32_mul := Z.mul; radians := fun a => a;
     mat4_diag := fun s => s; mat4_default := 0; mat4_mul := Z.mul;
     translate := fun m v => m * (2 + vx v + 3 * vy v + 5 * vz v);
     rotate := fun m a v => m * (7 + a * (vx v + 2 * vy v + 3 * vz v));
     scale := fun m v => m * (11 + vx v * vy v * vz v) |}.

Definition ToyHash : StdHash ToyGLM :=
  {| hash_size_t := fun z => z; hash_float := (fun f : Z => f) : @f32 ToyGLM -> Z; hash_uint32_t := fun z => z |}.

(** The material 0 was made without a shader; a material k > 0 holds
    the program k. *)
#[global] Instance ToyMaterials : Materials :=
  {| GetShader := fun mat => match mat with O => None | S _ => Some (Z.of_nat mat) end |}.

(** Examples over the small instance. *)
Definition toy_camera : @Transform.BaseCamera ToyGLM :=
  @Transform.mkCamera ToyGLM 3 5.

Definition toy_vertex (x y z nx ny nz u v : Z) : @Mesh.Vertex ToyGLM :=
  @Mesh.mkVertex ToyGLM (@mkVec3 Z x y z) (@mkVec3 Z nx ny nz) (@mkVec2 Z u v).

Definition toy_triangle : list (@Mesh.Vertex ToyGLM) :=
  [toy_vertex 0 0 0  0 0 1  0 0;
   toy_vertex 1 0 0  0 0 1  1 0;
   toy_vertex 0 1 0  0 0 1  0 1].

(** The same positions with other normals and texture coordinates. *)
Definition toy_triangle' : list (@Mesh.Vertex ToyGLM) :=
  [toy_vertex 0 0 0  1 0 0  5 5;
   toy_vertex 1 0 0  0 1 0  6 6;
   toy_vertex 0 1 0  0 0 1  7 7].

Definition toy_shape : @Renderer.SceneObject ToyGLM :=
  @Renderer.Shape ToyGLM ToyHash toy_triangle [0; 1; 2].

Definition toy_shape' : @Renderer.SceneObject ToyGLM :=
  Renderer.Shape_SetMaterial 1%nat (@Renderer.Shape ToyGLM ToyHash toy_triangle' [0; 1; 2]).

(** Objects A and B of one hash, both new. *)
Definition two_shapes : @Renderer.Scene ToyGLM :=
  Renderer.mkScene (Some toy_camera) [toy_shape; toy_shape].

(** Two objects flagged as background, around an ordinary one. *)
Definition two_skyboxes : @Renderer.Scene ToyGLM :=
  Renderer.mkScene (Some toy_camera)
    [Renderer.SkyboxEntity toy_shape; toy_shape; Renderer.SkyboxEntity toy_shape].




(** An object whose material was made without a shader. *)
Definition toy_unlit : @Renderer.SceneObject ToyGLM :=
  Renderer.Shape_SetMaterial 0%nat toy_shape.

(** * Vocabulary of the statements *)

Section Vocabulary.
Context {G : GLM} {H : StdHash G} {MS : Materials}.
Import Renderer.

(** The buffer after a sequence of resize requests. *)
Definition resized (ns : list Z) (b : MatrixBuffer.t) : MatrixBuffer.t :=
  fold_left (fun b n => MatrixBuffer.Resize n b) ns b.

(** What [EnsureBufferCapacity] sends to OpenGL. *)
Definition ensure_log (b : MatrixBuffer.t) (n : Z) : list Event :=
  if negb (bool_decide (is_Some (MatrixBuffer.Get b)))
     || (MatrixBuffer.GetObjectCount b <? n)
  then [glBindBuffer MVPBufferID;
        glBufferData (MatrixBuffer.GetBufferSize (MatrixBuffer.Resize n b))]
  else [].

Definition capacity (s : State) : Z :=
  MatrixBuffer.GetObjectCount (m_MVPMatrixBuffer s).

(** Translate * RotateX * RotateY * RotateZ * Scale: the identity moved
    by [Position], turned about the x, y and z axis by the components
    of [Rotation] (in degrees), and scaled by [Scale]. *)
Definition trs_product (Position Rotation Scale : vec3 f32) : mat4 :=
  let I := mat4_diag f32_one in
  let Translate := translate I Position in
  let RotateX := rotate I (radians (vx Rotation)) (mkVec3 f32_one f32_zero f32_zero) in
  let RotateY := rotate I (radians (vy Rotation)) (mkVec3 f32_zero f32_one f32_zero) in
  let RotateZ := rotate I (radians (vz Rotation)) (mkVec3 f32_zero f32_zero f32_one) in
  (Translate *m RotateX *m RotateY *m RotateZ *m scale I Scale)%glm.

(** The cached matrix is the one the current position, rotation and
    scale give, whenever the dirty flag is clear. *)
Definition cache_valid (x : Transform.t) : Prop :=
  Transform.m_Dirty x = false ->
  Transform.m_CachedModelMatrix x =
    trs_product (Transform.m_Position x) (Transform.m_Rotation x)
                (Transform.m_Scale x).

(** The content hash as a function of the vertex count, the vertex
    positions and the indices. *)
Definition hash_position (hash : Z) (p : vec3 f32) : Z :=
  Mesh.combine
    (Mesh.combine (Mesh.combine hash (hash_float (vx p))) (hash_float (vy p)))
    (hash_float (vz p)).

Definition content_hash (count : Z) (positions : list (vec3 f32))
    (indices : list Z) : Z :=
  fold_left Mesh.hash_index indices
    (fold_left hash_position positions (wrap64 (hash_size_t count))).

(** The objects of a scene with their pointers, in registration order. *)
Definition indexed (Objects : list SceneObject) : list (nat * SceneObject) :=
  imap (fun i o => (i, o)) Objects.

(** The pointers of the objects flagged as skybox, in registration order. *)
Definition flagged (l : list (nat * SceneObject)) : list nat :=
  fst <$> (filter (fun io => IsSkybox (snd io) = true) l).

(** The pointers of the unflagged objects of hash [h], in registration
    order. *)
Definition batch_of (h : Z) (l : list (nat * SceneObject)) : list nat :=
  fst <$> (filter (fun io => IsSkybox (snd io) = false /\ GetHash (snd io) = h) l).

(** The pointers of all unflagged objects, in registration order. *)
Definition unflagged (l : list (nat * SceneObject)) : list nat :=
  fst <$> (filter (fun io => IsSkybox (snd io) = false) l).

Definition sorted_keys (m : StdMap.t) : Prop :=
  Sorted.StronglySorted Z.lt (StdMap.keys m).

(** The log of a frame, written from the objects as the frame finds
    them. *)
Definition meshes_of (Objects : list SceneObject) (o : nat) : list Mesh.BaseMesh :=
  match Objects !! o with Some ob => GetMeshes ob | None => [] end.

Definition is_new (Objects : list SceneObject) (o : nat) : bool :=
  match Objects !! o with Some ob => m_New ob | None => false end.

Definition first_pass (Objects : list SceneObject) (o : nat) : list Event :=
  imap (fun k _ => FirstPass o k) (meshes_of Objects o).

Definition second_pass (Objects : list SceneObject) (o : nat) : list Event :=
  imap (fun k _ => SecondPass o k) (meshes_of Objects o).

(** The transition of a new object in [ProcessObjectForMVP]. *)
Definition init_block (Objects : list SceneObject) (o : nat) : list Event :=
  first_pass Objects o ++ [glBindBuffer MVPBufferID]
  ++ second_pass Objects o ++ [SetNew o false].

Definition process_block (Objects : list SceneObject) (o : nat) (Index : Z)
  : list Event :=
  (if is_new Objects o then init_block Objects o else [])
  ++ [Store Index o MVP; Store (Index + 1) o Model].

Fixpoint process_log (Objects : list SceneObject) (ps : list nat) (Index : Z)
  : list Event :=
  match ps with
  | [] => []
  | o :: ps' => process_block Objects o Index ++ process_log Objects ps' (Index + 2)
  end.




(** What [Material::Activate] sends for the material of a mesh that is
    ready. *)
Definition material_log (m : Mesh.BaseMesh) : list Event :=
  match Mesh.m_Material m with
  | Some mat =>
    match GetShader mat with
    | Some program => [ShaderActivate program; ActivateTextures mat; ApplyUniforms mat]
    | None => []
    end
  | None => []
  end.

Definition mesh_draw (o : nat) (n : Z) (km : nat * Mesh.BaseMesh) : list Event :=
  material_log (snd km) ++ [glDrawElementsInstanced o (fst km) n].

(** The log of [Object->Render(n)] when the materials of the object are
    ready. *)
Definition draws (Objects : list SceneObject) (o : nat) (n : Z) : list Event :=
  CallRender o n
  :: concat (mesh_draw o n <$> imap (fun k m => (k, m)) (meshes_of Objects o)).

Definition batch_draws (Objects : list SceneObject) (n : Z) (vs : list nat)
  : list Event :=
  concat ((fun o => draws Objects o n) <$> vs).

Definition batches_log (Objects : list SceneObject) (batches : StdMap.t)
  : list Event :=
  concat ((fun e : Z * list nat =>
             batch_draws Objects (Z.of_nat (length (snd e))) (snd e)) <$> batches).

(** What [RenderSkybox] does with the object it is given. *)
Definition skybox_block (Objects : list SceneObject) (sk : nat) : list Event :=
  (if is_new Objects sk then first_pass Objects sk ++ [SetNew sk false] else [])
  ++ draws Objects sk 1.

Definition skybox_log (Objects : list SceneObject) (Skybox : option nat)
  : list Event :=
  match Skybox with None => [] | Some sk => skybox_block Objects sk end.

Definition upload_log (b : MatrixBuffer.t) : list Event :=
  [glBindBuffer MVPBufferID; glBufferSubData (MatrixBuffer.GetBufferSize b);
   glBindBuffer NoBuffer].

(** The count [UpdateMVPInstances] asks the buffer for. *)
Definition requested (Objects : list SceneObject) : Z :=
  wrap64 (Z.of_nat (length Objects)
          - Z.b2z (bool_decide (is_Some (snd (BatchSceneObjects Objects None))))).

Definition frame_log (s : State) : list Event :=
  let Objects := m_Objects (scene s) in
  let batches := fst (BatchSceneObjects Objects None) in
  let Skybox := snd (BatchSceneObjects Objects None) in
  let b := m_MVPMatrixBuffer s in
  [glClear] ++ ensure_log b (requested Objects)
  ++ process_log Objects (StdMap.values batches) 0
  ++ upload_log (MatrixBuffer.Resize (requested Objects) b)
  ++ batches_log Objects batches
  ++ skybox_log Objects Skybox.







Definition rendered (lg : list Event) : list nat :=
  omap (fun e => match e with CallRender o _ => Some o | _ => None end) lg.

Definition stores (lg : list Event) : list (Z * nat * Which) :=
  omap (fun e => match e with Store i o w => Some (i, o, w) | _ => None end) lg.

Definition draw_calls (lg : list Event) : list (nat * nat * Z) :=
  omap (fun e => match e with
                 | glDrawElementsInstanced o k n => Some (o, k, n)
                 | _ => None
                 end) lg.

(** The stores of a loop over [ps] that starts at [Index]. *)
Fixpoint store_plan (ps : list nat) (Index : Z) : list (Z * nat * Which) :=
  match ps with
  | [] => []
  | o :: ps' => (Index, o, MVP) :: (Index + 1, o, Model) :: store_plan ps' (Index + 2)
  end.



(** The object an event is about. *)
Definition object_of (e : Event) : option nat :=
  match e with
  | FirstPass o _ | SecondPass o _ | SetNew o _ | Store _ o _
  | CallRender o _ | glDrawElementsInstanced o _ _ => Some o
  | _ => None
  end.

(** The events of a material: its shader made current, its textures
    bound, its uniforms applied, or the message of a failed activation. *)
Definition material_event (e : Event) : Prop :=
  match e with
  | LogError _ | ShaderActivate _ | ActivateTextures _ | ApplyUniforms _ => True
  | _ => False
  end.

(** Every event about an object is about one of [objs]. *)
Definition about (objs : list nat) (e : Event) : Prop :=
  forall o, object_of e = Some o -> o ∈ objs.

(** No event is about the object [o]: no pass, no write of a matrix, no
    change of its new-flag, no call of its Render and no draw call. *)
Definition untouched (o : nat) (lg : list Event) : Prop :=
  Forall (fun e => object_of e <> Some o) lg.

(** The events of rendering: a first pass, the clearing of a new-flag,
    a call of Render and a draw call, each on one of [objs], and the
    events of a material. No write of a matrix, no binding of a buffer
    and no second pass is among them. *)
Definition drawing (objs : list nat) (e : Event) : Prop :=
  match e with
  | FirstPass o _ | SetNew o _ | CallRender o _ | glDrawElementsInstanced o _ _ =>
    o ∈ objs
  | LogError _ | ShaderActivate _ | ActivateTextures _ | ApplyUniforms _ => True
  | _ => False
  end.


(** The events a computation adds to the log, whether it returns or
    not, all satisfy [P]. *)
Definition emits (P : Event -> Prop) {A} (c : M A) : Prop :=
  forall s, exists new, log (final (c s)) = log s ++ new /\ Forall P new.

Definition option_list {A} (x : option A) : list A :=
  match x with Some a => [a] | None => [] end.

(** The claim that the first flagged object is the background and the
    later flagged ones are batched like ordinary objects. *)
Definition first_flagged_is_background (Objects : list SceneObject) : Prop :=
  let r := BatchSceneObjects Objects None in
  snd r = head (flagged (indexed Objects))
  /\ forall i, i ∈ flagged (indexed Objects) -> snd r <> Some i ->
               i ∈ StdMap.values (fst r).


End Vocabulary.

(** * The frame as a whole *)

Section FrameVocabulary.
Context {G : GLM} {H : StdHash G} {MS : Materials}.
Import Renderer.

(** The model matrix a query hands out for a transform: the cached
    matrix, or, when the dirty flag is set, the product
    Translate * RotateX * RotateY * RotateZ * Scale of its position,
    rotation and scale. *)
Definition model_matrix (x : Transform.t) : mat4 :=
  if Transform.m_Dirty x
  then trs_product (Transform.m_Position x) (Transform.m_Rotation x)
                   (Transform.m_Scale x)
  else Transform.m_CachedModelMatrix x.

Definition mvp_matrix (c : Transform.BaseCamera) (x : Transform.t) : mat4 :=
  (Transform.GetProjectionMatrix c *m Transform.GetViewMatrix c *m model_matrix x)%glm.

(** The array after the loop of [UpdateMVPInstances] over the pointers
    [ps], started at [Index]. *)
Fixpoint filled (c : Transform.BaseCamera) (Objects : list SceneObject)
    (ps : list nat) (Index : Z) (data : list mat4) : list mat4 :=
  match ps with
  | [] => data
  | o :: ps' =>
    match Objects !! o with
    | Some ob =>
      filled c Objects ps' (Index + 2)
        (<[Z.to_nat (Index + 1) := model_matrix (m_Transform ob)]>
           (<[Z.to_nat Index := mvp_matrix c (m_Transform ob)]> data))
    | None => data
    end
  end.



(** What the OpenGL calls of a log do to the GL_ARRAY_BUFFER binding
    and to the data store of the instance buffer. [BaseMesh::FirstPass]
    binds the VBO of the mesh (Mesh.cpp, InitializeBuffers);
    [BaseMesh::SecondPass] records attribute pointers into the buffer
    that is bound (ConfigureVertexAttributesInstances). *)
Record GLState : Type := mkGL {
  array_buffer : option BufferName;   (* None: a buffer of a mesh *)
  store_size : option Z;              (* of MVPBufferID; None: no store yet *)
}.

Definition gl_step (g : GLState) (e : Event) : option GLState :=
  match e with
  | glBindBuffer b => Some (mkGL (Some b) (store_size g))
  | FirstPass _ _ => Some (mkGL None (store_size g))
  | glBufferData size =>
    match array_buffer g with
    | Some MVPBufferID => Some (mkGL (array_buffer g) (Some size))
    | _ => None
    end
  | glBufferSubData size =>
    match array_buffer g, store_size g with
    | Some MVPBufferID, Some n => if size <=? n then Some g else None
    | _, _ => None
    end
  | SecondPass _ _ =>
    match array_buffer g with
    | Some MVPBufferID => Some g
    | _ => None
    end
  | _ => Some g
  end.

Fixpoint gl_run (g : GLState) (lg : list Event) : option GLState :=
  match lg with
  | [] => Some g
  | e :: lg' =>
    match gl_step g e with
    | Some g' => gl_run g' lg'
    | None => None
    end
  end.



End FrameVocabulary.

(** * Shapes *)

(** ** Sphere.cpp *)

(** <cmath>, <numbers> and the numeric conversions of C++ that
    Sphere.cpp uses, kept abstract like glm. *)
Class CMath (G : GLM) : Type := {
  f64 : Type;                          (* double *)
  pi : f64;                            (* std::numbers::pi *)
  f32_two : f32;                       (* 2.0f *)
  f64_of_int : Z -> f64;               (* int -> double *)
  f64_of_f32 : f32 -> f64;             (* float -> double *)
  f32_of_f64 : f64 -> f32;             (* double -> float *)
  f32_of_int : Z -> f32;               (* int -> float *)
  f64_mul : f64 -> f64 -> f64;
  f64_div : f64 -> f64 -> f64;
  f32_div : f32 -> f32 -> f32;
  sinf : f32 -> f32;
  cosf : f32 -> f32;
  normalize : vec3 f32 -> vec3 f32;    (* glm::normalize *)
}.

Definition INT_MAX : Z := 2 ^ 31 - 1.

(** int -> unsigned int *)
Definition to_unsigned (z : Z) : Z := z mod 2 ^ 32.

Module Sphere.
Section WithGLM.
Context {G : GLM} {H : StdHash G} {C : CMath G}.

(** The body of the inner loop of [GenerateVertices]. *)
Definition MakeVertex (Radius : f32) (Stacks Slices StackIndex SliceIndex : Z)
  : Mesh.Vertex :=
  let Phi := f32_of_f64 (f64_div (f64_mul pi (f64_of_int StackIndex))
                                 (f64_of_int Stacks)) in
  let Theta := f32_of_f64 (f64_div (f64_mul (f64_mul (f64_of_f32 f32_two) pi)
                                            (f64_of_int SliceIndex))
                                   (f64_of_int Slices)) in
  let X := f32_mul (f32_mul Radius (sinf Phi)) (cosf Theta) in
  let Y := f32_mul Radius (cosf Phi) in
  let Z := f32_mul (f32_mul Radius (sinf Phi)) (sinf Theta) in
  let Position := mkVec3 X Y Z in
  let Normal := normalize Position in
  let TexCoords := mkVec2 (f32_div (f32_of_int SliceIndex) (f32_of_int Slices))
                          (f32_div (f32_of_int StackIndex) (f32_of_int Stacks)) in
  Mesh.mkVertex Position Normal TexCoords.

(** Sphere::GenerateVertices: StackIndex runs over 0 .. Stacks and,
    inside, SliceIndex over 0 .. Slices. *)
Definition GenerateVertices (Radius : f32) (Stacks Slices : Z) : list Mesh.Vertex :=
  concat ((fun StackIndex =>
             (fun SliceIndex => MakeVertex Radius Stacks Slices StackIndex SliceIndex)
               <$> seqZ 0 (Slices + 1))
            <$> seqZ 0 (Stacks + 1)).

(** The six indices pushed for one quad. *)
Definition QuadIndices (Slices StackIndex SliceIndex : Z) : list Z :=
  let First := (StackIndex * (Slices + 1)) + SliceIndex in
  let Second := First + Slices + 1 in
  [to_unsigned First; to_unsigned Second; to_unsigned (First + 1);
   to_unsigned Second; to_unsigned (Second + 1); to_unsigned (First + 1)].

(** Sphere::GenerateIndices: StackIndex runs over 0 .. Stacks - 1 and,
    inside, SliceIndex over 0 .. Slices - 1. *)
Definition GenerateIndices (Stacks Slices : Z) : list Z :=
  concat ((fun StackIndex =>
             concat ((fun SliceIndex => QuadIndices Slices StackIndex SliceIndex)
                       <$> seqZ 0 Slices))
            <$> seqZ 0 Stacks).

(** Sphere::Sphere *)
Definition new (Radius : f32) (Stacks Slices : Z) : Renderer.SceneObject :=
  Renderer.Shape (GenerateVertices Radius Stacks Slices) (GenerateIndices Stacks Slices).

End WithGLM.
End Sphere.

Definition ToyCMath : CMath ToyGLM :=
  {| f64 := Z; pi := 3; f32_two := 2 : @f32 ToyGLM;
     f64_of_int := fun z => z; f64_of_f32 := (fun z : Z => z) : @f32 ToyGLM -> Z;
     f32_of_f64 := (fun z : Z => z) : Z -> @f32 ToyGLM;
     f32_of_int := (fun z : Z => z) : Z -> @f32 ToyGLM;
     f64_mul := Z.mul; f64_div := Z.div;
     f32_div := Z.div : @f32 ToyGLM -> @f32 ToyGLM -> @f32 ToyGLM;
     sinf := (fun z : Z => z) : @f32 ToyGLM -> @f32 ToyGLM;
     cosf := (fun z : Z => z + 1) : @f32 ToyGLM -> @f32 ToyGLM;
     normalize := (fun v => v) : vec3 (@f32 ToyGLM) -> vec3 (@f32 ToyGLM) |}.

(** * Textures and materials *)

(** ** A state and error monad for the rest of the library *)

Definition Exec (S A : Type) : Type := S -> Outcome S A.

Section Exec.
Context {S : Type}.

Definition pure {A} (a : A) : Exec S A := fun s => Ok a s.

Definition and_then {A B} (c : Exec S A) (k : A -> Exec S B) : Exec S B :=
  fun s => match c s with
           | Ok a s' => k a s'
           | Raise f s' => Raise f s'
           end.

Definition throw {A} (f : Fault) : Exec S A := fun s => Raise f s.
Definition get : Exec S S := fun s => Ok s s.
Definition put (s : S) : Exec S unit := fun _ => Ok tt s.

End Exec.

Declare Scope exec_scope.
Delimit Scope exec_scope with exec.
Notation "'let*' x ':=' c 'in' k" := (and_then c (fun x => k))
  (at level 10, x name, c at level 100, k at level 200) : exec_scope.
Notation "'let*' ' p ':=' c 'in' k" := (and_then c (fun p => k))
  (at level 10, p pattern, c at level 100, k at level 200) : exec_scope.

Section ExecLoops.
Context {S : Type}.
Local Open Scope exec_scope.

Fixpoint for_all {A} (f : A -> Exec S unit) (l : list A) : Exec S unit :=
  match l with
  | [] => pure tt
  | a :: l' => let* _ := f a in for_all f l'
  end.

End ExecLoops.

(** std::to_string on an unsigned value *)
Definition to_string (z : Z) : string := NilZero.string_of_uint (N.to_uint (Z.to_N z)).

(** The character of a double quote, and of a single one. *)
Definition dquote : string := String "034"%char EmptyString.

(** size_t -> int8_t *)
Definition to_int8 (z : Z) : Z := (z + 128) mod 256 - 128.

(** ** Texture.cpp *)

Inductive TextureTarget : Set := GL_TEXTURE_2D | GL_TEXTURE_CUBE_MAP.

(** The target of glTexImage2D: GL_TEXTURE_2D, or
    GL_TEXTURE_CUBE_MAP_POSITIVE_X + i. *)
Inductive ImageTarget : Set := Image2D | CubeMapFace (i : Z).

Inductive PixelFormat : Set := GL_RGB | GL_RGBA.

Inductive TexParameter : Set :=
| GL_TEXTURE_WRAP_S | GL_TEXTURE_WRAP_T | GL_TEXTURE_WRAP_R
| GL_TEXTURE_MIN_FILTER | GL_TEXTURE_MAG_FILTER.

Definition GL_REPEAT : Z := 0x2901.
Definition GL_LINEAR : Z := 0x2601.
Definition GL_CLAMP_TO_EDGE : Z := 0x812F.

(** The calls into OpenGL, stb_image and the log streams, in program
    order. *)
Inductive Call : Set :=
| stbi_set_flip_vertically_on_load (flag : bool)
| glGenTextures (id : Z)
| glBindTexture (target : option TextureTarget) (id : Z)
| stbi_load (Path : string)
| glTexImage2D (target : ImageTarget) (format : PixelFormat) (Width Height : Z)
| glTexParameteri (target : TextureTarget) (pname : TexParameter) (param : Z)
| glGenerateMipmap (target : TextureTarget)
| glActiveTexture (unit : Z)                 (* GL_TEXTURE0 + unit *)
| glDeleteTextures (id : Z)
| glUseProgram (program : Z)
| cerr (ErrorMessage : string)               (* Log::Error *)
| cout (Message : string).                   (* Log::Log *)

(** What stbi_load finds in a file. *)
Record Image : Set := mkImage { Width : Z; Height : Z; ChannelNr : Z }.

(** The files and libraries outside the program. *)
Class Platform : Type := {
  stbi_image : string -> option Image;       (* None: stbi_load returns NULL *)
  fs_exists : string -> bool;                (* std::filesystem::exists *)
  path_append : string -> string -> string;  (* std::filesystem::operator/ *)
  parent_path : string -> string;            (* path::parent_path *)
  read_lines : string -> option (list string); (* std::ifstream, std::getline *)
}.

(** The OpenGL context: the next unused texture name, and the calls made. *)
Record World : Type := mkWorld { next_texture : Z; calls : list Call }.

Definition call (cs : list Call) (w : World) : World :=
  {| next_texture := next_texture w; calls := calls w ++ cs |}.

(** Log::Error and Log::Assert (BaseLog.cpp) on a state that holds the
    streams: the message is written to std::cerr, then the exception is
    thrown. [write] appends calls to the context the state holds.
    [Assert] is the one without a callback. *)
Module Log.
Section OnStreams.
Context {S : Type} (write : list Call -> S -> S).

Definition Error (ErrorMessage : string) (ShoudThrow : bool) : Exec S unit :=
  fun s => Log_Error ErrorMessage ShoudThrow (write [cerr ErrorMessage] s).

Definition Assert (Condition : bool) (AssertMessage : string) : Exec S unit :=
  fun s => if Condition then Ok tt s
           else Raise (runtime_error AssertMessage) (write [cerr AssertMessage] s).

End OnStreams.
End Log.

(** ** std::unordered_map *)

(** The map is a [gmap]; the order in which iterating it yields its
    entries is left to the implementation of the hash table, and is a
    parameter: any enumeration of the entries, each one once, taken as
    a function of what the map holds. *)
Class UnorderedMap : Type := {
  iteration : forall {K} `{Countable K} {V}, gmap K V -> list (K * V);
  iteration_Permutation :
    forall {K} `{Countable K} {V} (m : gmap K V), iteration m ≡ₚ map_to_list m;
}.

Module Texture.
Section WithPlatform.
Context {P : Platform}.

Record t : Type := mk {
  m_ID : Z;                              (* unsigned int *)
  m_Name : string;
  m_Path : string;
  m_SlotIndex : Z;                       (* int8_t *)
  m_TextureTarget : option TextureTarget;  (* None: never assigned *)
}.

(** Texture::Texture() *)
Definition new : t :=
  {| m_ID := 0; m_Name := ""; m_Path := ""; m_SlotIndex := 0;
     m_TextureTarget := None |}.

Definition GetID (x : t) : Z := m_ID x.
Definition GetName (x : t) : string := m_Name x.
Definition GetPath (x : t) : string := m_Path x.
Definition GetSlotIndex (x : t) : Z := m_SlotIndex x.

Definition SetID (ID : Z) (x : t) : t :=
  {| m_ID := ID; m_Name := m_Name x; m_Path := m_Path x;
     m_SlotIndex := m_SlotIndex x; m_TextureTarget := m_TextureTarget x |}.
Definition set_Name (Name : string) (x : t) : t :=
  {| m_ID := m_ID x; m_Name := Name; m_Path := m_Path x;
     m_SlotIndex := m_SlotIndex x; m_TextureTarget := m_TextureTarget x |}.
Definition set_Path (Path : string) (x : t) : t :=
  {| m_ID := m_ID x; m_Name := m_Name x; m_Path := Path;
     m_SlotIndex := m_SlotIndex x; m_TextureTarget := m_TextureTarget x |}.
(** m_Name = Name and m_Path = Path, from a view *)
Definition SetName (Name : string_view.t) (x : t) : t :=
  set_Name (string_view.str Name) x.
Definition SetPath (Path : string_view.t) (x : t) : t :=
  set_Path (string_view.str Path) x.
Definition SetSlotIndex (SlotIndex : Z) (x : t) : t :=
  {| m_ID := m_ID x; m_Name := m_Name x; m_Path := m_Path x;
     m_SlotIndex := SlotIndex; m_TextureTarget := m_TextureTarget x |}.
Definition set_TextureTarget (T : TextureTarget) (x : t) : t :=
  {| m_ID := m_ID x; m_Name := m_Name x; m_Path := m_Path x;
     m_SlotIndex := m_SlotIndex x; m_TextureTarget := Some T |}.

(** Texture::Activate *)
Definition Activate (x : t) (w : World) : World :=
  call [glActiveTexture (m_SlotIndex x);
        glBindTexture (m_TextureTarget x) (m_ID x)] w.

(** Texture::Cleanup *)
Definition Cleanup (x : t) (w : World) : World := call [glDeleteTextures (m_ID x)] w.

(** glGenTextures(1, &m_ID) *)
Definition GenTexture (x : t) (w : World) : t * World :=
  (SetID (next_texture w) x,
   {| next_texture := next_texture w + 1;
      calls := calls w ++ [glGenTextures (next_texture w)] |}).

(** Texture::LoadTextureFromFile: stb_image is given [Path.data()]. *)
Definition LoadTextureFromFile (Path : string_view.t) (Target : ImageTarget) (w : World)
  : bool * World :=
  match stbi_image (string_view.data Path) with
  | Some Data =>
    let Format := if ChannelNr Data =? 3 then GL_RGB else GL_RGBA in
    (true, call [stbi_load (string_view.data Path);
                 glTexImage2D Target Format (Width Data) (Height Data)] w)
  | None => (false, call [stbi_load (string_view.data Path)] w)
  end.

(** Texture::HandleTextureLoadingFailure *)
Definition HandleTextureLoadingFailure (x : t) (w : World) : World :=
  call [cerr ("Failed to load texture at path: " ++ m_Path x);
        glBindTexture (Some GL_TEXTURE_2D) 0] w.

(** Texture::SetupTextureParameters *)
Definition SetupTextureParameters (WrapS WrapT MinFilter MagFilter : Z) (w : World)
  : World :=
  call [glTexParameteri GL_TEXTURE_2D GL_TEXTURE_WRAP_S WrapS;
        glTexParameteri GL_TEXTURE_2D GL_TEXTURE_WRAP_T WrapT;
        glTexParameteri GL_TEXTURE_2D GL_TEXTURE_MIN_FILTER MinFilter;
        glTexParameteri GL_TEXTURE_2D GL_TEXTURE_MAG_FILTER MagFilter] w.

(** Texture::SetupCubeMapParameters *)
Definition SetupCubeMapParameters (MinFilter MagFilter : Z) (w : World) : World :=
  call [glTexParameteri GL_TEXTURE_CUBE_MAP GL_TEXTURE_MIN_FILTER MinFilter;
        glTexParameteri GL_TEXTURE_CUBE_MAP GL_TEXTURE_MAG_FILTER MagFilter;
        glTexParameteri GL_TEXTURE_CUBE_MAP GL_TEXTURE_WRAP_S GL_CLAMP_TO_EDGE;
        glTexParameteri GL_TEXTURE_CUBE_MAP GL_TEXTURE_WRAP_T GL_CLAMP_TO_EDGE;
        glTexParameteri GL_TEXTURE_CUBE_MAP GL_TEXTURE_WRAP_R GL_CLAMP_TO_EDGE] w.

(** Texture::LoadTexture: the returned bool, the texture and the
    context as the call leaves them. *)
Definition LoadTexture (Path : string_view.t) (WrapS WrapT MinFilter MagFilter : Z)
    (FlipVertical : bool) (x : t) (w : World) : bool * (t * World) :=
  let x := set_Path (string_view.str Path) (set_TextureTarget GL_TEXTURE_2D x) in
  let w := call [stbi_set_flip_vertically_on_load FlipVertical] w in
  let '(x, w) := GenTexture x w in
  let w := call [glBindTexture (Some GL_TEXTURE_2D) (m_ID x)] w in
  let '(loaded, w) := LoadTextureFromFile Path Image2D w in
  if negb loaded then (false, (x, HandleTextureLoadingFailure x w))
  else
    let w := SetupTextureParameters WrapS WrapT MinFilter MagFilter w in
    (true, (x, call [glGenerateMipmap GL_TEXTURE_2D;
                     glBindTexture (Some GL_TEXTURE_2D) 0] w)).

(** The loop of [LoadCubeMap] from face [i] on. *)
Fixpoint LoadFaces (Faces : list string) (i : Z) (x : t) (w : World)
  : bool * World :=
  match Faces with
  | [] => (true, w)
  | Path :: Faces' =>
    let '(loaded, w) :=
      LoadTextureFromFile (string_view.of_string Path) (CubeMapFace i) w in
    if negb loaded then (false, HandleTextureLoadingFailure x w)
    else LoadFaces Faces' (i + 1) x w
  end.

(** Texture::LoadCubeMap *)
Definition LoadCubeMap (PathToFaces : list string) (MinFilter MagFilter : Z)
    (FlipVertical : bool) : Exec (t * World) bool :=
  fun '(x, w) =>
    if negb (Z.of_nat (length PathToFaces) =? 6) then
      match Log.Error (fun cs '(x, w) => (x, call cs w))
                      ("CubeMap loading failed: Expected 6 faces, but received "
                       ++ to_string (Z.of_nat (length PathToFaces)) ++ ".")
                      true (x, w) with
      | Raise f s => Raise f s
      | Ok _ s => Ok false s
      end
    else
      let x := set_TextureTarget GL_TEXTURE_CUBE_MAP
                 (set_Path (default "" (head PathToFaces)) x) in
      let w := call [stbi_set_flip_vertically_on_load FlipVertical] w in
      let '(x, w) := GenTexture x w in
      let w := call [glBindTexture (Some GL_TEXTURE_CUBE_MAP) (m_ID x)] w in
      let '(loaded, w) := LoadFaces PathToFaces 0 x w in
      if negb loaded then Ok false (x, w)
      else Ok true (x, SetupCubeMapParameters MinFilter MagFilter w).

End WithPlatform.
End Texture.

(** ** Material.cpp *)

(** The Texture objects a program holds, by address, and the OpenGL
    context. A [Texture*] is [option] of an address. *)
Record Heap {P : Platform} : Type := mkHeap {
  textures : gmap nat Texture.t;
  gl : World;
}.

Module Material.
Section WithPlatform.
Context {P : Platform} {U : UnorderedMap}.
Local Open Scope exec_scope.

Record t : Type := mk {
  m_ShaderProgram : option Z;               (* Shader*: the program it holds *)
  m_Textures : gmap string (option nat);    (* unordered_map<string, Texture*> *)
  m_SceneObject : option nat;               (* SceneObject* *)
}.

(** Material::Material(Shader* Shader) *)
Definition new (Shader : option Z) : t :=
  {| m_ShaderProgram := Shader; m_Textures := ∅; m_SceneObject := None |}.

Definition State : Type := t * Heap.

Definition set_Textures (m : gmap string (option nat)) (x : t) : t :=
  {| m_ShaderProgram := m_ShaderProgram x; m_Textures := m;
     m_SceneObject := m_SceneObject x |}.

(** Material::SetSceneObject *)
Definition SetSceneObject (SceneObject : option nat) (x : t) : t :=
  {| m_ShaderProgram := m_ShaderProgram x; m_Textures := m_Textures x;
     m_SceneObject := SceneObject |}.

Definition GetShader (x : t) : option Z := m_ShaderProgram x.
Definition GetSceneObject (x : t) : option nat := m_SceneObject x.

(** Texture-> for writing *)
Definition update_texture (a : nat) (f : Texture.t -> Texture.t) : Exec State unit :=
  fun '(x, h) =>
    match textures h !! a with
    | Some tx => Ok tt (x, {| textures := <[a := f tx]> (textures h); gl := gl h |})
    | None => Raise (dangling a) (x, h)
    end.

(** The streams of the context a material works in. *)
Definition write (cs : list Call) (s : State) : State :=
  (s.1, {| textures := textures s.2; gl := call cs (gl s.2) |}).

(** Material::SetTexture: the key is [TextureName.data()]. *)
Definition SetTexture (TextureName : string_view.t) (Texture : option nat)
  : Exec State unit :=
  let* _ := Log.Assert write (bool_decide (is_Some Texture))
                       "Texture initialized was not valid..." in
  match Texture with
  | Some a =>
    let* '(x, _) := get in
    let* _ := update_texture a
                (Texture.SetSlotIndex (to_int8 (Z.of_nat (size (m_Textures x))))) in
    fun '(x, h) =>
      Ok tt (set_Textures (<[string_view.data TextureName := Texture]> (m_Textures x)) x,
             h)
  | None => pure tt          (* not reached: the assertion has thrown *)
  end.

(** Material::GetTexture: the key looked up is [TextureName.data()],
    the name in the message is [std::string(TextureName)]. *)
Definition GetTexture (TextureName : string_view.t) : Exec State (option nat) :=
  let* '(x, _) := get in
  match m_Textures x !! string_view.data TextureName with
  | Some Texture => pure Texture
  | None =>
    let* _ := Log.Error write
                ("Failed to retrieve texture: " ++ dquote
                 ++ string_view.str TextureName ++ dquote
                 ++ ". Ensure the texture name is correct and matches the expected value.")
                true in
    pure None
  end.

(** One step of the loop of [ActivateTextures]. *)
Definition ActivateTexture (entry : string * option nat) : Exec State unit :=
  fun '(x, h) =>
    match entry.2 with
    | Some a =>
      match textures h !! a with
      | Some tx => Ok tt (x, {| textures := textures h;
                                gl := Texture.Activate tx (gl h) |})
      | None => Raise (dangling a) (x, h)
      end
    | None =>
      Ok tt (x, {| textures := textures h;
                   gl := call [cout ("Texture with name '" ++ entry.1
                                     ++ "' is null or uninitialized. Skipping activation.")]
                              (gl h) |})
    end.

(** Material::ActivateTextures: the entries of the unordered_map, in
    the order its iteration yields them. *)
Definition ActivateTextures : Exec State unit :=
  let* '(x, _) := get in
  for_all ActivateTexture (iteration (m_Textures x)).

(** Material::ApplyUniforms, of the base class. *)
Definition ApplyUniforms : Exec State unit := pure tt.

(** Material::Activate *)
Definition Activate : Exec State unit :=
  let* '(x, _) := get in
  match m_ShaderProgram x with
  | None =>
    Log.Error write
      "Shader program is null or uninitialized. Ensure a valid shader program is assigned to this material before activation."
      true
  | Some program =>
    let* _ := (fun '(x, h) =>
                 Ok tt (x, {| textures := textures h;
                              gl := call [glUseProgram program] (gl h) |})) in
    let* _ := ActivateTextures in
    ApplyUniforms
  end.

End WithPlatform.
End Material.

Section TextureVocabulary.
Context {P : Platform} {U : UnorderedMap}.

(** The faces at the head of a list that stb_image can load. *)
Fixpoint loaded_prefix (Faces : list string) : list string :=
  match Faces with
  | [] => []
  | Path :: Faces' =>
    match stbi_image Path with
    | Some _ => Path :: loaded_prefix Faces'
    | None => []
    end
  end.

(** Projections of a list of calls. *)
Definition image_targets (cs : list Call) : list ImageTarget :=
  omap (fun c => match c with glTexImage2D T _ _ _ => Some T | _ => None end) cs.

Definition files_read (cs : list Call) : list string :=
  omap (fun c => match c with stbi_load p => Some p | _ => None end) cs.

Definition parameters_set (cs : list Call) : list (TextureTarget * TexParameter * Z) :=
  omap (fun c => match c with
                 | glTexParameteri T p v => Some (T, p, v)
                 | _ => None
                 end) cs.

(** A run of calls of [Material::SetTexture], each with the view it is
    given and the address of a texture. *)
Definition SetTextures (binds : list (string_view.t * nat)) : Exec Material.State unit :=
  for_all (fun b : string_view.t * nat => Material.SetTexture b.1 (Some b.2)) binds.

(** The key a call of SetTexture writes. *)
Definition key_of (b : string_view.t * nat) : string := string_view.data b.1.

(** The texture the last call made for a key has bound. *)
Definition last_bound (Key : string) (binds : list (string_view.t * nat))
  : option nat :=
  snd <$> last (filter (fun b : string_view.t * nat => key_of b = Key) binds).

(** What [Texture::Activate] sends for the texture at an address. *)
Definition activation (h : Heap) (entry : string * option nat) : list Call :=
  match entry.2 with
  | Some a =>
    match textures h !! a with
    | Some tx => [glActiveTexture (Texture.m_SlotIndex tx);
                  glBindTexture (Texture.m_TextureTarget tx) (Texture.m_ID tx)]
    | None => []
    end
  | None => []
  end.

End TextureVocabulary.

(** * Input *)

(** ** InputManager.cpp *)

Module InputManager.
Section WithGLFW.
(** glfwGetKeyName(Key, 0), as a std::string *)
Context {U : UnorderedMap} (glfwGetKeyName : Z -> string).
Local Open Scope exec_scope.

(** glfw3.h: GLFW_KEY_LAST is GLFW_KEY_MENU *)
Definition GLFW_KEY_LAST : Z := 348.

Inductive KeyEventType : Set := OnPressed | OnTriggered | OnReleased.

(** A std::function<void()>: [None] is the empty function, a callable
    is named by a number. *)
Definition Callback : Type := option nat.

Record t : Type := mk {
  m_CurrentKeyStates : gmap Z bool;
  m_PreviousKeyStates : gmap Z bool;
  m_OnPressedCallbacks : gmap Z Callback;
  m_OnTriggeredCallbacks : gmap Z Callback;
  m_OnReleasedCallbacks : gmap Z Callback;
}.

Definition new : t := mk ∅ ∅ ∅ ∅ ∅.

(** What BaseWindow gives to the input manager. *)
Record BaseWindow : Set := mkWindow { m_WindowFocused : bool }.
Definition IsFocused (W : BaseWindow) : bool := m_WindowFocused W.

(** What the manager does to the outside: the callables it invokes,
    and the GLFW calls of FinalizeInput. What a callable does when it
    runs is not part of the manager: it is taken not to call back into
    it. *)
Inductive InputEvent : Set :=
| Invoke (callback : nat)
| glfwSwapBuffers
| glfwPollEvents.

Record State : Type := mkState { self : t; events : list InputEvent }.

Definition set_Current (m : gmap Z bool) (x : t) : t :=
  mk m (m_PreviousKeyStates x) (m_OnPressedCallbacks x) (m_OnTriggeredCallbacks x)
     (m_OnReleasedCallbacks x).
Definition set_Previous (m : gmap Z bool) (x : t) : t :=
  mk (m_CurrentKeyStates x) m (m_OnPressedCallbacks x) (m_OnTriggeredCallbacks x)
     (m_OnReleasedCallbacks x).

(** unordered_map::operator[]: a key that is not there is inserted with
    the value false. *)
Definition subscript (Key : Z) (m : gmap Z bool) : bool * gmap Z bool :=
  match m !! Key with
  | Some v => (v, m)
  | None => (false, <[Key := false]> m)
  end.

(** InputManager::RegisterKeyEvent: the callable is wrapped in a
    lambda, which is what the map holds. *)
Definition RegisterKeyEvent (Key : Z) (KeyType : KeyEventType) (callback : nat)
    (x : t) : t :=
  match KeyType with
  | OnPressed =>
    mk (m_CurrentKeyStates x) (m_PreviousKeyStates x)
       (<[Key := Some callback]> (m_OnPressedCallbacks x))
       (m_OnTriggeredCallbacks x) (m_OnReleasedCallbacks x)
  | OnTriggered =>
    mk (m_CurrentKeyStates x) (m_PreviousKeyStates x) (m_OnPressedCallbacks x)
       (<[Key := Some callback]> (m_OnTriggeredCallbacks x)) (m_OnReleasedCallbacks x)
  | OnReleased =>
    mk (m_CurrentKeyStates x) (m_PreviousKeyStates x) (m_OnPressedCallbacks x)
       (m_OnTriggeredCallbacks x) (<[Key := Some callback]> (m_OnReleasedCallbacks x))
  end.

(** InputManager::IsKeyPressed; [None] is the std::out_of_range that
    unordered_map::at throws. *)
Definition IsKeyPressed (Key : Z) (x : t) : option bool :=
  match m_CurrentKeyStates x !! Key with
  | Some second =>
    if (second : bool) then negb <$> (m_PreviousKeyStates x !! Key) else Some false
  | None => Some false
  end.

Definition IsKeyTriggered (Key : Z) (x : t) : bool :=
  match m_CurrentKeyStates x !! Key with
  | Some second => second
  | None => false
  end.

Definition IsKeyReleased (Key : Z) (x : t) : option bool :=
  match m_CurrentKeyStates x !! Key with
  | Some second =>
    if negb second then m_PreviousKeyStates x !! Key else Some false
  | None => Some false
  end.

(** The body of the loop of [UpdateKeyState]; [IsPressed] is
    glfwGetKey(..., Key) == GLFW_PRESS. *)
Definition UpdateKey (IsPressed : bool) (x : t) (Key : Z) : t :=
  let '(previous, m) := subscript Key (m_PreviousKeyStates x) in
  let x := set_Previous m x in
  if IsPressed then
    if negb previous then set_Current (<[Key := true]> (m_CurrentKeyStates x)) x
    else x
  else
    if previous then set_Current (<[Key := false]> (m_CurrentKeyStates x)) x
    else x.

(** InputManager::UpdateKeyState *)
Definition UpdateKeyState (glfwGetKey : Z -> bool) (x : t) : t :=
  let x := set_Previous (m_CurrentKeyStates x) x in
  fold_left (fun x Key => UpdateKey (glfwGetKey Key) x Key)
            (seqZ 0 (GLFW_KEY_LAST + 1)) x.

(** InputManager::InvokeCallback; the message is built from
    [EventType.data()]. *)
Definition InvokeCallback (Callback : Callback) (Key : Z) (EventType : string_view.t)
  : Exec State unit :=
  match Callback with
  | Some callback =>
    fun s => Ok tt {| self := self s; events := events s ++ [Invoke callback] |}
  | None =>
    Log_Error ("Callback function for key " ++ dquote ++ glfwGetKeyName Key ++ dquote
               ++ " in the " ++ dquote ++ string_view.data EventType ++ dquote
               ++ " event was not valid.") true
  end.

(** m_CurrentKeyStates[Key] and m_PreviousKeyStates[Key], on the state *)
Definition Current (Key : Z) : Exec State bool :=
  fun s =>
    let '(v, m) := subscript Key (m_CurrentKeyStates (self s)) in
    Ok v {| self := set_Current m (self s); events := events s |}.
Definition Previous (Key : Z) : Exec State bool :=
  fun s =>
    let '(v, m) := subscript Key (m_PreviousKeyStates (self s)) in
    Ok v {| self := set_Previous m (self s); events := events s |}.

(** The bodies of the three loops over the callbacks; [&&] evaluates
    its right operand only when the left one is true. *)
Definition PressedEvent (entry : Z * Callback) : Exec State unit :=
  let* c := Current entry.1 in
  if c then
    let* p := Previous entry.1 in
    if negb p then InvokeCallback entry.2 entry.1 (string_view.of_string "pressed") else pure tt
  else pure tt.

Definition TriggeredEvent (entry : Z * Callback) : Exec State unit :=
  let* c := Current entry.1 in
  if c then InvokeCallback entry.2 entry.1 (string_view.of_string "triggered") else pure tt.

Definition ReleasedEvent (entry : Z * Callback) : Exec State unit :=
  let* c := Current entry.1 in
  if negb c then
    let* p := Previous entry.1 in
    if p then InvokeCallback entry.2 entry.1 (string_view.of_string "released") else pure tt
  else pure tt.

(** The three loops, each over the entries of an unordered_map in the
    order its iteration yields them. *)
Definition ProcessPressedEvents : Exec State unit :=
  let* s := get in
  for_all PressedEvent (iteration (m_OnPressedCallbacks (self s))).

Definition ProcessTriggeredEvents : Exec State unit :=
  let* s := get in
  for_all TriggeredEvent (iteration (m_OnTriggeredCallbacks (self s))).

Definition ProcessReleasedEvents : Exec State unit :=
  let* s := get in
  for_all ReleasedEvent (iteration (m_OnReleasedCallbacks (self s))).

(** InputManager::ProcessRegisteredEvents *)
Definition ProcessRegisteredEvents : Exec State unit :=
  let* _ := ProcessPressedEvents in
  let* _ := ProcessTriggeredEvents in
  ProcessReleasedEvents.

(** InputManager::OnProcessInput, of the base class. *)
Definition OnProcessInput : Exec State unit := pure tt.

(** InputManager::ProcessInput; [Window] is what
    SystemManager<BaseWindow>::Get() returns and [glfwGetKey] what GLFW
    reports for the keys at this moment. *)
Definition ProcessInput (Window : option BaseWindow) (glfwGetKey : Z -> bool)
  : Exec State unit :=
  match Window with
  | Some W =>
    if IsFocused W then
      let* _ := (fun s => Ok tt {| self := UpdateKeyState glfwGetKey (self s);
                                   events := events s |}) in
      let* _ := OnProcessInput in
      ProcessRegisteredEvents
    else pure tt
  | None =>
    Log_Error "Failed to retrieve the Window class when attempting to get the window's focus state."
              true
  end.

(** InputManager::FinalizeInput *)
Definition FinalizeInput (Window : option BaseWindow) : Exec State unit :=
  match Window with
  | Some W =>
    fun s => Ok tt {| self := self s;
                      events := events s ++ [glfwSwapBuffers; glfwPollEvents] |}
  | None =>
    Log_Error "Failed to retrieve the Window class when attempting to swap buffers and poll events."
              true
  end.

End WithGLFW.
End InputManager.

Section InputVocabulary.
Context {U : UnorderedMap}.
Import InputManager.

(** The keys that GLFW is asked about. *)
Definition polled (Key : Z) : bool := (0 <=? Key) && (Key <=? GLFW_KEY_LAST).

(** A key state read without inserting: a key that is not in the map
    counts as up. *)
Definition held (m : gmap Z bool) (Key : Z) : bool := default false (m !! Key).

(** The callables of the entries whose key satisfies a condition, in
    the order in which the iteration of the map yields them. *)
Definition fired (cond : Z -> bool) (callbacks : gmap Z Callback) : list InputEvent :=
  omap (fun e : Z * Callback => if cond e.1 then Invoke <$> e.2 else None)
       (iteration callbacks).

(** Every callback that is registered can be called. *)
Definition callable (x : t) : Prop :=
  (forall Key cb, m_OnPressedCallbacks x !! Key = Some cb -> is_Some cb)
  /\ (forall Key cb, m_OnTriggeredCallbacks x !! Key = Some cb -> is_Some cb)
  /\ (forall Key cb, m_OnReleasedCallbacks x !! Key = Some cb -> is_Some cb).

(** The life of an input manager: registrations and frames. *)
Inductive InputOp : Type :=
| Register (Key : Z) (KeyType : KeyEventType) (callback : nat)
| Frame (Window : option BaseWindow) (glfwGetKey : Z -> bool).

Definition input_step (glfwGetKeyName : Z -> string) (op : InputOp)
  : Exec State unit :=
  match op with
  | Register Key KeyType callback =>
    fun s => Ok tt {| self := RegisterKeyEvent Key KeyType callback (self s);
                      events := events s |}
  | Frame Window glfwGetKey => ProcessInput glfwGetKeyName Window glfwGetKey
  end.

(** What the key states are after the body of the loop. *)
Definition next_state (IsPressed previous : bool) (current : option bool)
  : option bool :=
  if IsPressed && negb previous then Some true
  else if negb IsPressed && previous then Some false
  else current.

(** The key states as the loops over the callbacks see them. *)
Definition same_keys (x x' : t) : Prop :=
  (forall k, held (m_CurrentKeyStates x') k = held (m_CurrentKeyStates x) k)
  /\ (forall k, held (m_PreviousKeyStates x') k = held (m_PreviousKeyStates x) k)
  /\ m_OnPressedCallbacks x' = m_OnPressedCallbacks x
  /\ m_OnTriggeredCallbacks x' = m_OnTriggeredCallbacks x
  /\ m_OnReleasedCallbacks x' = m_OnReleasedCallbacks x.

(** One loop over the callbacks: [body] fires the callback of an entry
    exactly when [cond] holds of its key. *)
Definition fires (body : Z * Callback -> Exec State unit)
    (cond : t -> Z -> bool) : Prop :=
  forall (e : Z * Callback) (s : State),
    is_Some e.2 ->
    exists x',
      body e s = Ok tt (mkState x' (events s
                                    ++ if cond (self s) e.1
                                       then option_list (Invoke <$> e.2) else []))
      /\ same_keys (self s) x'.

Definition pressed_now (x : t) (k : Z) : bool :=
  held (m_CurrentKeyStates x) k && negb (held (m_PreviousKeyStates x) k).
Definition down_now (x : t) (k : Z) : bool := held (m_CurrentKeyStates x) k.
Definition released_now (x : t) (k : Z) : bool :=
  negb (held (m_CurrentKeyStates x) k) && held (m_PreviousKeyStates x) k.

End InputVocabulary.

(** * Asset paths *)

(** ** std::string *)

(** std::string::find(char): the position of the first occurrence;
    [None] is npos. *)
Fixpoint string_find (c : ascii) (s : string) : option nat :=
  match s with
  | EmptyString => None
  | String a s' => if Ascii.eqb a c then Some 0%nat else S <$> string_find c s'
  end.

(** std::string::find_last_of(char) *)
Fixpoint string_find_last_of (c : ascii) (s : string) : option nat :=
  match s with
  | EmptyString => None
  | String a s' =>
    match string_find_last_of c s' with
    | Some i => Some (S i)
    | None => if Ascii.eqb a c then Some 0%nat else None
    end
  end.

(** substr(0, n) and substr(n), for n within the string *)
Fixpoint string_take (n : nat) (s : string) : string :=
  match n, s with
  | S n', String a s' => String a (string_take n' s')
  | _, _ => EmptyString
  end.

Fixpoint string_drop (n : nat) (s : string) : string :=
  match n, s with
  | S n', String _ s' => string_drop n' s'
  | _, _ => s
  end.

(** ** AssetPathManager.cpp *)

Module AssetPathManager.
Section WithPlatform.
Context {P : Platform}.
Local Open Scope exec_scope.

Record t : Type := mk {
  m_ConfigMap : gmap string string;
  m_ConfigPathPath : string;              (* std::filesystem::path *)
}.

(** The members before the body of the constructor runs. *)
Definition empty : t := {| m_ConfigMap := ∅; m_ConfigPathPath := "" |}.

(** AssetPathManager::ResolvePath. [Value] is the view of a whole
    std::string, the only way the function is called, and only the
    characters of the view are read. *)
Definition ResolvePath (Value : string) (x : t) : string :=
  match string_find "/" Value with
  | Some FirstSlashPos =>
    let BaseKey := string_take FirstSlashPos Value in
    match m_ConfigMap x !! BaseKey with
    | Some second => second ++ string_drop FirstSlashPos Value
    | None => Value
    end
  | None => Value
  end.

(** AssetPathManager::ParseLine *)
Definition ParseLine (Line : string) : Exec t unit :=
  match string_find "=" Line with
  | None =>
    Log_Error ("Malformed line detected (missing '='): " ++ Line
               ++ ". Ensure the format is key=value.") true
  | Some Index =>
    let* x := get in
    let Key := string_take Index Line in
    let Value := ResolvePath (string_drop (Index + 1) Line) x in
    let ResolvedPath := path_append (m_ConfigPathPath x) Value in
    if negb (fs_exists ResolvedPath) then
      Log_Error ("Path resolution failed for key '" ++ Key
                 ++ "'. Resolved path does not exist: " ++ ResolvedPath) true
    else
      put {| m_ConfigMap := <[Key := ResolvedPath]> (m_ConfigMap x);
             m_ConfigPathPath := m_ConfigPathPath x |}
  end.

(** The test on a line in the loop of LoadConfig:
    !Line.empty() && Line[0] != '[' *)
Definition is_entry (Line : string) : bool :=
  match Line with
  | EmptyString => false
  | String a _ => negb (Ascii.eqb a "[")
  end.

(** AssetPathManager::LoadConfig: the file opened is the one named by
    [ConfigPath.data()]; the message and the parent path are made from
    the characters of the view. *)
Definition LoadConfig (ConfigPath : string_view.t) : Exec t unit :=
  match read_lines (string_view.data ConfigPath) with
  | None =>
    Log_Error ("Failed to open configuration file: " ++ string_view.str ConfigPath
               ++ ". Please verify the path.") true
  | Some Lines =>
    let* x := get in
    let* _ := put {| m_ConfigMap := m_ConfigMap x;
                     m_ConfigPathPath := parent_path (string_view.str ConfigPath) |} in
    for_all (fun Line => if is_entry Line then ParseLine Line else pure tt) Lines
  end.

(** AssetPathManager::GetPath: the key looked up is [Key.data()], the
    key in the message is [std::string(Key)]. *)
Definition GetPath (Key : string_view.t) : Exec t string :=
  let* x := get in
  match m_ConfigMap x !! string_view.data Key with
  | Some second => pure second
  | None =>
    let* _ := Log_Error ("Path retrieval failed. No entry found for key: '"
                         ++ string_view.str Key ++ "'.") true in
    pure ""
  end.

(** AssetPathManager::AssetPathManager; the registration with the
    SystemManager is not part of this state. *)
Definition new (ConfigPath : string_view.t) : Outcome t unit :=
  LoadConfig ConfigPath empty.

End WithPlatform.
End AssetPathManager.

Section AssetVocabulary.
Context {P : Platform}.

(** A character does not occur in a string. *)
Fixpoint free_of (c : ascii) (s : string) : Prop :=
  match s with
  | EmptyString => True
  | String a s' => a <> c /\ free_of c s'
  end.

(** Every path the manager holds exists. *)
Definition paths_exist (x : AssetPathManager.t) : Prop :=
  forall Key Path, AssetPathManager.m_ConfigMap x !! Key = Some Path ->
                   fs_exists Path = true.

(** The object an operation leaves behind, whether it returned or threw. *)
Definition state_of {S A} (r : Outcome S A) : S :=
  match r with Ok _ s => s | Raise _ s => s end.

End AssetVocabulary.

(** * Shaders *)

(** ** Shader.cpp: the uniforms *)

Module Shader.
Section WithGL.
Context {G : GLM}.
(** What glGetUniformLocation answers for a program and a name: fixed
    once the program is linked; -1 for a name that is not an active
    uniform. *)
Context (uniform_location : Z -> string -> Z).
Local Open Scope exec_scope.

Inductive GLCall : Type :=
| glGetUniformLocation (program : Z) (Name : string)
| glUniform1i (Location : Z) (Value : Z)
| glUniform1ui (Location : Z) (Value : Z)
| glUniform1f (Location : Z) (Value : f32)
| glUniform3fv (Location : Z) (Value : vec3 f32)
| glUniformMatrix4fv (Location : Z) (Value : mat4).

Record t : Type := mk {
  m_ID : Z;
  m_UniformLocationCache : gmap string Z;     (* mutable *)
}.

(** The shader and the OpenGL calls made so far. *)
Definition State : Type := t * list GLCall.

Definition emit (c : GLCall) : Exec State unit :=
  fun s => Ok tt (s.1, s.2 ++ [c]).

(** A program that glCreateProgram named [ID], before any uniform is set. *)
Definition new (ID : Z) : t := {| m_ID := ID; m_UniformLocationCache := ∅ |}.

Definition GetID (x : t) : Z := m_ID x.

(** Shader::GetUniformLocation: the key of the cache and the name
    OpenGL is asked about are both [Name.data()]. *)
Definition GetUniformLocation (Name : string_view.t) : Exec State Z :=
  let* s := get in
  match m_UniformLocationCache s.1 !! string_view.data Name with
  | Some second => pure second
  | None =>
    let UniformLocation := uniform_location (m_ID s.1) (string_view.data Name) in
    let* _ := emit (glGetUniformLocation (m_ID s.1) (string_view.data Name)) in
    let* s := get in
    let* _ := put ({| m_ID := m_ID s.1;
                      m_UniformLocationCache :=
                        <[string_view.data Name := UniformLocation]>
                          (m_UniformLocationCache s.1) |},
                   s.2) in
    pure UniformLocation
  end.

(** Shader::SetBool *)
Definition SetBool (Name : string_view.t) (Value : bool) : Exec State unit :=
  let* UniformLocation := GetUniformLocation Name in
  if negb (UniformLocation =? -1)
  then emit (glUniform1i UniformLocation (Z.b2z Value))
  else pure tt.

(** Shader::SetInt *)
Definition SetInt (Name : string_view.t) (Value : Z) : Exec State unit :=
  let* UniformLocation := GetUniformLocation Name in
  if negb (UniformLocation =? -1)
  then emit (glUniform1i UniformLocation Value)
  else pure tt.

(** Shader::SetUInt *)
Definition SetUInt (Name : string_view.t) (Value : Z) : Exec State unit :=
  let* UniformLocation := GetUniformLocation Name in
  if negb (UniformLocation =? -1)
  then emit (glUniform1ui UniformLocation Value)
  else pure tt.

(** Shader::SetFloat *)
Definition SetFloat (Name : string_view.t) (Value : f32) : Exec State unit :=
  let* UniformLocation := GetUniformLocation Name in
  if negb (UniformLocation =? -1)
  then emit (glUniform1f UniformLocation Value)
  else pure tt.

(** Shader::SetVec3(std::string_view, const glm::vec3&) *)
Definition SetVec3 (Name : string_view.t) (Value : vec3 f32) : Exec State unit :=
  let* UniformLocation := GetUniformLocation Name in
  if negb (UniformLocation =? -1)
  then emit (glUniform3fv UniformLocation Value)
  else pure tt.

(** Shader::SetVec3(std::string_view, float, float, float) *)
Definition SetVec3_xyz (Name : string_view.t) (X Y Z : f32) : Exec State unit :=
  SetVec3 Name (mkVec3 X Y Z).

(** Shader::SetMat4 *)
Definition SetMat4 (Name : string_view.t) (Value : mat4) : Exec State unit :=
  let* UniformLocation := GetUniformLocation Name in
  if negb (UniformLocation =? -1)
  then emit (glUniformMatrix4fv UniformLocation Value)
  else pure tt.

End WithGL.
End Shader.

Section ShaderVocabulary.
Context {G : GLM}.
Import Shader.

(** A call of one of the setters. *)
Inductive Setter : Type :=
| Bool_ (Name : string_view.t) (Value : bool)
| Int_ (Name : string_view.t) (Value : Z)
| UInt_ (Name : string_view.t) (Value : Z)
| Float_ (Name : string_view.t) (Value : f32)
| Vec3_ (Name : string_view.t) (Value : vec3 f32)
| Vec3_xyz (Name : string_view.t) (X Y Z : f32)
| Mat4_ (Name : string_view.t) (Value : mat4).

Definition run_setter (uniform_location : Z -> string -> Z) (c : Setter) : Exec State unit :=
  match c with
  | Bool_ Name Value => SetBool uniform_location Name Value
  | Int_ Name Value => SetInt uniform_location Name Value
  | UInt_ Name Value => SetUInt uniform_location Name Value
  | Float_ Name Value => SetFloat uniform_location Name Value
  | Vec3_ Name Value => SetVec3 uniform_location Name Value
  | Vec3_xyz Name X Y Z => SetVec3_xyz uniform_location Name X Y Z
  | Mat4_ Name Value => SetMat4 uniform_location Name Value
  end.

(** The name a setter asks for: the C string at the [data()] of the
    view it is given. *)
Definition setter_name (c : Setter) : string :=
  match c with
  | Bool_ Name _ | Int_ Name _ | UInt_ Name _ | Float_ Name _
  | Vec3_ Name _ | Vec3_xyz Name _ _ _ | Mat4_ Name _ => string_view.data Name
  end.

(** The glUniform call that writes the value of a setter to a location. *)
Definition uniform_write (Location : Z) (c : Setter) : GLCall :=
  match c with
  | Bool_ _ Value => glUniform1i Location (Z.b2z Value)
  | Int_ _ Value => glUniform1i Location Value
  | UInt_ _ Value => glUniform1ui Location Value
  | Float_ _ Value => glUniform1f Location Value
  | Vec3_ _ Value => glUniform3fv Location Value
  | Vec3_xyz _ X Y Z => glUniform3fv Location (mkVec3 X Y Z)
  | Mat4_ _ Value => glUniformMatrix4fv Location Value
  end.

(** The names a log asks OpenGL about, and the rest of the log. *)
Definition lookups (lg : list GLCall) : list string :=
  omap (fun c => match c with glGetUniformLocation _ Name => Some Name | _ => None end) lg.

Definition writes (lg : list GLCall) : list GLCall :=
  omap (fun c => match c with glGetUniformLocation _ _ => None | _ => Some c end) lg.

(** A call that writes a value. *)
Definition is_write (c : GLCall) : Prop :=
  match c with glGetUniformLocation _ _ => False | _ => True end.

(** The cache holds exactly the names that were looked up, each with
    the answer of OpenGL. *)
Definition cache_of_log (uniform_location : Z -> string -> Z) (x : t)
    (lg : list GLCall) : Prop :=
  forall Name,
    m_UniformLocationCache x !! Name =
      if bool_decide (Name ∈ lookups lg) then Some (uniform_location (m_ID x) Name)
      else None.

End ShaderVocabulary.

(** * Entities and components *)

(** ** Component.cpp *)

Module Component.

Record t : Type := mk {
  m_Owner : option nat;                  (* Entity* *)
}.

(** A component that std::make_unique has just made. *)
Definition new : t := {| m_Owner := None |}.

Definition SetOwner (Owner : option nat) (x : t) : t := {| m_Owner := Owner |}.
Definition GetOwner (x : t) : option nat := m_Owner x.

End Component.

(** ** Entity.h: the components of an entity *)

Module Entity.

(** The member the component functions work on: each
    std::unique_ptr<Component> is the address of the component it owns. *)
Record t : Type := mk {
  m_Components : gmap Z nat;
}.

(** The entity and the components that are alive, by address. *)
Record State : Type := mkState {
  self : t;
  heap : gmap nat Component.t;
}.

(** Entity::GetComponent, for the type whose typeid hash is [ID]. The
    statement [It->second.get();] is evaluated and dropped. *)
Definition GetComponent (ID : Z) (x : t) : option nat :=
  match m_Components x !! ID with
  | Some second => let _ := Some second in None
  | None => None
  end.

(** Entity::CreateComponent, called on the entity at address [this].
    [emplace] inserts nothing when the key is present, and the component
    just made dies with its unique_ptr. *)
Definition CreateComponent (this : nat) (ID : Z) (s : State) : option nat * State :=
  match GetComponent ID (self s) with
  | None =>
    let ComponentPtr := fresh (dom (heap s)) in
    let made := <[ComponentPtr := Component.SetOwner (Some this) Component.new]> (heap s) in
    match m_Components (self s) !! ID with
    | None =>
      (Some ComponentPtr,
       {| self := {| m_Components := <[ID := ComponentPtr]> (m_Components (self s)) |};
          heap := made |})
    | Some second =>
      (Some second, {| self := self s; heap := delete ComponentPtr made |})
    end
  | Some _ => (None, s)
  end.

(** Entity::RemoveComponent *)
Definition RemoveComponent (ID : Z) (s : State) : State :=
  match m_Components (self s) !! ID with
  | Some second =>
    {| self := {| m_Components := delete ID (m_Components (self s)) |};
       heap := delete second (heap s) |}
  | None => s
  end.

End Entity.

(** * Models *)

(** ** Model.h: the textures of a model and its material *)

Module Model.
Section WithGL.
Context {P : Platform} {G : GLM} {H : StdHash G}.
Context (uniform_location : Z -> string -> Z).
Local Open Scope exec_scope.

(** What setting up a material works on: the shader with its OpenGL
    calls, and the material with the textures of the meshes. A
    [Texture&] into the textures of a mesh is the address of the
    texture. *)
Record Setup : Type := mkSetup {
  shader : Shader.State;
  material : Material.State;
}.

Definition on_shader {A} (c : Exec Shader.State A) : Exec Setup A :=
  fun s => match c (shader s) with
           | Ok a sh => Ok a {| shader := sh; material := material s |}
           | Raise f sh => Raise f {| shader := sh; material := material s |}
           end.

Definition on_material {A} (c : Exec Material.State A) : Exec Setup A :=
  fun s => match c (material s) with
           | Ok a m => Ok a {| shader := shader s; material := m |}
           | Raise f m => Raise f {| shader := shader s; material := m |}
           end.

(** Model::GetTextureNumber: the string it returns, and the two
    counters as it leaves them. [Name] is compared by its characters;
    it is the view of a whole std::string. *)
Definition GetTextureNumber (Name : string) (DiffuseNr SpecularNr : Z)
  : string * (Z * Z) :=
  if String.eqb Name "texture_diffuse"
  then (to_string DiffuseNr, (to_unsigned (DiffuseNr + 1), SpecularNr))
  else if String.eqb Name "texture_specular"
  then (to_string SpecularNr, (DiffuseNr, to_unsigned (SpecularNr + 1)))
  else ("0"%string, (DiffuseNr, SpecularNr)).

(** Model::BindTexture, on the texture at the address [Texture]; [Nr]
    holds DiffuseNr and SpecularNr. Both names are whole std::strings,
    handed over as views of them. *)
Definition BindTexture (Texture : nat) (Nr : Z * Z) : Exec Setup (Z * Z) :=
  let* s := get in
  match textures (material s).2 !! Texture with
  | None => throw (dangling Texture)
  | Some tx =>
    let* _ := on_material
                (fun '(x, h) => Ok tt (x, {| textures := textures h;
                                             gl := Texture.Activate tx (gl h) |})) in
    let '(Number, Nr) := GetTextureNumber (Texture.GetName tx) Nr.1 Nr.2 in
    let* _ := on_shader
                (Shader.SetInt uniform_location
                   (string_view.of_string ("material." ++ Texture.GetName tx ++ Number))
                   (Texture.GetSlotIndex tx)) in
    let* _ := on_material
                (Material.SetTexture
                   (string_view.of_string (Texture.GetName tx ++ Number))
                   (Some Texture)) in
    pure Nr
  end.

(** The inner loop of [BindTexturesToMaterial], over the textures of
    one mesh. *)
Fixpoint BindTexturesOfMesh (Textures : list nat) (Nr : Z * Z) : Exec Setup (Z * Z) :=
  match Textures with
  | [] => pure Nr
  | Texture :: Textures' =>
    let* Nr := BindTexture Texture Nr in
    BindTexturesOfMesh Textures' Nr
  end.

(** The outer loop, over the meshes. *)
Fixpoint BindTexturesOfMeshes (Meshes : list Mesh.BaseMesh) (Nr : Z * Z)
  : Exec Setup (Z * Z) :=
  match Meshes with
  | [] => pure Nr
  | Mesh :: Meshes' =>
    let* Nr := BindTexturesOfMesh (Mesh.m_Textures Mesh) Nr in
    BindTexturesOfMeshes Meshes' Nr
  end.

(** Model::BindTexturesToMaterial *)
Definition BindTexturesToMaterial (m_Meshes : list Mesh.BaseMesh) : Exec Setup unit :=
  let* _ := BindTexturesOfMeshes m_Meshes (1, 1) in
  pure tt.

End WithGL.
End Model.

Section ModelVocabulary.
Context {P : Platform} {G : GLM} {H : StdHash G}.

(** The textures of the meshes, in the order of the two loops. *)
Definition textures_of (Meshes : list Mesh.BaseMesh) : list nat :=
  concat (Mesh.m_Textures <$> Meshes).

(** The names under which [BindTexture] registers textures with the
    given type names, one after the other. *)
Fixpoint numbered (Names : list string) (Nr : Z * Z) : list string :=
  match Names with
  | [] => []
  | Name :: Names' =>
    let '(Number, Nr') := Model.GetTextureNumber Name Nr.1 Nr.2 in
    (Name ++ Number)%string :: numbered Names' Nr'
  end.

(** The location a shader uses for a name: the cached one, or else
    the one OpenGL answers. *)
Definition location_of (uniform_location : Z -> string -> Z) (x : Shader.t)
    (Name : string) : Z :=
  default (uniform_location (Shader.m_ID x) Name)
          (Shader.m_UniformLocationCache x !! Name).

(** What [BindTexture] sends for a texture registered under [name]:
    the sampler uniform, when the shader has it, and the texture unit
    and binding. *)
Definition sampler_write (uniform_location : Z -> string -> Z) (x : Shader.t)
    (e : string * Texture.t) : option Shader.GLCall :=
  let Location := location_of uniform_location x ("material." ++ e.1) in
  if Location =? -1 then None
  else Some (Shader.glUniform1i Location (Texture.m_SlotIndex e.2)).

Definition unit_binding (tx : Texture.t) : list Call :=
  [glActiveTexture (Texture.m_SlotIndex tx);
   glBindTexture (Texture.m_TextureTarget tx) (Texture.m_ID tx)].

End ModelVocabulary.

(** * Small instances *)

(** A small platform: every image but one loads, every path but the
    empty one exists. *)
Definition ToyPlatform : Platform :=
  {| stbi_image := fun p => if String.eqb p "missing.png" then None
                            else Some (mkImage 2 2 3);
     fs_exists := fun p => negb (String.eqb p "cfg/nowhere");
     path_append := fun a b => (a ++ "/" ++ b)%string;
     parent_path := fun _ => "cfg"%string;
     read_lines := fun p => if String.eqb p "cfg/paths.ini"
                            then Some ["[paths]"; "assets=assets";
                                       "models=assets/models"]%string
                            else None |}.

(** An unordered_map that yields its entries from the last key of the
    [gmap] to the first. *)
#[global] Instance ToyUnorderedMap : UnorderedMap :=
  {| iteration := fun K _ _ V m => reverse (map_to_list m);
     iteration_Permutation := fun K _ _ V m => reverse_Permutation (map_to_list m) |}.

(** Two calls of SetTexture: the first with a view of the first
    seven characters of the string diffuse_map, the second with the
    view of a whole string. *)
Definition toy_binds : list (string_view.t * nat) :=
  [(string_view.mk "diffuse" "diffuse_map", 0%nat);
   (string_view.of_string "specular", 1%nat)].

Definition toy_heap : @Heap ToyPlatform :=
  @mkHeap ToyPlatform
    (<[0%nat := Texture.new]> (<[1%nat := Texture.new]> ∅))
    (mkWorld 1 []).

Definition toy_input : InputManager.t :=
  InputManager.RegisterKeyEvent 66 InputManager.OnPressed 8%nat
    (InputManager.RegisterKeyEvent 65 InputManager.OnPressed 7%nat InputManager.new).

Definition toy_assets : AssetPathManager.t :=
  AssetPathManager.mk (<["assets"%string := "cfg/assets"%string]> ∅) "cfg".

(** A model of two meshes with one diffuse texture each, as
    Model::LoadNewTexture leaves them. *)
Definition toy_diffuse : Texture.t :=
  Texture.SetName (string_view.of_string "texture_diffuse") Texture.new.

Definition toy_model_heap : @Heap ToyPlatform :=
  @mkHeap ToyPlatform (<[0%nat := toy_diffuse]> (<[1%nat := toy_diffuse]> ∅))
    (mkWorld 1 []).

Definition toy_meshes : list (@Mesh.BaseMesh ToyGLM) :=
  [@Mesh.new ToyGLM ToyHash toy_triangle [0; 1; 2] [0%nat] true;
   @Mesh.new ToyGLM ToyHash toy_triangle [0; 1; 2] [1%nat] false].

(** * Properties *)

(** An event of a material is none of the events the projections of a
    log look for. *)
Ltac material_case e Hm :=
  destruct e; cbn in Hm; try contradiction; try reflexivity; try discriminate.

Lemma wrap64_small (z : Z) : 0 <= z < 2 ^ 64 -> wrap64 z = z.
Proof. intros Hz. unfold wrap64, SIZE_WIDTH. now apply Z.mod_small. Qed.

Lemma wrap64_range (z : Z) : 0 <= wrap64 z < 2 ^ 64.
Proof. unfold wrap64, SIZE_WIDTH. apply Z.mod_pos_bound. lia. Qed.

(** ** MatrixBuffer: growth *)

Section MatrixBufferFacts.
Context {G : GLM}.

Lemma Resize_count (n : Z) (b : MatrixBuffer.t) :
  0 <= n < 2 ^ 63 ->
  MatrixBuffer.m_ObjectCount (MatrixBuffer.Resize n b) =
    if n <=? MatrixBuffer.m_ObjectCount b then MatrixBuffer.m_ObjectCount b
    else 2 * n.
Proof.
  intros Hn. unfold MatrixBuffer.Resize.
  destruct (n <=? MatrixBuffer.m_ObjectCount b); [reflexivity|].
  cbn. rewrite wrap64_small by lia. lia.
Qed.

Lemma Resize_noop (n : Z) (b : MatrixBuffer.t) :
  n <= MatrixBuffer.m_ObjectCount b -> MatrixBuffer.Resize n b = b.
Proof.
  intros Hn. unfold MatrixBuffer.Resize.
  destruct (Z.leb_spec n (MatrixBuffer.m_ObjectCount b)); [reflexivity | lia].
Qed.

Lemma Resize_grows (n : Z) (b : MatrixBuffer.t) :
  0 <= n < 2 ^ 63 ->
  MatrixBuffer.m_ObjectCount b <= MatrixBuffer.m_ObjectCount (MatrixBuffer.Resize n b)
  /\ n <= MatrixBuffer.m_ObjectCount (MatrixBuffer.Resize n b).
Proof.
  intros Hn. rewrite Resize_count by assumption.
  destruct (Z.leb_spec n (MatrixBuffer.m_ObjectCount b)); lia.
Qed.

Lemma resized_app (l1 l2 : list Z) (b : MatrixBuffer.t) :
  resized (l1 ++ l2) b = resized l2 (resized l1 b).
Proof. unfold resized. apply fold_left_app. Qed.

Lemma resized_grows (ns : list Z) (b : MatrixBuffer.t) :
  Forall (fun n => 0 <= n < 2 ^ 63) ns ->
  MatrixBuffer.m_ObjectCount b <= MatrixBuffer.m_ObjectCount (resized ns b)
  /\ forall n, n ∈ ns -> n <= MatrixBuffer.m_ObjectCount (resized ns b).
Proof.
  intros Hns. revert b. induction Hns as [|n ns Hn Hns IH]; intros b.
  - split; [cbn; lia|]. intros n Hin. inversion Hin.
  - cbn. destruct (IH (MatrixBuffer.Resize n b)) as [IH1 IH2].
    destruct (Resize_grows n b Hn) as [R1 R2].
    split; [fold (resized ns (MatrixBuffer.Resize n b)); lia|].
    intros m Hin. apply elem_of_cons in Hin as [->|Hin].
    + fold (resized ns (MatrixBuffer.Resize n b)). lia.
    + now apply IH2.
Qed.
End MatrixBufferFacts.

(** ** The renderer's primitive steps *)

Section RendererSteps.
Context {G : GLM} {H : StdHash G} {MS : Materials}.
Import Renderer.

Lemma bind_Ok {A B} (c : M A) (k : A -> M B) (s s' : State) (a : A) :
  c s = Ok a s' -> bind c k s = k a s'.
Proof. intros E. unfold bind. now rewrite E. Qed.


Lemma bind_get_scene {B} (k : Scene -> M B) (s : State) :
  bind get_scene k s = k (scene s) s.
Proof. reflexivity. Qed.


Lemma EnsureBufferCapacity_run (n : Z) (s : State) :
  EnsureBufferCapacity n s =
    Ok tt {| m_MVPMatrixBuffer := MatrixBuffer.Resize n (m_MVPMatrixBuffer s);
             scene := scene s;
             log := log s ++ ensure_log (m_MVPMatrixBuffer s) n |}.
Proof.
  destruct s as [b sc lg]. unfold EnsureBufferCapacity, ensure_log, bind, get_buffer.
  cbn -[MatrixBuffer.Resize].
  destruct (negb (bool_decide (is_Some (MatrixBuffer.Get b)))
            || (MatrixBuffer.GetObjectCount b <? n)) eqn:E.
  - reflexivity.
  - apply orb_false_iff in E as [_ E]. apply Z.ltb_ge in E.
    unfold ret. rewrite Resize_noop by exact E. now rewrite app_nil_r.
Qed.

Lemma for_each_Ensure_run (ns : list Z) (s : State) :
  exists lg,
    for_each EnsureBufferCapacity ns s =
      Ok tt {| m_MVPMatrixBuffer := resized ns (m_MVPMatrixBuffer s);
               scene := scene s; log := log s ++ lg |}.
Proof.
  revert s. induction ns as [|n ns IH]; intros s.
  - exists []. destruct s. cbn. unfold ret. now rewrite app_nil_r.
  - cbn [for_each]. erewrite bind_Ok by apply EnsureBufferCapacity_run.
    destruct (IH {| m_MVPMatrixBuffer := MatrixBuffer.Resize n (m_MVPMatrixBuffer s);
                    scene := scene s;
                    log := log s ++ ensure_log (m_MVPMatrixBuffer s) n |})
      as [lg E].
    exists (ensure_log (m_MVPMatrixBuffer s) n ++ lg).
    rewrite E. cbn. now rewrite app_assoc.
Qed.

Lemma capacity_after_requests (sc : Scene) (ns : list Z) :
  capacity (final (for_each EnsureBufferCapacity ns (init sc))) =
    MatrixBuffer.m_ObjectCount (resized ns MatrixBuffer.new).
Proof.
  destruct (for_each_Ensure_run ns (init sc)) as [lg E]. rewrite E. reflexivity.
Qed.

Lemma buffer_after_requests (sc : Scene) (ns : list Z) :
  m_MVPMatrixBuffer (final (for_each EnsureBufferCapacity ns (init sc))) =
    resized ns MatrixBuffer.new.
Proof.
  destruct (for_each_Ensure_run ns (init sc)) as [lg E]. rewrite E. reflexivity.
Qed.

(** C3. Starting from the empty store of a new renderer, after the
    requests [ns] (each below 2^63, so that doubling does not wrap):
    every request returns; the capacity is at least every requested
    count, hence at least their maximum; each single request never
    lowers the capacity, leaves the whole buffer as it was when the
    count asked for is at most the capacity, and otherwise sets the
    capacity to exactly twice the count. *)
Theorem C3_EnsureBufferCapacity_sequence (sc : Scene) (ns : list Z) :
  Forall (fun n => 0 <= n < 2 ^ 63) ns ->
  let after (l : list Z) := final (for_each EnsureBufferCapacity l (init sc)) in
  (exists s', for_each EnsureBufferCapacity ns (init sc) = Ok tt s')
  /\ (forall n, n ∈ ns -> n <= capacity (after ns))
  /\ (forall pre n post, ns = pre ++ n :: post ->
        capacity (after pre) <= capacity (after (pre ++ [n]))
        /\ (n <= capacity (after pre) ->
              m_MVPMatrixBuffer (after (pre ++ [n])) = m_MVPMatrixBuffer (after pre))
        /\ (capacity (after pre) < n -> capacity (after (pre ++ [n])) = 2 * n)).
Proof.
  intros Hns after. subst after. cbv beta.
  split; [|split].
  - destruct (for_each_Ensure_run ns (init sc)) as [lg E]. eauto.
  - intros n Hin. rewrite capacity_after_requests.
    now apply (resized_grows ns MatrixBuffer.new Hns).
  - intros pre n post ->.
    apply Forall_app in Hns as [_ Hn]. apply Forall_cons in Hn as [Hn _].
    rewrite !capacity_after_requests, !buffer_after_requests, resized_app.
    cbn [resized fold_left].
    set (b := resized pre MatrixBuffer.new).
    fold (resized pre MatrixBuffer.new). fold b.
    split; [apply (Resize_grows n b Hn)|]. split.
    + intros Hle. now apply Resize_noop.
    + intros Hlt. rewrite Resize_count by exact Hn.
      destruct (Z.leb_spec n (MatrixBuffer.m_ObjectCount b)); [lia | reflexivity].
Qed.

End RendererSteps.

(** ** Transform: the cached model matrix *)

Section TransformFacts.
Context {G : GLM}.
Import Transform.

Lemma mutate_dirty (m : Mutator) (x : t) : m_Dirty (mutate m x) = true.
Proof. destruct m; reflexivity. Qed.

Lemma new_cache_valid : cache_valid new.
Proof. intros E. discriminate E. Qed.

Lemma mutate_cache_valid (m : Mutator) (x : t) : cache_valid (mutate m x).
Proof. intros E. rewrite mutate_dirty in E. discriminate E. Qed.

Lemma Recalculate_cache_valid (x : t) : cache_valid (RecalculateModelMatrix x).
Proof. intros _. reflexivity. Qed.

(** A query on a transform whose owner is attached to a scene with an
    active camera, spelled out. *)
Lemma query_attached (c : BaseCamera) (x : t) :
  ComputeModelViewProjection (attached c) x =
    if m_Dirty x
    then ([CallRecalculateModelMatrix; CallApplyCachedModelMatrix],
          Ok (ApplyCachedModelMatrix c (RecalculateModelMatrix x))
             (RecalculateModelMatrix x))
    else ([CallApplyCachedModelMatrix], Ok (ApplyCachedModelMatrix c x) x).
Proof. unfold ComputeModelViewProjection, attached. now destruct (m_Dirty x). Qed.

Lemma step_Query_attached (c : BaseCamera) (x : t) :
  step (attached c) x Query = if m_Dirty x then RecalculateModelMatrix x else x.
Proof. unfold step. rewrite query_attached. now destruct (m_Dirty x). Qed.

Lemma step_cache_valid (c : BaseCamera) (x : t) (op : Op) :
  cache_valid x -> cache_valid (step (attached c) x op).
Proof.
  intros Hx. destruct op as [m|].
  - apply mutate_cache_valid.
  - rewrite step_Query_attached. destruct (m_Dirty x);
      [apply Recalculate_cache_valid | exact Hx].
Qed.

Lemma run_cache_valid (c : BaseCamera) (ops : list Op) (x : t) :
  cache_valid x -> cache_valid (run (attached c) ops x).
Proof.
  revert x. induction ops as [|op ops IH]; intros x Hx; [exact Hx|].
  cbn. apply IH. now apply step_cache_valid.
Qed.

Lemma run_app (o : OwnerPtr) (l1 l2 : list Op) (x : t) :
  run o (l1 ++ l2) x = run o l2 (run o l1 x).
Proof. unfold run. apply fold_left_app. Qed.

Lemma run_mutators_dirty (o : OwnerPtr) (ms : list Mutator) (x : t) :
  m_Dirty (run o (map Mutate ms) x) =
    match ms with [] => m_Dirty x | _ :: _ => true end.
Proof.
  induction ms as [|m ms IH] using rev_ind; [reflexivity|].
  rewrite map_app, run_app. cbn. rewrite mutate_dirty.
  now destruct ms.
Qed.

Lemma step_Query_clean (c : BaseCamera) (x : t) :
  m_Dirty (step (attached c) x Query) = false.
Proof. rewrite step_Query_attached. now destruct (m_Dirty x) eqn:E. Qed.

(** C4. After any history of mutations and queries on a transform
    whose owner is attached to a scene with an active camera, a query
    returns Model = Translate * RotateX * RotateY * RotateZ * Scale,
    where Translate moves the identity by the current position,
    RotateX, RotateY and RotateZ turn it about the x, y and z axis by
    the three components of the current rotation taken as degrees, and
    Scale scales it by the current scale, and
    MVP = Projection * View * Model. Between two queries the model
    matrix is recomputed exactly once when at least one mutator ran,
    and not at all when none did (the very first query recomputes:
    the constructor sets the dirty flag); a query repeated at once
    returns the same pair of matrices without recomputing. *)
Theorem C4_ComputeModelViewProjection (c : BaseCamera) (ops : list Op) :
  let x := run (attached c) ops new in
  let I := mat4_diag f32_one in
  let Translate := translate I (m_Position x) in
  let RotateX :=
    rotate I (radians (vx (m_Rotation x))) (mkVec3 f32_one f32_zero f32_zero) in
  let RotateY :=
    rotate I (radians (vy (m_Rotation x))) (mkVec3 f32_zero f32_one f32_zero) in
  let RotateZ :=
    rotate I (radians (vz (m_Rotation x))) (mkVec3 f32_zero f32_zero f32_one) in
  let Scale := scale I (m_Scale x) in
  let Model := (Translate *m RotateX *m RotateY *m RotateZ *m Scale)%glm in
  let MVP := (GetProjectionMatrix c *m GetViewMatrix c *m Model)%glm in
  exists cs x',
    ComputeModelViewProjection (attached c) x = (cs, Ok (MVP, Model) x')
    /\ m_Position x' = m_Position x /\ m_Rotation x' = m_Rotation x
    /\ m_Scale x' = m_Scale x
    /\ (forall pre ms, ops = pre ++ Query :: map Mutate ms ->
          recalculations cs = match ms with [] => 0 | _ :: _ => 1 end%nat)
    /\ (forall ms, ops = map Mutate ms -> recalculations cs = 1%nat)
    /\ ComputeModelViewProjection (attached c) x' =
         ([CallApplyCachedModelMatrix], Ok (MVP, Model) x').
Proof.
  intros x I Translate RotateX RotateY RotateZ Scale Model MVP.
  pose proof (run_cache_valid c ops new new_cache_valid) as Hvalid.
  fold x in Hvalid. rewrite query_attached.
  assert (Hdirty1 : forall pre ms, ops = pre ++ Query :: map Mutate ms ->
            m_Dirty x = match ms with [] => false | _ :: _ => true end).
  { intros pre ms ->. subst x.
    rewrite run_app. cbn [run fold_left].
    fold (run (attached c) (map Mutate ms)
              (step (attached c) (run (attached c) pre new) Query)).
    rewrite run_mutators_dirty, step_Query_clean. reflexivity. }
  assert (Hdirty2 : forall ms, ops = map Mutate ms -> m_Dirty x = true).
  { intros ms ->. subst x. rewrite run_mutators_dirty. now destruct ms. }
  destruct (m_Dirty x) eqn:Ed.
  - eexists _, (RecalculateModelMatrix x).
    do 4 (split; [reflexivity|]). split; [|split].
    + intros pre ms E. specialize (Hdirty1 pre ms E).
      destruct ms; [discriminate Hdirty1 | reflexivity].
    + intros ms _. reflexivity.
    + rewrite query_attached. reflexivity.
  - eexists _, x.
    assert (Hc : ApplyCachedModelMatrix c x = (MVP, Model)).
    { unfold ApplyCachedModelMatrix. now rewrite (Hvalid Ed). }
    rewrite Hc. do 4 (split; [reflexivity|]). split; [|split].
    + intros pre ms E. specialize (Hdirty1 pre ms E).
      destruct ms; [reflexivity | discriminate Hdirty1].
    + intros ms E. specialize (Hdirty2 ms E). discriminate Hdirty2.
    + rewrite query_attached, Ed, Hc. reflexivity.
Qed.

(** The guard of the query: with no owner at all it throws before it
    reads or writes anything. *)
Lemma query_without_owner (x : t) :
  ComputeModelViewProjection None x = ([], Raise (runtime_error ErrInvalidOwner) x).
Proof. reflexivity. Qed.

(** C7 (what the code does). The owner of a transform is checked, the
    scene of that owner is not: for an object that was never added to
    a scene the query goes through the null scene pointer, and for an
    object in a scene without an active camera it first recomputes
    and caches the model matrix and then goes through the null
    camera pointer. Neither raises an error. *)
Theorem C7_unattached_owner_is_dereferenced :
  ComputeModelViewProjection (Some None) new
    = ([], Raise (null_dereference NullScene) new)
  /\ ComputeModelViewProjection (Some (Some None)) new
    = ([CallRecalculateModelMatrix],
       Raise (null_dereference NullCamera) (RecalculateModelMatrix new))
  /\ m_Dirty (RecalculateModelMatrix new) <> m_Dirty new.
Proof. repeat split. discriminate. Qed.

End TransformFacts.

(** ** Mesh: the content hash *)

Section MeshFacts.
Context {G : GLM} {H : StdHash G} {MS : Materials}.

Lemma hash_vertex_position (hash : Z) (v : Mesh.Vertex) :
  Mesh.hash_vertex hash v = hash_position hash (Mesh.Position v).
Proof. reflexivity. Qed.

Lemma fold_hash_vertex (V : list Mesh.Vertex) (hash : Z) :
  fold_left Mesh.hash_vertex V hash =
    fold_left hash_position (Mesh.Position <$> V) hash.
Proof.
  revert hash. induction V as [|v V IH]; intros hash; [reflexivity|].
  cbn [fold_left fmap list_fmap]. rewrite IH. reflexivity.
Qed.

Lemma ComputeHash_content (V : list Mesh.Vertex) (I : list Z) :
  Mesh.ComputeHash V I =
    content_hash (Z.of_nat (length (Mesh.Position <$> V))) (Mesh.Position <$> V) I.
Proof.
  unfold Mesh.ComputeHash, content_hash.
  rewrite fold_hash_vertex, length_fmap. reflexivity.
Qed.

Lemma ComputeHash_same_geometry (V1 V2 : list Mesh.Vertex) (I1 I2 : list Z) :
  Mesh.Position <$> V1 = Mesh.Position <$> V2 -> I1 = I2 ->
  Mesh.ComputeHash V1 I1 = Mesh.ComputeHash V2 I2.
Proof. intros EV ->. rewrite !ComputeHash_content, EV. reflexivity. Qed.

Lemma combine_range (hash h : Z) :
  0 <= hash < 2 ^ 64 -> 0 <= Mesh.combine hash h < 2 ^ 64.
Proof.
  intros Hh. unfold Mesh.combine.
  set (r := wrap64 _). pose proof (wrap64_range r) as Hr.
  assert (Hr' : 0 <= r < 2 ^ 64) by (subst r; apply wrap64_range).
  split; [apply Z.lxor_nonneg; lia|].
  destruct (Z.eq_dec (Z.lxor hash r) 0) as [->|Hne]; [lia|].
  apply Z.log2_lt_pow2; [pose proof (Z.lxor_nonneg hash r); lia|].
  eapply Z.le_lt_trans; [apply Z.log2_lxor; lia|].
  apply Z.max_lub_lt.
  - destruct (Z.eq_dec hash 0) as [->|]; [cbn; lia|]. apply Z.log2_lt_pow2; lia.
  - destruct (Z.eq_dec r 0) as [->|]; [cbn; lia|]. apply Z.log2_lt_pow2; lia.
Qed.

End MeshFacts.

(** ** std::map: push_back under a key *)

Section StdMapFacts.

Lemma find_Some_keys (k : Z) (vs : list nat) (m : StdMap.t) :
  StdMap.find k m = Some vs -> k ∈ StdMap.keys m.
Proof.
  unfold StdMap.keys. induction m as [|[k0 vs0] m IH]; cbn; [discriminate|].
  destruct (Z.eqb_spec k k0) as [->|Hne]; intros E.
  - apply elem_of_cons. now left.
  - apply elem_of_cons. right. now apply IH.
Qed.

Lemma find_below (k k0 : Z) (m : StdMap.t) :
  List.Forall (Z.lt k0) (StdMap.keys m) -> k <= k0 -> StdMap.find k m = None.
Proof.
  intros Hall Hk. destruct (StdMap.find k m) as [vs|] eqn:E; [|reflexivity].
  apply find_Some_keys, list_elem_of_In in E.
  rewrite List.Forall_forall in Hall. apply Hall in E. lia.
Qed.

Lemma find_push_back (k k' : Z) (v : nat) (m : StdMap.t) :
  sorted_keys m ->
  StdMap.find k' (StdMap.push_back k v m) =
    if k' =? k
    then Some (match StdMap.find k m with Some vs => vs | None => [] end ++ [v])
    else StdMap.find k' m.
Proof.
  unfold sorted_keys. induction m as [|[k0 vs] m IH]; cbn; intros Hs.
  - destruct (Z.eqb_spec k' k); reflexivity.
  - apply StronglySorted_inv in Hs as [Hs Hall].
    destruct (Z.ltb_spec k k0).
    + cbn. destruct (Z.eqb_spec k k0); [lia|].
      rewrite (find_below k k0 m Hall) by lia.
      destruct (Z.eqb_spec k' k); reflexivity.
    + destruct (Z.eqb_spec k k0) as [->|Hne]; cbn.
      * destruct (Z.eqb_spec k' k0); reflexivity.
      * rewrite (IH Hs). destruct (Z.eqb_spec k' k0) as [->|]; [|reflexivity].
        destruct (Z.eqb_spec k0 k); [lia | reflexivity].
Qed.

Lemma keys_push_back (k : Z) (v : nat) (m : StdMap.t) (k' : Z) :
  k' ∈ StdMap.keys (StdMap.push_back k v m) -> k' = k \/ k' ∈ StdMap.keys m.
Proof.
  unfold StdMap.keys. induction m as [|[k0 vs] m IH]; cbn.
  - intros Hin. apply list_elem_of_singleton in Hin. now left.
  - destruct (Z.ltb_spec k k0); [|destruct (Z.eqb_spec k k0)]; cbn;
      rewrite !elem_of_cons; intuition.
Qed.

Lemma sorted_push_back (k : Z) (v : nat) (m : StdMap.t) :
  sorted_keys m -> sorted_keys (StdMap.push_back k v m).
Proof.
  unfold sorted_keys. induction m as [|[k0 vs] m IH]; cbn; intros Hs.
  - repeat constructor.
  - apply StronglySorted_inv in Hs as [Hs Hall].
    destruct (Z.ltb_spec k k0); [|destruct (Z.eqb_spec k k0)]; cbn.
    + constructor; [constructor; assumption|].
      constructor; [assumption|].
      eapply List.Forall_impl; [|exact Hall]. cbn. intros; lia.
    + constructor; assumption.
    + constructor; [now apply IH|].
      apply List.Forall_forall. intros k' Hin.
      apply list_elem_of_In, keys_push_back in Hin as [->|Hin]; [lia|].
      rewrite List.Forall_forall in Hall. apply Hall. now apply list_elem_of_In.
Qed.

Lemma find_None_keys (k : Z) (m : StdMap.t) :
  StdMap.find k m = None -> k ∉ StdMap.keys m.
Proof.
  unfold StdMap.keys. induction m as [|[k0 vs] m IH]; cbn; intros E.
  - apply not_elem_of_nil.
  - destruct (Z.eqb_spec k k0); [discriminate|].
    rewrite not_elem_of_cons. auto.
Qed.

(** In a map with increasing keys, the entries are what [find] finds. *)
Lemma elem_of_sorted (k : Z) (vs : list nat) (m : StdMap.t) :
  sorted_keys m -> ((k, vs) ∈ m <-> StdMap.find k m = Some vs).
Proof.
  unfold sorted_keys. induction m as [|[k0 vs0] m IH]; cbn; intros Hs.
  - split; [intros Hin; inversion Hin | discriminate].
  - apply StronglySorted_inv in Hs as [Hs Hall].
    rewrite elem_of_cons. destruct (Z.eqb_spec k k0) as [->|Hne].
    + split.
      * intros [E|Hin]; [now inversion E|].
        exfalso. rewrite List.Forall_forall in Hall.
        assert (Hk : k0 ∈ StdMap.keys m).
        { unfold StdMap.keys. apply list_elem_of_fmap. now exists (k0, vs). }
        apply list_elem_of_In, Hall in Hk. lia.
      * intros E. left. now inversion E.
    + rewrite <- (IH Hs). split; [|auto].
      intros [E|Hin]; [inversion E; congruence | exact Hin].
Qed.

End StdMapFacts.

(** ** Renderer::BatchSceneObjects *)

Section BatchFacts.
Context {G : GLM} {H : StdHash G} {MS : Materials}.
Import Renderer.

Lemma values_push_back (k : Z) (v : nat) (m : StdMap.t) :
  StdMap.values (StdMap.push_back k v m) ≡ₚ StdMap.values m ++ [v].
Proof.
  unfold StdMap.values. induction m as [|[k0 vs] m IH]; cbn; [reflexivity|].
  destruct (Z.ltb_spec k k0); [|destruct (Z.eqb_spec k k0)]; cbn.
  - apply Permutation_cons_append.
  - rewrite <- !app_assoc. apply Permutation_app_head, Permutation_app_comm.
  - rewrite IH, app_assoc. reflexivity.
Qed.

Lemma nonempty_push_back (k : Z) (v : nat) (m : StdMap.t) :
  Forall (fun e => snd e <> []) m ->
  Forall (fun e => snd e <> []) (StdMap.push_back k v m).
Proof.
  induction 1 as [|[k0 vs] m Hne Hm IH]; cbn.
  - repeat constructor. discriminate.
  - destruct (Z.ltb_spec k k0); [|destruct (Z.eqb_spec k k0)].
    + repeat constructor; [discriminate | exact Hne | exact Hm].
    + constructor; [|exact Hm]. cbn. now destruct vs.
    + constructor; assumption.
Qed.

Lemma flagged_cons (i : nat) (o : SceneObject) (l : list (nat * SceneObject)) :
  flagged ((i, o) :: l) = if IsSkybox o then i :: flagged l else flagged l.
Proof.
  unfold flagged. rewrite filter_cons. cbn.
  destruct (IsSkybox o); destruct (decide _); try reflexivity; congruence.
Qed.

Lemma unflagged_cons (i : nat) (o : SceneObject) (l : list (nat * SceneObject)) :
  unflagged ((i, o) :: l) = if IsSkybox o then unflagged l else i :: unflagged l.
Proof.
  unfold unflagged. rewrite filter_cons. cbn.
  destruct (IsSkybox o); destruct (decide _); try reflexivity; congruence.
Qed.

Lemma batch_of_cons (h : Z) (i : nat) (o : SceneObject) (l : list (nat * SceneObject)) :
  batch_of h ((i, o) :: l) =
    if IsSkybox o then batch_of h l
    else if GetHash o =? h then i :: batch_of h l else batch_of h l.
Proof.
  unfold batch_of. rewrite filter_cons. cbn.
  destruct (IsSkybox o);
    [destruct (decide _) as [[Hf _]|]; [discriminate Hf | reflexivity]|].
  destruct (Z.eqb_spec (GetHash o) h); destruct (decide _) as [[? ?]|Hn];
    try reflexivity; try congruence.
  exfalso. apply Hn. now split.
Qed.

(** The loop of [BatchSceneObjects], from any intermediate state. *)
Lemma BatchLoop_spec (l : list (nat * SceneObject)) (m : StdMap.t) (d : option nat) :
  sorted_keys m ->
  let r := fold_left BatchStep l (m, d) in
  sorted_keys (fst r)
  /\ snd r = match last (flagged l) with Some i => Some i | None => d end
  /\ (forall h, StdMap.find h (fst r) =
        match StdMap.find h m with
        | Some vs => Some (vs ++ batch_of h l)
        | None => match batch_of h l with [] => None | ms => Some ms end
        end)
  /\ StdMap.values (fst r) ≡ₚ StdMap.values m ++ unflagged l
  /\ (Forall (fun e => snd e <> []) m -> Forall (fun e => snd e <> []) (fst r)).
Proof.
  revert m d. induction l as [|[i o] l IH]; intros m d Hs; cbn [fold_left].
  - cbn. repeat split; auto.
    + intros h. destruct (StdMap.find h m); [now rewrite app_nil_r | reflexivity].
    + now rewrite app_nil_r.
  - rewrite flagged_cons, unflagged_cons. cbn [BatchStep].
    destruct (IsSkybox o) eqn:Esky.
    + destruct (IH m (Some i) Hs) as (IH1 & IH2 & IH3 & IH4 & IH5).
      repeat split; auto.
      * rewrite IH2, last_cons. now destruct (last (flagged l)).
      * intros h. rewrite IH3, batch_of_cons, Esky. reflexivity.
    + pose proof (sorted_push_back (GetHash o) i m Hs) as Hs'.
      destruct (IH (StdMap.push_back (GetHash o) i m) d Hs')
        as (IH1 & IH2 & IH3 & IH4 & IH5).
      repeat split; auto.
      * intros h. rewrite IH3, batch_of_cons, Esky, find_push_back by exact Hs.
        rewrite (Z.eqb_sym (GetHash o) h).
        destruct (Z.eqb_spec h (GetHash o)) as [->|Hne].
        -- destruct (StdMap.find (GetHash o) m); cbn; [|reflexivity].
           now rewrite <- app_assoc.
        -- reflexivity.
      * rewrite IH4, values_push_back, <- app_assoc. reflexivity.
      * intros Hne. apply IH5. now apply nonempty_push_back.
Qed.

Lemma BatchSceneObjects_spec (Objects : list SceneObject) :
  let r := BatchSceneObjects Objects None in
  sorted_keys (fst r)
  /\ snd r = last (flagged (indexed Objects))
  /\ (forall h vs, (h, vs) ∈ fst r <->
        vs = batch_of h (indexed Objects) /\ vs <> [])
  /\ StdMap.values (fst r) ≡ₚ unflagged (indexed Objects).
Proof.
  assert (Hs0 : sorted_keys StdMap.empty) by constructor.
  destruct (BatchLoop_spec (indexed Objects) StdMap.empty None Hs0)
    as (B1 & B2 & B3 & B4 & B5).
  unfold BatchSceneObjects. fold (indexed Objects).
  cbv zeta. split; [exact B1|]. split; [|split; [|exact B4]].
  - rewrite B2. now destruct (last (flagged (indexed Objects))).
  - intros h vs. rewrite (elem_of_sorted h vs _ B1), B3. cbn.
    destruct (batch_of h (indexed Objects)) as [|x xs].
    + split; [discriminate | intros [-> Hne]; now destruct Hne].
    + split; [intros E; inversion E; subst; split; [reflexivity | discriminate]
             | intros [-> _]; reflexivity].
Qed.

End BatchFacts.

(** ** One object in [UpdateMVPInstances] *)

Section ProcessFacts.
Context {G : GLM} {H : StdHash G} {MS : Materials}.
Import Renderer.

Lemma emit_run (es : list Event) (b : MatrixBuffer.t) (sc : Scene) (lg : list Event) :
  emit es (mkState b sc lg) = Ok tt (mkState b sc (lg ++ es)).
Proof. reflexivity. Qed.








Lemma Material_Activate_fails mat b sc lg :
  GetShader mat = None ->
  Material_Activate mat (mkState b sc lg) =
    Raise (runtime_error ErrNoShader) (mkState b sc (lg ++ [LogError ErrNoShader])).
Proof. intros E. unfold Material_Activate. now rewrite E. Qed.












End ProcessFacts.

(** ** The loops of a frame *)

Section LoopFacts.
Context {G : GLM} {H : StdHash G} {MS : Materials}.
Import Renderer.













End LoopFacts.

(** ** A whole frame *)

Section FrameFacts.
Context {G : GLM} {H : StdHash G} {MS : Materials}.
Import Renderer.

Lemma elem_of_indexed (Objects : list SceneObject) (i : nat) (o : SceneObject) :
  (i, o) ∈ indexed Objects <-> Objects !! i = Some o.
Proof.
  unfold indexed. rewrite elem_of_lookup_imap. split.
  - intros (j & y & E & Hj). now inversion E; subst.
  - intros E. now exists i, o.
Qed.

Lemma indexed_fst (Objects : list SceneObject) :
  fst <$> indexed Objects = seq 0 (length Objects).
Proof.
  unfold indexed. rewrite fmap_imap.
  rewrite (imap_ext _ (fun j _ => id j)) by reflexivity.
  rewrite imap_seq_0. apply list_fmap_id.
Qed.

Lemma NoDup_indexed_filter (P : nat * SceneObject -> Prop)
    `{forall x, Decision (P x)} (Objects : list SceneObject) :
  NoDup (fst <$> filter P (indexed Objects)).
Proof.
  apply NoDup_fmap_fst.
  - intros i o1 o2 H1 H2.
    apply list_elem_of_filter in H1 as [_ H1]. apply list_elem_of_filter in H2 as [_ H2].
    apply elem_of_indexed in H1. apply elem_of_indexed in H2. congruence.
  - apply NoDup_filter. apply (NoDup_fmap_1 fst).
    rewrite indexed_fst. apply NoDup_seq.
Qed.

Lemma elem_of_unflagged (Objects : list SceneObject) (i : nat) :
  i ∈ unflagged (indexed Objects) <->
  exists o, Objects !! i = Some o /\ IsSkybox o = false.
Proof.
  unfold unflagged. rewrite list_elem_of_fmap. split.
  - intros ([j o] & -> & Hin). apply list_elem_of_filter in Hin as [HP Hin].
    apply elem_of_indexed in Hin. now exists o.
  - intros (o & E & HP). exists (i, o). split; [reflexivity|].
    apply list_elem_of_filter. split; [exact HP | now apply elem_of_indexed].
Qed.

Lemma elem_of_flagged (Objects : list SceneObject) (i : nat) :
  i ∈ flagged (indexed Objects) <->
  exists o, Objects !! i = Some o /\ IsSkybox o = true.
Proof.
  unfold flagged. rewrite list_elem_of_fmap. split.
  - intros ([j o] & -> & Hin). apply list_elem_of_filter in Hin as [HP Hin].
    apply elem_of_indexed in Hin. now exists o.
  - intros (o & E & HP). exists (i, o). split; [reflexivity|].
    apply list_elem_of_filter. split; [exact HP | now apply elem_of_indexed].
Qed.

Lemma elem_of_batch_of (Objects : list SceneObject) (h : Z) (i : nat) :
  i ∈ batch_of h (indexed Objects) <->
  exists o, Objects !! i = Some o /\ IsSkybox o = false /\ GetHash o = h.
Proof.
  unfold batch_of. rewrite list_elem_of_fmap. split.
  - intros ([j o] & -> & Hin). apply list_elem_of_filter in Hin as [[HP Hh] Hin].
    apply elem_of_indexed in Hin. now exists o.
  - intros (o & E & HP & Hh). exists (i, o). split; [reflexivity|].
    apply list_elem_of_filter. split; [now split | now apply elem_of_indexed].
Qed.

Lemma indexed_snoc (Objects : list SceneObject) (o : SceneObject) :
  indexed (Objects ++ [o]) = indexed Objects ++ [(length Objects, o)].
Proof. unfold indexed. rewrite imap_app. cbn. now rewrite Nat.add_0_r. Qed.



Lemma flagged_unflagged_length (l : list (nat * SceneObject)) :
  (length (unflagged l) + length (flagged l) = length l)%nat.
Proof.
  induction l as [|[i o] l IH]; [reflexivity|].
  rewrite flagged_cons, unflagged_cons. destruct (IsSkybox o); cbn; lia.
Qed.

(** What the renderer knows about the pointers it batched. *)
Lemma batched_pointers (Objects : list SceneObject) :
  let batches := fst (BatchSceneObjects Objects None) in
  let Skybox := snd (BatchSceneObjects Objects None) in
  NoDup (StdMap.values batches)
  /\ (forall o, o ∈ StdMap.values batches <->
        exists ob, Objects !! o = Some ob /\ IsSkybox ob = false)
  /\ (forall sk, Skybox = Some sk ->
        exists ob, Objects !! sk = Some ob /\ IsSkybox ob = true)
  /\ (Z.of_nat (length (StdMap.values batches))
      <= Z.of_nat (length Objects) - Z.b2z (bool_decide (is_Some Skybox))).
Proof.
  destruct (BatchSceneObjects_spec Objects) as (_ & B2 & _ & B4). cbv zeta.
  split; [|split; [|split]].
  - rewrite B4. apply NoDup_indexed_filter.
  - intros o. rewrite B4. apply elem_of_unflagged.
  - intros sk E. rewrite B2 in E. apply last_Some_elem_of in E.
    now apply elem_of_flagged.
  - rewrite B4, B2.
    pose proof (flagged_unflagged_length (indexed Objects)) as Hlen.
    unfold indexed in Hlen at 3. rewrite length_imap in Hlen.
    destruct (flagged (indexed Objects)) as [|x xs] eqn:Ef.
    + cbn in *. lia.
    + rewrite bool_decide_eq_true_2 by (apply last_is_Some; discriminate).
      cbn [length] in Hlen. cbn [Z.b2z]. lia.
Qed.











End FrameFacts.

Section RenderFrame.
Context {G : GLM} {H : StdHash G} {MS : Materials}.
Import Renderer.






End RenderFrame.

Section ReadyCheck.
Context {G : GLM} {H : StdHash G} {MS : Materials}.
Import Renderer.


End ReadyCheck.

(** ** Reading a frame's log *)

Section LogFacts.
Context {G : GLM} {H : StdHash G} {MS : Materials}.
Import Renderer.

Lemma omap_nothing {A B} (f : A -> option B) (l : list A) :
  (forall a, a ∈ l -> f a = None) -> omap f l = [].
Proof.
  induction l as [|a l IH]; intros Hn; [reflexivity|].
  cbn. rewrite (Hn a) by (left). apply IH. intros x Hx. apply Hn. now right.
Qed.

Lemma elem_of_concat {A} (ls : list (list A)) (x : A) :
  x ∈ concat ls <-> exists l, x ∈ l /\ l ∈ ls.
Proof.
  induction ls as [|l ls IH]; cbn.
  - split; [intros Hx; inversion Hx | intros (l & _ & Hl); inversion Hl].
  - rewrite elem_of_app, IH. split.
    + intros [Hx|(l' & Hx & Hl')]; [exists l; split; [exact Hx | left]|].
      exists l'. split; [exact Hx | now right].
    + intros (l' & Hx & Hl'). apply elem_of_cons in Hl' as [->|Hl']; [now left|].
      right. eauto.
Qed.

Lemma elem_of_first_pass Objects o e :
  e ∈ first_pass Objects o -> exists k, e = FirstPass o k.
Proof.
  unfold first_pass. intros Hin.
  apply elem_of_lookup_imap_1 in Hin as (k & m & -> & _). eauto.
Qed.

Lemma elem_of_second_pass Objects o e :
  e ∈ second_pass Objects o -> exists k, e = SecondPass o k.
Proof.
  unfold second_pass. intros Hin.
  apply elem_of_lookup_imap_1 in Hin as (k & m & -> & _). eauto.
Qed.

Lemma elem_of_init_block Objects o e :
  e ∈ init_block Objects o ->
  (exists k, e = FirstPass o k) \/ e = glBindBuffer MVPBufferID
  \/ (exists k, e = SecondPass o k) \/ e = SetNew o false.
Proof.
  unfold init_block. rewrite !elem_of_app, !list_elem_of_singleton.
  intros [Hf|[Hb|[Hs|Hn]]]; eauto using elem_of_first_pass, elem_of_second_pass.
Qed.

Lemma elem_of_material_log m e : e ∈ material_log m -> material_event e.
Proof.
  unfold material_log. destruct (Mesh.m_Material m) as [mat|]; [|intros Hin; inversion Hin].
  destruct (GetShader mat) as [p|]; [|intros Hin; inversion Hin].
  rewrite !elem_of_cons. intros [->|[->|[->|Hin]]]; [exact I..|inversion Hin].
Qed.

Lemma elem_of_draws Objects o n e :
  e ∈ draws Objects o n ->
  e = CallRender o n \/ (exists k, e = glDrawElementsInstanced o k n)
  \/ material_event e.
Proof.
  unfold draws. rewrite elem_of_cons. intros [->|Hin]; [now left|]. right.
  apply elem_of_concat in Hin as (l & Hin & Hl).
  apply list_elem_of_fmap in Hl as (km & -> & _).
  unfold mesh_draw in Hin. apply elem_of_app in Hin as [Hin|Hin].
  - right. eapply elem_of_material_log, Hin.
  - apply list_elem_of_singleton in Hin as ->. left. eauto.
Qed.

(** *** Stores *)

Lemma stores_app l1 l2 : stores (l1 ++ l2) = stores l1 ++ stores l2.
Proof. apply omap_app. Qed.

Lemma stores_init_block Objects o : stores (init_block Objects o) = [].
Proof.
  apply omap_nothing. intros e He.
  apply elem_of_init_block in He as [[k ->]|[->|[[k ->]| ->]]]; reflexivity.
Qed.

Lemma stores_draws Objects o n : stores (draws Objects o n) = [].
Proof.
  apply omap_nothing. intros e He.
  apply elem_of_draws in He as [->|[[k ->]|Hm]]; [reflexivity..|material_case e Hm].
Qed.

Lemma stores_first_pass Objects o : stores (first_pass Objects o) = [].
Proof.
  apply omap_nothing. intros e He. apply elem_of_first_pass in He as [k ->].
  reflexivity.
Qed.

Lemma stores_process_log Objects ps Index :
  stores (process_log Objects ps Index) = store_plan ps Index.
Proof.
  revert Index. induction ps as [|o ps IH]; intros Index; [reflexivity|].
  cbn [process_log store_plan]. unfold process_block.
  rewrite !stores_app, IH.
  destruct (is_new Objects o); [rewrite stores_init_block|]; reflexivity.
Qed.

Lemma stores_batches_log Objects m : stores (batches_log Objects m) = [].
Proof.
  apply omap_nothing. intros e He. unfold batches_log in He.
  apply elem_of_concat in He as (l & He & Hl).
  apply list_elem_of_fmap in Hl as (entry & -> & _).
  unfold batch_draws in He.
  apply elem_of_concat in He as (l & He & Hl).
  apply list_elem_of_fmap in Hl as (o & -> & _).
  apply elem_of_draws in He as [->|[[k ->]|Hm]]; [reflexivity..|material_case e Hm].
Qed.

Lemma stores_skybox_log Objects Skybox : stores (skybox_log Objects Skybox) = [].
Proof.
  destruct Skybox as [sk|]; [|reflexivity]. cbn. unfold skybox_block.
  rewrite stores_app, stores_draws.
  destruct (is_new Objects sk); [|reflexivity].
  now rewrite stores_app, stores_first_pass.
Qed.

Lemma stores_ensure_log b n : stores (ensure_log b n) = [].
Proof. unfold ensure_log. now destruct (_ || _). Qed.

Lemma stores_frame_log (s : State) :
  stores (frame_log s) =
    store_plan (StdMap.values (fst (BatchSceneObjects (m_Objects (scene s)) None))) 0.
Proof.
  unfold frame_log. cbv zeta.
  rewrite !stores_app, stores_ensure_log, stores_process_log,
    stores_batches_log, stores_skybox_log.
  cbn. now rewrite app_nil_r.
Qed.


End LogFacts.

Section OrderFacts.
Context {G : GLM} {H : StdHash G} {MS : Materials}.
Import Renderer.

(** *** Which objects are written, and which are rendered *)



















End OrderFacts.

(** ** What a frame adds to the log, whatever its outcome *)

Section EmitFacts.
Context {G : GLM} {H : StdHash G} {MS : Materials}.
Import Renderer.

Lemma emits_silent (P : Event -> Prop) {A} (c : M A) :
  (forall s, log (final (c s)) = log s) -> emits P c.
Proof.
  intros Hc s. exists []. rewrite Hc, app_nil_r. split; [reflexivity | constructor].
Qed.

Lemma emits_ret (P : Event -> Prop) {A} (a : A) : emits P (ret a).
Proof. now apply emits_silent. Qed.

Lemma emits_raise (P : Event -> Prop) {A} (f : Fault) : emits P (raise (A := A) f).
Proof. now apply emits_silent. Qed.

Lemma emits_emit (P : Event -> Prop) (es : list Event) : Forall P es -> emits P (emit es).
Proof. intros HP s. exists es. split; [reflexivity | exact HP]. Qed.

Lemma emits_bind (P : Event -> Prop) {A B} (c : M A) (k : A -> M B) :
  emits P c -> (forall a, emits P (k a)) -> emits P (bind c k).
Proof.
  intros Hc Hk s. destruct (Hc s) as (new1 & E1 & P1). unfold bind.
  destruct (c s) as [a s1|f s1]; cbn in E1.
  - destruct (Hk a s1) as (new2 & E2 & P2). exists (new1 ++ new2).
    rewrite E2, E1, app_assoc. split; [reflexivity | now apply Forall_app].
  - exists new1. auto.
Qed.

Lemma emits_impl (P Q : Event -> Prop) {A} (c : M A) :
  (forall e, P e -> Q e) -> emits P c -> emits Q c.
Proof.
  intros HPQ Hc s. destruct (Hc s) as (new & E & HP). exists new.
  split; [exact E|]. eapply Forall_impl; eauto.
Qed.

Lemma emits_deref (P : Event -> Prop) (o : nat) : emits P (deref o).
Proof. apply emits_silent. intros s. unfold deref. now destruct (_ !! _). Qed.

Lemma emits_modify (P : Event -> Prop) (o : nat) (f : SceneObject -> SceneObject) :
  emits P (modify o f).
Proof. apply emits_silent. intros s. unfold modify. now destruct (_ !! _). Qed.

Lemma emits_get_scene (P : Event -> Prop) : emits P get_scene.
Proof. now apply emits_silent. Qed.

Lemma emits_get_buffer (P : Event -> Prop) : emits P get_buffer.
Proof. now apply emits_silent. Qed.

Lemma emits_put_buffer (P : Event -> Prop) (b : MatrixBuffer.t) : emits P (put_buffer b).
Proof. now apply emits_silent. Qed.

Lemma emits_Log_Error (P : Event -> Prop) (msg : string) (t : bool) :
  emits P (Log_Error msg t).
Proof. apply emits_silent. intros s. unfold Log_Error. now destruct t. Qed.

Lemma emits_for_each (P : Event -> Prop) {A} (f : A -> M unit) (l : list A) :
  (forall a, a ∈ l -> emits P (f a)) -> emits P (for_each f l).
Proof.
  induction l as [|a l IH]; intros Hf; [apply emits_ret|].
  cbn [for_each]. apply emits_bind; [apply Hf; left|].
  intros _. apply IH. intros x Hx. apply Hf. now right.
Qed.

Lemma emits_for_each_idx (P : Event -> Prop) {A} (f : A -> Z -> M Z) (l : list A) :
  (forall a, a ∈ l -> forall i, emits P (f a i)) ->
  forall i, emits P (for_each_idx f l i).
Proof.
  induction l as [|a l IH]; intros Hf i; [apply emits_ret|].
  cbn [for_each_idx]. apply emits_bind; [apply Hf; left|].
  intros i'. apply IH. intros x Hx. apply Hf. now right.
Qed.

(** *** Rendering: only events of drawing *)

Lemma Forall_imap {A B} (P : B -> Prop) (f : nat -> A -> B) (l : list A) :
  (forall k a, P (f k a)) -> Forall P (imap f l).
Proof.
  intros Hf. apply Forall_forall. intros e He.
  apply elem_of_lookup_imap_1 in He as (k & a & -> & _). apply Hf.
Qed.

Lemma drawing_Material_Activate objs mat : emits (drawing objs) (Material_Activate mat).
Proof.
  unfold Material_Activate. destruct (GetShader mat) as [p|].
  - apply emits_emit. repeat constructor.
  - apply emits_bind; [apply emits_emit; repeat constructor|].
    intros _. apply emits_Log_Error.
Qed.

Lemma drawing_BaseMesh_Render objs o n km :
  o ∈ objs -> emits (drawing objs) (BaseMesh_Render o n km).
Proof.
  intros Ho. unfold BaseMesh_Render. apply emits_bind.
  - destruct (Mesh.m_Material (snd km));
      [apply drawing_Material_Activate | apply emits_ret].
  - intros _. apply emits_emit. repeat constructor. exact Ho.
Qed.

Lemma drawing_Render_ objs o n : o ∈ objs -> emits (drawing objs) (Render_ o n).
Proof.
  intros Ho. unfold Render_. apply emits_bind; [apply emits_deref|]. intros ob.
  apply emits_bind; [apply emits_emit; repeat constructor; exact Ho|]. intros _.
  apply emits_for_each. intros km _. now apply drawing_BaseMesh_Render.
Qed.

Lemma drawing_PerformFirstPass objs o :
  o ∈ objs -> emits (drawing objs) (PerformFirstPass o).
Proof.
  intros Ho. unfold PerformFirstPass. apply emits_bind; [apply emits_deref|].
  intros ob. apply emits_emit. apply Forall_imap. intros k m. exact Ho.
Qed.

Lemma drawing_SetNew_ objs o v : o ∈ objs -> emits (drawing objs) (SetNew_ o v).
Proof.
  intros Ho. unfold SetNew_. apply emits_bind; [apply emits_modify|].
  intros _. apply emits_emit. repeat constructor. exact Ho.
Qed.

Lemma elem_of_values (m : StdMap.t) (entry : Z * list nat) (o : nat) :
  entry ∈ m -> o ∈ snd entry -> o ∈ StdMap.values m.
Proof.
  intros He Ho. unfold StdMap.values. apply elem_of_concat.
  exists (snd entry). split; [exact Ho | now apply list_elem_of_fmap_2].
Qed.

Lemma drawing_RenderBatches objs (batches : StdMap.t) :
  (forall o, o ∈ StdMap.values batches -> o ∈ objs) ->
  emits (drawing objs) (RenderBatches batches).
Proof.
  intros Hin. unfold RenderBatches. apply emits_for_each. intros entry He.
  apply emits_for_each. intros o Ho. apply drawing_Render_.
  eapply Hin, elem_of_values; eauto.
Qed.

Lemma drawing_RenderSkybox objs (Skybox : option nat) :
  (forall sk, Skybox = Some sk -> sk ∈ objs) ->
  emits (drawing objs) (RenderSkybox Skybox).
Proof.
  intros Hin. destruct Skybox as [sk|]; [|apply emits_ret].
  specialize (Hin sk eq_refl). cbn.
  apply emits_bind; [apply emits_deref|]. intros ob. apply emits_bind.
  - destruct (IsNew ob); [|apply emits_ret].
    apply emits_bind; [now apply drawing_PerformFirstPass|].
    intros _. now apply drawing_SetNew_.
  - intros _. now apply drawing_Render_.
Qed.

Lemma drawing_about objs e : drawing objs e -> about objs e.
Proof.
  intros Hd o Ho.
  destruct e; cbn in *; try discriminate; try contradiction;
    inversion Ho; subst; exact Hd.
Qed.


(** *** The matrices: only events about the batched objects *)

Lemma about_none objs e : object_of e = None -> about objs e.
Proof. intros E o Ho. congruence. Qed.

Lemma about_obj objs e o : object_of e = Some o -> o ∈ objs -> about objs e.
Proof. intros E Ho o' Ho'. congruence. Qed.

Lemma about_EnsureBufferCapacity objs n : emits (about objs) (EnsureBufferCapacity n).
Proof.
  unfold EnsureBufferCapacity. apply emits_bind; [apply emits_get_buffer|].
  intros b. destruct (_ || _); [|apply emits_ret].
  apply emits_bind; [apply emits_put_buffer|]. intros _.
  apply emits_bind; [apply emits_get_buffer|]. intros b'.
  apply emits_emit. repeat constructor; now apply about_none.
Qed.

Lemma about_store objs o Index w Matrix :
  o ∈ objs -> emits (about objs) (store o Index w Matrix).
Proof.
  intros Ho. unfold store. apply emits_bind; [apply emits_get_buffer|].
  intros b. destruct (MatrixBuffer.Get b) as [data|]; [|apply emits_raise].
  destruct (_ && _); [|apply emits_raise].
  apply emits_bind; [apply emits_put_buffer|]. intros _.
  apply emits_emit. repeat constructor. now apply (about_obj objs _ o).
Qed.

Lemma about_ComputeMVP objs o : emits (about objs) (ComputeMVP o).
Proof.
  unfold ComputeMVP. apply emits_bind; [apply emits_deref|]. intros ob.
  apply emits_bind; [apply emits_get_scene|]. intros sc.
  destruct (snd _); (apply emits_bind; [apply emits_modify|]); intros _;
    [apply emits_ret | apply emits_raise].
Qed.

Lemma about_ProcessObjectForMVP objs o Index :
  o ∈ objs -> emits (about objs) (ProcessObjectForMVP o Index).
Proof.
  intros Ho. unfold ProcessObjectForMVP.
  apply emits_bind; [apply emits_deref|]. intros ob. apply emits_bind.
  - destruct (IsNew ob); [|apply emits_ret].
    apply emits_bind.
    { eapply emits_impl; [apply drawing_about | now apply drawing_PerformFirstPass]. }
    intros _. apply emits_bind.
    { apply emits_emit. repeat constructor. now apply about_none. }
    intros _. apply emits_bind.
    { unfold PerformSecondPass. apply emits_bind; [apply emits_deref|].
      intros ob'. apply emits_emit. apply Forall_imap. intros k m.
      now apply (about_obj objs _ o). }
    intros _. eapply emits_impl; [apply drawing_about | now apply drawing_SetNew_].
  - intros _. apply emits_bind; [apply about_ComputeMVP|]. intros r.
    apply emits_bind; [now apply about_store|]. intros _.
    apply emits_bind; [now apply about_store|]. intros _. apply emits_ret.
Qed.

Lemma about_UpdateMVPInstances objs (batches : StdMap.t) (HasSkybox : bool) :
  (forall o, o ∈ StdMap.values batches -> o ∈ objs) ->
  emits (about objs) (UpdateMVPInstances batches HasSkybox).
Proof.
  intros Hin. unfold UpdateMVPInstances.
  apply emits_bind; [apply emits_get_scene|]. intros sc.
  apply emits_bind; [apply about_EnsureBufferCapacity|]. intros _.
  apply emits_bind.
  - apply emits_for_each_idx. intros entry He i.
    apply emits_for_each_idx. intros o Ho i'. apply about_ProcessObjectForMVP.
    eapply Hin, elem_of_values; eauto.
  - intros _. unfold UploadMVPDataToGPU.
    apply emits_bind; [apply emits_get_buffer|]. intros b.
    apply emits_emit. repeat constructor; now apply about_none.
Qed.

(** The two halves of a frame, after the clear. *)
Lemma Render_unfold b sc lg :
  Render (mkState b sc lg) =
    bind (UpdateMVPInstances (fst (BatchSceneObjects (m_Objects sc) None))
            (bool_decide (is_Some (snd (BatchSceneObjects (m_Objects sc) None)))))
         (fun _ =>
            bind (RenderBatches (fst (BatchSceneObjects (m_Objects sc) None)))
                 (fun _ => RenderSkybox (snd (BatchSceneObjects (m_Objects sc) None))))
         (mkState b sc (lg ++ [glClear])).
Proof.
  unfold Render. erewrite bind_Ok by apply emit_run.
  rewrite bind_get_scene. cbn [scene]. unfold GetObjects.
  now destruct (BatchSceneObjects (m_Objects sc) None).
Qed.

Lemma about_render_part objs (batches : StdMap.t) (Skybox : option nat) :
  (forall o, o ∈ StdMap.values batches -> o ∈ objs) ->
  (forall sk, Skybox = Some sk -> sk ∈ objs) ->
  emits (drawing objs)
    (bind (RenderBatches batches) (fun _ => RenderSkybox Skybox)).
Proof.
  intros Hb Hs. apply emits_bind; [now apply drawing_RenderBatches|].
  intros _. now apply drawing_RenderSkybox.
Qed.

(** Whatever the outcome of a frame, all it does is about the batched
    objects and the background object. *)
Lemma Render_about b sc lg :
  let batches := fst (BatchSceneObjects (m_Objects sc) None) in
  let Skybox := snd (BatchSceneObjects (m_Objects sc) None) in
  exists new,
    log (final (Render (mkState b sc lg))) = lg ++ new
    /\ Forall (about (StdMap.values batches ++ option_list Skybox)) new.
Proof.
  intros batches Skybox. rewrite Render_unfold. fold batches Skybox.
  set (objs := StdMap.values batches ++ option_list Skybox).
  assert (Hb : forall o, o ∈ StdMap.values batches -> o ∈ objs)
    by (intros o Ho; apply elem_of_app; now left).
  assert (Hs : forall sk, Skybox = Some sk -> sk ∈ objs).
  { intros sk ->. apply elem_of_app. right. cbn. left. }
  assert (Hall : emits (about objs)
            (bind (UpdateMVPInstances batches (bool_decide (is_Some Skybox)))
               (fun _ => bind (RenderBatches batches)
                              (fun _ => RenderSkybox Skybox)))).
  { apply emits_bind; [now apply about_UpdateMVPInstances|]. intros _.
    eapply emits_impl; [apply drawing_about | now apply about_render_part]. }
  destruct (Hall (mkState b sc (lg ++ [glClear]))) as (new & E & Hnew).
  exists (glClear :: new). split.
  - rewrite E. cbn [log]. now rewrite <- app_assoc.
  - constructor; [now apply about_none | exact Hnew].
Qed.

(** *** Rendering stops on a material without shader only *)










End EmitFacts.

(** ** Writes into the matrix buffer *)

Section BoundsFacts.
Context {G : GLM} {H : StdHash G} {MS : Materials}.
Import Renderer.









End BoundsFacts.

(** ** The life of an object across frames *)

Section LifecycleFacts.
Context {G : GLM} {H : StdHash G} {MS : Materials}.
Import Renderer.

















End LifecycleFacts.

(** ** Draw calls, and the background object *)

Section DrawFacts.
Context {G : GLM} {H : StdHash G} {MS : Materials}.
Import Renderer.

















Lemma last_flagged_is_greatest (Objects : list SceneObject) (sk : nat) :
  last (flagged (indexed Objects)) = Some sk ->
  forall j, j ∈ flagged (indexed Objects) -> (j <= sk)%nat.
Proof.
  induction Objects as [|o Objects IH] using rev_ind; intros El j Hj.
  - inversion Hj.
  - assert (Hfl : flagged (indexed (Objects ++ [o]))
                  = flagged (indexed Objects)
                    ++ (if IsSkybox o then [length Objects] else [])).
    { rewrite indexed_snoc. unfold flagged. rewrite filter_app, fmap_app. f_equal.
      rewrite filter_cons. cbn.
      destruct (IsSkybox o); destruct (decide _); try reflexivity; congruence. }
    rewrite Hfl in El, Hj. destruct (IsSkybox o).
    + rewrite last_snoc in El. inversion El; subst.
      apply elem_of_app in Hj as [Hj|Hj].
      * apply elem_of_flagged in Hj as (ob & E & _).
        apply lookup_lt_Some in E. lia.
      * apply list_elem_of_singleton in Hj. lia.
    + rewrite app_nil_r in El, Hj. now apply IH.
Qed.

(** C2 (as amended). The background object of a frame is the LAST
    object in registration order whose background flag is set; there
    is none exactly when no object is flagged; and no flagged object,
    selected or not, is placed into a batch. So at most one object is
    treated as background, and the other flagged objects are left out
    of the frame: whatever the buffer, the camera and the outcome of
    the frame, nothing it does is about them (no pass, no write of a
    matrix, no change of the new-flag, no call of Render and no draw
    call). *)
Theorem C2_last_flagged_object_is_the_background (Objects : list SceneObject) :
  let batches := fst (BatchSceneObjects Objects None) in
  let Skybox := snd (BatchSceneObjects Objects None) in
  Skybox = last (flagged (indexed Objects))
  /\ (forall sk, Skybox = Some sk ->
        (exists ob, Objects !! sk = Some ob /\ IsSkybox ob = true)
        /\ forall j ob, Objects !! j = Some ob -> IsSkybox ob = true -> (j <= sk)%nat)
  /\ (Skybox = None <->
        forall j ob, Objects !! j = Some ob -> IsSkybox ob = false)
  /\ (forall j ob, Objects !! j = Some ob -> IsSkybox ob = true ->
        j ∉ StdMap.values batches)
  /\ (forall b cam lg, exists new,
        log (final (Render (mkState b (mkScene cam Objects) lg))) = lg ++ new
        /\ forall j ob, Objects !! j = Some ob -> IsSkybox ob = true ->
                        Skybox <> Some j -> untouched j new).
Proof.
  cbv zeta. destruct (BatchSceneObjects_spec Objects) as (_ & B2 & _ & _).
  destruct (batched_pointers Objects) as (_ & Hval & Hsk & _).
  split; [exact B2|]. split; [|split; [|split]].
  - intros sk Es. split; [now apply Hsk|].
    intros j ob E Ht. rewrite B2 in Es.
    apply (last_flagged_is_greatest Objects sk Es). apply elem_of_flagged. eauto.
  - rewrite B2, last_None. split.
    + intros Enil j ob E. destruct (IsSkybox ob) eqn:Esky; [|reflexivity].
      assert (Hj : j ∈ flagged (indexed Objects)) by (apply elem_of_flagged; eauto).
      rewrite Enil in Hj. inversion Hj.
    + intros Hall. apply elem_of_nil_inv. intros j Hj.
      apply elem_of_flagged in Hj as (ob & E & Ht).
      rewrite (Hall j ob E) in Ht. discriminate Ht.
  - intros j ob E Ht Hin. apply Hval in Hin as (ob' & E' & Hf). congruence.
  - intros b cam lg.
    destruct (Render_about b (mkScene cam Objects) lg) as (new & El & Hnew).
    cbn [m_Objects] in Hnew. exists new. split; [exact El|].
    intros j ob E Ht Hns. eapply Forall_impl; [exact Hnew|].
    intros e Ha Ej. apply Ha in Ej. apply elem_of_app in Ej as [Hin|Hin].
    + apply Hval in Hin as (ob' & E' & Hf). congruence.
    + destruct (snd (BatchSceneObjects Objects None)) as [sk|]; [|inversion Hin].
      apply list_elem_of_singleton in Hin. congruence.
Qed.

(** C10. The hash of a mesh is a function of the number of its
    vertices, their positions and its indices: two meshes with equal
    position lists and equal index lists have the same hash, whatever
    their normals, texture coordinates, textures and materials; and
    two objects of a scene that are not flagged as background and
    whose hash is the hash of such meshes are in one batch. *)
Theorem C10_hash_depends_on_positions_and_indices_only
    (V1 V2 : list Mesh.Vertex) (I1 I2 : list Z)
    (T1 T2 : list Mesh.Texture) (mat1 mat2 : option Mesh.Material)
    (Objects : list SceneObject) (i j : nat) (oi oj : SceneObject) :
  Mesh.Position <$> V1 = Mesh.Position <$> V2 -> I1 = I2 ->
  let m1 := Mesh.SetMaterial mat1 (Mesh.new V1 I1 T1 true) in
  let m2 := Mesh.SetMaterial mat2 (Mesh.new V2 I2 T2 true) in
  Objects !! i = Some oi -> Objects !! j = Some oj ->
  IsSkybox oi = false -> IsSkybox oj = false ->
  Some (GetHash oi) = Mesh.GetMeshHash m1 ->
  Some (GetHash oj) = Mesh.GetMeshHash m2 ->
  Mesh.GetMeshHash m1 =
    Some (content_hash (Z.of_nat (length (Mesh.Position <$> V1)))
                       (Mesh.Position <$> V1) I1)
  /\ Mesh.GetMeshHash m1 = Mesh.GetMeshHash m2
  /\ exists vs, (GetHash oi, vs) ∈ fst (BatchSceneObjects Objects None)
                /\ i ∈ vs /\ j ∈ vs.
Proof.
  intros EV EI m1 m2 Ei Ej Hfi Hfj Hhi Hhj.
  assert (Hsame : Mesh.GetMeshHash m1 = Mesh.GetMeshHash m2).
  { cbn. f_equal. now apply ComputeHash_same_geometry. }
  split; [cbn; f_equal; apply ComputeHash_content|]. split; [exact Hsame|].
  assert (Hh : GetHash oj = GetHash oi) by congruence.
  destruct (BatchSceneObjects_spec Objects) as (_ & _ & B3 & _).
  exists (batch_of (GetHash oi) (indexed Objects)).
  assert (Hi : i ∈ batch_of (GetHash oi) (indexed Objects))
    by (apply elem_of_batch_of; eauto).
  split; [|split; [exact Hi | apply elem_of_batch_of; eauto]].
  apply B3. split; [reflexivity|]. intros Enil. rewrite Enil in Hi. inversion Hi.
Qed.

End DrawFacts.

(** * The scenarios of the specification, run on the small instance *)

(** Capacity 0, then EnsureBufferCapacity(10): capacity exactly 20; a
    following EnsureBufferCapacity(5) changes nothing. *)
Example EnsureBufferCapacity_scenario :
  let s0 := @Renderer.init ToyGLM two_shapes in
  let s1 := Renderer.final (Renderer.EnsureBufferCapacity 10 s0) in
  let s2 := Renderer.final (Renderer.EnsureBufferCapacity 5 s1) in
  capacity s0 = 0 /\ capacity s1 = 20
  /\ Renderer.m_MVPMatrixBuffer s2 = Renderer.m_MVPMatrixBuffer s1.
Proof. cbv zeta. split; [|split]; vm_compute; reflexivity. Qed.

(** Doubling is done on size_t: from 2^63 on it wraps, and the capacity
    falls below the count asked for. The renderer never asks for that
    much: it asks for at most the size of a vector of pointers. *)
Example Resize_wraps_from_2_63 :
  MatrixBuffer.m_ObjectCount (MatrixBuffer.Resize (2 ^ 63) (@MatrixBuffer.new ToyGLM)) = 0
  /\ vector_max_size < 2 ^ 63.
Proof. split; reflexivity. Qed.

(** A scene without objects: the buffer stays null and nothing is
    written or drawn. *)
Example empty_scene_frame :
  Renderer.Render (@Renderer.init ToyGLM (Renderer.mkScene (Some toy_camera) []))
  = Ok tt (Renderer.mkState MatrixBuffer.new (Renderer.mkScene (Some toy_camera) [])
             [glClear; glBindBuffer MVPBufferID; glBufferData 0;
              glBindBuffer MVPBufferID; glBufferSubData 0; glBindBuffer NoBuffer]).
Proof. reflexivity. Qed.

(** An object whose material was made without a shader: the matrices
    are written, then the frame stops in [Material::Activate], before
    any draw call. *)
Example unlit_frame_throws :
  let r := Renderer.Render
             (@Renderer.init ToyGLM (Renderer.mkScene (Some toy_camera) [toy_unlit])) in
  (exists s', r = Raise (runtime_error Renderer.ErrNoShader) s')
  /\ stores (Renderer.log (Renderer.final r)) = [(0, 0%nat, MVP); (1, 0%nat, Model)]
  /\ draw_calls (Renderer.log (Renderer.final r)) = []
  /\ last (Renderer.log (Renderer.final r)) = Some (LogError Renderer.ErrNoShader).
Proof. cbv zeta. split; [eexists; vm_compute; reflexivity|]. vm_compute. auto. Qed.

(** C1 (what the code does). Objects A and B, both new and of one hash,
    form one batch; [RenderBatches] calls Render on each of them with
    the size of the batch: two instanced draw calls of two instances
    each, not a single one. *)
Theorem C1_a_batch_of_two_is_drawn_twice :
  let s := Renderer.final (Renderer.Render (@Renderer.init ToyGLM two_shapes)) in
  fst (Renderer.BatchSceneObjects (Renderer.m_Objects two_shapes) None)
    = [(Renderer.GetHash toy_shape, [0%nat; 1%nat])]
  /\ rendered (Renderer.log s) = [0%nat; 1%nat]
  /\ draw_calls (Renderer.log s) = [(0%nat, 0%nat, 2); (1%nat, 0%nat, 2)]
  /\ Renderer.m_New <$> Renderer.m_Objects (Renderer.scene s) = [false; false].
Proof. vm_compute. repeat split. Qed.

(** C2, as stated, fails: of two flagged objects the second one is the
    background, not the first. *)
Lemma C2_counterexample :
  ~ first_flagged_is_background (Renderer.m_Objects two_skyboxes).
Proof. intros [E _]. vm_compute in E. discriminate E. Qed.


(** * The theorems at concrete inputs *)

Lemma C3_witness :
  Forall (fun n => 0 <= n < 2 ^ 63) [10; 5]
  /\ let after (l : list Z) :=
       Renderer.final
         (Renderer.for_each Renderer.EnsureBufferCapacity l
            (@Renderer.init ToyGLM two_shapes)) in
     (exists s', Renderer.for_each Renderer.EnsureBufferCapacity [10; 5]
                   (@Renderer.init ToyGLM two_shapes) = Ok tt s')
     /\ (forall n, n ∈ [10; 5] -> n <= capacity (after [10; 5]))
     /\ (forall pre n post, [10; 5] = pre ++ n :: post ->
           capacity (after pre) <= capacity (after (pre ++ [n]))
           /\ (n <= capacity (after pre) ->
                 Renderer.m_MVPMatrixBuffer (after (pre ++ [n]))
                 = Renderer.m_MVPMatrixBuffer (after pre))
           /\ (capacity (after pre) < n -> capacity (after (pre ++ [n])) = 2 * n)).
Proof.
  assert (Hf : Forall (fun n => 0 <= n < 2 ^ 63) [10; 5])
    by (repeat constructor; lia).
  split; [exact Hf|].
  exact (C3_EnsureBufferCapacity_sequence (G := ToyGLM) two_shapes [10; 5] Hf).
Defined.





Lemma C10_witness :
  let Objects := [toy_shape; toy_shape'] in
  let m1 := Mesh.SetMaterial None (@Mesh.new ToyGLM ToyHash toy_triangle [0; 1; 2] [] true) in
  let m2 := Mesh.SetMaterial (Some 1%nat)
              (@Mesh.new ToyGLM ToyHash toy_triangle' [0; 1; 2] [] true) in
  Mesh.Position <$> toy_triangle = Mesh.Position <$> toy_triangle'
  /\ Mesh.Normal <$> toy_triangle <> Mesh.Normal <$> toy_triangle'
  /\ Objects !! 0%nat = Some toy_shape /\ Objects !! 1%nat = Some toy_shape'
  /\ Renderer.IsSkybox toy_shape = false /\ Renderer.IsSkybox toy_shape' = false
  /\ Some (Renderer.GetHash toy_shape) = Mesh.GetMeshHash m1
  /\ Some (Renderer.GetHash toy_shape') = Mesh.GetMeshHash m2
  /\ Mesh.GetMeshHash m1 =
       Some (@content_hash ToyGLM ToyHash
               (Z.of_nat (length (Mesh.Position <$> toy_triangle)))
               (Mesh.Position <$> toy_triangle) [0; 1; 2])
  /\ Mesh.GetMeshHash m1 = Mesh.GetMeshHash m2
  /\ exists vs, (Renderer.GetHash toy_shape, vs)
                  ∈ fst (Renderer.BatchSceneObjects Objects None)
                /\ 0%nat ∈ vs /\ 1%nat ∈ vs.
Proof.
  cbv zeta.
  split; [reflexivity|]. split; [discriminate|]. do 6 (split; [reflexivity|]).
  exact (C10_hash_depends_on_positions_and_indices_only (G := ToyGLM) (H := ToyHash)
           toy_triangle toy_triangle' [0; 1; 2] [0; 1; 2] [] [] None (Some 1%nat)
           [toy_shape; toy_shape'] 0%nat 1%nat toy_shape toy_shape'
           eq_refl eq_refl eq_refl eq_refl eq_refl eq_refl eq_refl eq_refl).
Defined.


(** * Properties of the frame as a whole *)

Section BufferContents.
Context {G : GLM} {H : StdHash G} {MS : Materials}.
Import Renderer.



Lemma filled_length c Objects ps :
  forall Index data, length (filled c Objects ps Index data) = length data.
Proof.
  induction ps as [|o ps IH]; intros Index data; [reflexivity|].
  cbn. destruct (Objects !! o); [|reflexivity].
  now rewrite IH, !length_insert.
Qed.






End BufferContents.

(** ** What a frame does to the objects *)

Section ObjectsAfterFrame.
Context {G : GLM} {H : StdHash G} {MS : Materials}.
Import Renderer.


End ObjectsAfterFrame.

(** ** The OpenGL buffer protocol of the frames *)

Section BufferProtocol.
Context {G : GLM} {H : StdHash G} {MS : Materials}.
Import Renderer.




Lemma gl_run_imap_draw {A} (g : GLState) (o : nat) (n : Z) (ms : list A) :
  gl_run g (imap (fun k _ => glDrawElementsInstanced o k n) ms) = Some g.
Proof.
  assert (Hgen : forall (ms : list A) (f : nat -> nat),
            gl_run g (imap (fun k _ => glDrawElementsInstanced o (f k) n) ms)
            = Some g).
  { clear ms. induction ms as [|m ms IH]; intros f; [reflexivity|].
    cbn. apply (IH (f ∘ S)). }
  apply (Hgen ms (fun k => k)).
Qed.











End BufferProtocol.

(** * Properties of the sphere *)

Section GridFacts.

(** A table written row after row. *)
Lemma length_concat_rows {A B C} (f : A -> B -> C) (rs : list A) (cs : list B) :
  length (concat ((fun r => f r <$> cs) <$> rs)) = (length rs * length cs)%nat.
Proof.
  induction rs as [|r rs IH]; [reflexivity|].
  cbn. rewrite length_app, length_fmap, IH. lia.
Qed.

Lemma lookup_concat_rows {A B C} (f : A -> B -> C) (rs : list A) (cs : list B)
    (k j : nat) (r : A) (c : B) :
  rs !! k = Some r -> cs !! j = Some c ->
  concat ((fun r => f r <$> cs) <$> rs) !! (k * length cs + j)%nat = Some (f r c).
Proof.
  revert k. induction rs as [|r0 rs IH]; intros k Ek Ej; [inversion Ek|].
  assert (Hj : (j < length cs)%nat) by (eapply lookup_lt_Some; exact Ej).
  cbn [fmap list_fmap concat]. destruct k as [|k].
  - cbn in Ek. inversion Ek; subst r0. cbn [Nat.mul Nat.add].
    rewrite lookup_app_l by (rewrite length_fmap; exact Hj).
    rewrite list_lookup_fmap, Ej. reflexivity.
  - cbn in Ek. rewrite lookup_app_r by (rewrite length_fmap; lia).
    rewrite length_fmap.
    replace (S k * length cs + j - length cs)%nat with (k * length cs + j)%nat by lia.
    now apply IH.
Qed.

Lemma lookup_seqZ_0 (len i : Z) : 0 <= i < len -> seqZ 0 len !! Z.to_nat i = Some i.
Proof.
  intros Hi. rewrite lookup_seqZ. split; lia.
Qed.

Lemma concat_rows_flat {A B C} (g : A -> B -> list C) (rs : list A) (cs : list B) :
  concat ((fun r => concat (g r <$> cs)) <$> rs)
  = concat (concat ((fun r => g r <$> cs) <$> rs)).
Proof.
  induction rs as [|r rs IH]; [reflexivity|].
  cbn [fmap list_fmap concat]. now rewrite concat_app, IH.
Qed.

Lemma length_concat_chunks {A} (n : nat) (L : list (list A)) :
  Forall (fun ch => length ch = n) L -> length (concat L) = (length L * n)%nat.
Proof.
  induction 1 as [|ch L Hch _ IH]; [reflexivity|].
  cbn. rewrite length_app, IH, Hch. lia.
Qed.

Lemma chunk_of_concat {A} (n : nat) (L : list (list A)) (m : nat) (ch : list A) :
  Forall (fun ch => length ch = n) L -> L !! m = Some ch ->
  take n (drop (m * n) (concat L)) = ch.
Proof.
  intros HL. revert m. induction HL as [|c0 L Hc0 HL IH]; intros m Em; [inversion Em|].
  cbn [concat]. destruct m as [|m].
  - cbn in Em. inversion Em; subst c0. rewrite Nat.mul_0_l, drop_0.
    rewrite take_app_le by lia. apply take_ge. lia.
  - cbn in Em. rewrite drop_app_ge by lia.
    replace (S m * n - length c0)%nat with (m * n)%nat by lia.
    now apply IH.
Qed.

End GridFacts.

Section SphereFacts.
Context {G : GLM} {H : StdHash G} {C : CMath G}.
Import Sphere.

(** Where the vertex of a grid point is. *)
Lemma GenerateVertices_lookup (Radius : f32) (Stacks Slices st sl : Z) :
  0 <= st <= Stacks -> 0 <= sl <= Slices ->
  GenerateVertices Radius Stacks Slices !! Z.to_nat (st * (Slices + 1) + sl)
  = Some (MakeVertex Radius Stacks Slices st sl).
Proof.
  intros Hst Hsl. unfold GenerateVertices.
  replace (Z.to_nat (st * (Slices + 1) + sl))
    with (Z.to_nat st * length (seqZ 0 (Slices + 1)) + Z.to_nat sl)%nat
    by (rewrite length_seqZ; lia).
  apply (lookup_concat_rows (MakeVertex Radius Stacks Slices));
    apply lookup_seqZ_0; lia.
Qed.

Lemma GenerateVertices_length (Radius : f32) (Stacks Slices : Z) :
  0 <= Stacks -> 0 <= Slices ->
  Z.of_nat (length (GenerateVertices Radius Stacks Slices)) = (Stacks + 1) * (Slices + 1).
Proof.
  intros Hst Hsl. unfold GenerateVertices.
  rewrite (length_concat_rows (MakeVertex Radius Stacks Slices)), !length_seqZ. lia.
Qed.

Lemma QuadIndices_exact (Stacks Slices st sl : Z) :
  0 <= st < Stacks -> 0 <= sl < Slices -> (Stacks + 1) * (Slices + 1) <= INT_MAX ->
  let i (a b : Z) := (st + a) * (Slices + 1) + (sl + b) in
  QuadIndices Slices st sl = [i 0 0; i 1 0; i 0 1; i 1 0; i 1 1; i 0 1]
  /\ forall a b, 0 <= a <= 1 -> 0 <= b <= 1 ->
       0 <= i a b < (Stacks + 1) * (Slices + 1).
Proof.
  intros Hst Hsl Hmax i.
  assert (Hi : forall a b, 0 <= a <= 1 -> 0 <= b <= 1 ->
                 0 <= i a b < (Stacks + 1) * (Slices + 1)).
  { intros a b Ha Hb. unfold i. nia. }
  split; [|exact Hi].
  unfold QuadIndices, to_unsigned, INT_MAX in *.
  pose proof (Hi 0 0) as H00. pose proof (Hi 1 0) as H10.
  pose proof (Hi 0 1) as H01. pose proof (Hi 1 1) as H11. unfold i in *.
  repeat f_equal; rewrite Z.mod_small; lia.
Qed.

Lemma QuadIndices_length (Slices st sl : Z) : length (QuadIndices Slices st sl) = 6%nat.
Proof. reflexivity. Qed.

(** The indices of Sphere, as a table of quads. *)
Lemma GenerateIndices_flat (Stacks Slices : Z) :
  GenerateIndices Stacks Slices =
    concat (concat ((fun st => QuadIndices Slices st <$> seqZ 0 Slices)
                      <$> seqZ 0 Stacks)).
Proof. unfold GenerateIndices. apply (concat_rows_flat (QuadIndices Slices)). Qed.

Lemma quads_uniform (Stacks Slices : Z) :
  Forall (fun ch => length ch = 6%nat)
    (concat ((fun st => QuadIndices Slices st <$> seqZ 0 Slices) <$> seqZ 0 Stacks)).
Proof.
  apply Forall_forall. intros ch Hin.
  apply elem_of_concat in Hin as (row & Hch & Hrow).
  apply list_elem_of_fmap in Hrow as (st & -> & _).
  apply list_elem_of_fmap in Hch as (sl & -> & _). reflexivity.
Qed.

(** A sphere of Stacks x Slices quads: (Stacks + 1) (Slices + 1)
    vertices, six indices for each quad, and every index is the
    position of a vertex. *)
Theorem Sphere_indices_refer_to_vertices (Radius : f32) (Stacks Slices : Z) :
  0 <= Stacks -> 0 <= Slices -> (Stacks + 1) * (Slices + 1) <= INT_MAX ->
  let Vertices := GenerateVertices Radius Stacks Slices in
  let Indices := GenerateIndices Stacks Slices in
  Z.of_nat (length Vertices) = (Stacks + 1) * (Slices + 1)
  /\ Z.of_nat (length Indices) = 6 * Stacks * Slices
  /\ Forall (fun i => 0 <= i < Z.of_nat (length Vertices)) Indices.
Proof.
  intros Hst Hsl Hmax Vertices Indices.
  assert (Hlen : Z.of_nat (length Vertices) = (Stacks + 1) * (Slices + 1))
    by (apply GenerateVertices_length; assumption).
  split; [exact Hlen|]. split.
  - unfold Indices. rewrite GenerateIndices_flat.
    rewrite (length_concat_chunks 6) by apply quads_uniform.
    rewrite (length_concat_rows (QuadIndices Slices)), !length_seqZ. lia.
  - apply Forall_forall. intros i Hin. rewrite Hlen.
    unfold Indices, GenerateIndices in Hin.
    apply elem_of_concat in Hin as (row & Hi & Hrow).
    apply list_elem_of_fmap in Hrow as (st & -> & Hst').
    apply elem_of_concat in Hi as (q & Hi & Hq).
    apply list_elem_of_fmap in Hq as (sl & -> & Hsl').
    apply elem_of_seqZ in Hst'. apply elem_of_seqZ in Hsl'.
    destruct (QuadIndices_exact Stacks Slices st sl) as [Eq Hr]; [lia..|].
    rewrite Eq in Hi.
    repeat (apply elem_of_cons in Hi as [->|Hi]; [apply Hr; lia|]).
    inversion Hi.
Qed.

(** The quad of the grid cell (st, sl): its six indices, in the
    index list at the offset 6 (st Slices + sl), are those of the two
    triangles (v00, v10, v01) and (v10, v11, v01) over the vertices of
    the four corners of the cell, which are four different vertices. *)
Theorem Sphere_quad_is_two_triangles (Radius : f32) (Stacks Slices st sl : Z) :
  0 <= st < Stacks -> 0 <= sl < Slices -> (Stacks + 1) * (Slices + 1) <= INT_MAX ->
  let Vertices := GenerateVertices Radius Stacks Slices in
  let Indices := GenerateIndices Stacks Slices in
  exists i00 i10 i01 i11 : Z,
    take 6 (drop (Z.to_nat (6 * (st * Slices + sl))) Indices)
      = [i00; i10; i01; i10; i11; i01]
    /\ Vertices !! Z.to_nat i00 = Some (MakeVertex Radius Stacks Slices st sl)
    /\ Vertices !! Z.to_nat i10 = Some (MakeVertex Radius Stacks Slices (st + 1) sl)
    /\ Vertices !! Z.to_nat i01 = Some (MakeVertex Radius Stacks Slices st (sl + 1))
    /\ Vertices !! Z.to_nat i11
         = Some (MakeVertex Radius Stacks Slices (st + 1) (sl + 1))
    /\ 0 <= i00 /\ i00 < i01 /\ i01 < i10 /\ i10 < i11.
Proof.
  intros Hst Hsl Hmax Vertices Indices.
  destruct (QuadIndices_exact Stacks Slices st sl Hst Hsl Hmax) as [Eq Hr].
  cbv zeta in Eq, Hr.
  exists ((st + 0) * (Slices + 1) + (sl + 0)), ((st + 1) * (Slices + 1) + (sl + 0)),
         ((st + 0) * (Slices + 1) + (sl + 1)), ((st + 1) * (Slices + 1) + (sl + 1)).
  split; [|split; [|split; [|split; [|split]]]].
  - rewrite <- Eq. unfold Indices. rewrite GenerateIndices_flat.
    replace (Z.to_nat (6 * (st * Slices + sl)))
      with ((Z.to_nat st * length (seqZ 0 Slices) + Z.to_nat sl) * 6)%nat
      by (rewrite length_seqZ; lia).
    apply chunk_of_concat; [apply quads_uniform|].
    apply (lookup_concat_rows (QuadIndices Slices)); apply lookup_seqZ_0; lia.
  - rewrite !Z.add_0_r. apply GenerateVertices_lookup; lia.
  - rewrite !Z.add_0_r. apply GenerateVertices_lookup; lia.
  - rewrite !Z.add_0_r. apply GenerateVertices_lookup; lia.
  - apply GenerateVertices_lookup; lia.
  - nia.
Qed.

End SphereFacts.

(** * Properties of textures and materials *)

Section ExecFacts.
Context {S : Type}.

Lemma and_then_Ok {A B} (c : Exec S A) (k : A -> Exec S B) (s s' : S) (a : A) :
  c s = Ok a s' -> and_then c k s = k a s'.
Proof. intros E. unfold and_then. now rewrite E. Qed.

Lemma and_then_Raise {A B} (c : Exec S A) (k : A -> Exec S B) (s s' : S) (f : Fault) :
  c s = Raise f s' -> and_then c k s = Raise f s'.
Proof. intros E. unfold and_then. now rewrite E. Qed.

Lemma for_all_app {A} (f : A -> Exec S unit) (l1 l2 : list A) (s : S) :
  for_all f (l1 ++ l2) s = and_then (for_all f l1) (fun _ => for_all f l2) s.
Proof.
  revert s. induction l1 as [|a l1 IH]; intros s; [reflexivity|].
  cbn [app for_all]. unfold and_then.
  destruct (f a s) as [[] s'|fl s']; [|reflexivity].
  rewrite IH. reflexivity.
Qed.

End ExecFacts.

Section CubeMapFacts.
Context {P : Platform}.
Import Texture.

Lemma image_targets_app (l1 l2 : list Call) :
  image_targets (l1 ++ l2) = image_targets l1 ++ image_targets l2.
Proof. apply omap_app. Qed.

Lemma files_read_app (l1 l2 : list Call) :
  files_read (l1 ++ l2) = files_read l1 ++ files_read l2.
Proof. apply omap_app. Qed.

Lemma parameters_set_app (l1 l2 : list Call) :
  parameters_set (l1 ++ l2) = parameters_set l1 ++ parameters_set l2.
Proof. apply omap_app. Qed.

Lemma loaded_prefix_length (Faces : list string) :
  (length (loaded_prefix Faces) <= length Faces)%nat.
Proof.
  induction Faces as [|p Faces IH]; cbn; [lia|].
  destruct (stbi_image p); cbn; lia.
Qed.

(** The loop over the faces. *)
Lemma LoadFaces_run (Faces : list string) :
  forall i x w,
    let k := length (loaded_prefix Faces) in
    exists cs,
      LoadFaces Faces i x w =
        (bool_decide (k = length Faces), mkWorld (next_texture w) (calls w ++ cs))
      /\ image_targets cs = CubeMapFace <$> seqZ i (Z.of_nat k)
      /\ files_read cs = take (S k) Faces
      /\ parameters_set cs = [].
Proof.
  induction Faces as [|p Faces IH]; intros i x w.
  - exists []. cbn. rewrite app_nil_r. now destruct w.
  - cbn [LoadFaces loaded_prefix]. unfold LoadTextureFromFile.
    cbn [string_view.data string_view.of_string].
    destruct (stbi_image p) as [Data|] eqn:Ep.
    + cbn [negb].
      destruct (IH (i + 1) x
                  (call [stbi_load p;
                         glTexImage2D (CubeMapFace i)
                           (if ChannelNr Data =? 3 then GL_RGB else GL_RGBA)
                           (Width Data) (Height Data)] w)) as (cs & E & Hi & Hf & Hp).
      cbv zeta in E, Hi, Hf. rewrite E. cbn [call next_texture calls length].
      exists ([stbi_load p;
               glTexImage2D (CubeMapFace i)
                 (if ChannelNr Data =? 3 then GL_RGB else GL_RGBA)
                 (Width Data) (Height Data)] ++ cs).
      split; [|split; [|split]].
      * rewrite <- app_assoc. f_equal. apply bool_decide_ext. split; intros Hk; lia.
      * rewrite image_targets_app, Hi.
        rewrite (seqZ_cons i) by lia.
        replace (Z.pred (Z.of_nat (S (length (loaded_prefix Faces)))))
          with (Z.of_nat (length (loaded_prefix Faces))) by lia.
        replace (Z.succ i) with (i + 1) by lia. reflexivity.
      * rewrite files_read_app, Hf. reflexivity.
      * rewrite parameters_set_app, Hp. reflexivity.
    + cbn [negb length]. unfold HandleTextureLoadingFailure. cbn [call next_texture calls].
      eexists. split; [|split; [|split]].
      * rewrite bool_decide_eq_false_2 by lia. unfold call. cbn [next_texture calls].
        rewrite <- app_assoc. reflexivity.
      * reflexivity.
      * reflexivity.
      * reflexivity.
Qed.

(** Texture::LoadCubeMap: with a number of faces other than six it
    writes the error to std::cerr and throws, and does nothing else.
    With six, it names a new texture, reads the faces in order up to
    and including the first one that fails to load, uploads the ones
    before it to the cube map faces 0, 1, ..., returns whether all six
    loaded, and sets the five texture parameters only in that case. *)
Theorem LoadCubeMap_stops_at_the_first_failure (PathToFaces : list string)
    (MinFilter MagFilter : Z) (FlipVertical : bool) (x : t) (w : World) :
  let k := length (loaded_prefix PathToFaces) in
  if decide (length PathToFaces = 6%nat) then
    exists x' cs,
      LoadCubeMap PathToFaces MinFilter MagFilter FlipVertical (x, w)
        = Ok (bool_decide (k = 6%nat))
             (x', mkWorld (next_texture w + 1) (calls w ++ cs))
      /\ m_ID x' = next_texture w
      /\ m_TextureTarget x' = Some GL_TEXTURE_CUBE_MAP
      /\ Some (m_Path x') = head PathToFaces
      /\ m_SlotIndex x' = m_SlotIndex x /\ m_Name x' = m_Name x
      /\ image_targets cs = CubeMapFace <$> seqZ 0 (Z.of_nat k)
      /\ files_read cs = take (S k) PathToFaces
      /\ parameters_set cs =
           if bool_decide (k = 6%nat)
           then [(GL_TEXTURE_CUBE_MAP, GL_TEXTURE_MIN_FILTER, MinFilter);
                 (GL_TEXTURE_CUBE_MAP, GL_TEXTURE_MAG_FILTER, MagFilter);
                 (GL_TEXTURE_CUBE_MAP, GL_TEXTURE_WRAP_S, GL_CLAMP_TO_EDGE);
                 (GL_TEXTURE_CUBE_MAP, GL_TEXTURE_WRAP_T, GL_CLAMP_TO_EDGE);
                 (GL_TEXTURE_CUBE_MAP, GL_TEXTURE_WRAP_R, GL_CLAMP_TO_EDGE)]
           else []
  else
    let message :=
      ("CubeMap loading failed: Expected 6 faces, but received "
       ++ to_string (Z.of_nat (length PathToFaces)) ++ ".")%string in
    LoadCubeMap PathToFaces MinFilter MagFilter FlipVertical (x, w)
      = Raise (runtime_error message)
              (x, mkWorld (next_texture w) (calls w ++ [cerr message])).
Proof.
  intros k. destruct (decide (length PathToFaces = 6%nat)) as [E6|Hne].
  - unfold LoadCubeMap.
    destruct (Z.eqb_spec (Z.of_nat (length PathToFaces)) 6) as [_|Hn]; [|lia].
    cbn [negb]. unfold GenTexture.
    match goal with
    | |- context [LoadFaces ?F ?i ?y ?v] =>
      destruct (LoadFaces_run F i y v) as (cs & E & Hi & Hf & Hp)
    end.
    cbv zeta in E, Hi, Hf. fold k in E, Hi, Hf. rewrite E6 in E.
    rewrite E. unfold call in *. cbn [next_texture calls] in *.
    assert (Hhead : Some (default "" (head PathToFaces)) = head PathToFaces)
      by (destruct PathToFaces; [discriminate E6 | reflexivity]).
    destruct (bool_decide (k = 6%nat)) eqn:Ek; cbn [negb].
    + eexists _, _. split.
      { unfold SetupCubeMapParameters, call. cbn [next_texture calls].
        rewrite <- !app_assoc. reflexivity. }
      split; [reflexivity|]. split; [reflexivity|]. split; [exact Hhead|].
      split; [reflexivity|]. split; [reflexivity|].
      rewrite !image_targets_app, !files_read_app, !parameters_set_app, Hi, Hf, Hp.
      cbn. rewrite !app_nil_r. auto.
    + eexists _, _. split.
      { rewrite <- !app_assoc. reflexivity. }
      split; [reflexivity|]. split; [reflexivity|]. split; [exact Hhead|].
      split; [reflexivity|]. split; [reflexivity|].
      rewrite !image_targets_app, !files_read_app, !parameters_set_app, Hi, Hf, Hp.
      cbn. auto.
  - unfold LoadCubeMap.
    destruct (Z.eqb_spec (Z.of_nat (length PathToFaces)) 6) as [E|_]; [lia|].
    reflexivity.
Qed.

End CubeMapFacts.

Section MaterialFacts.
Context {P : Platform} {U : UnorderedMap}.
Import Material.

Lemma SetTexture_run (TextureName : string_view.t) (a : nat) (tx : Texture.t)
    (x : Material.t) (h : Heap) :
  textures h !! a = Some tx ->
  SetTexture TextureName (Some a) (x, h) =
    Ok tt (set_Textures (<[string_view.data TextureName := Some a]> (m_Textures x)) x,
           {| textures :=
                <[a := Texture.SetSlotIndex (to_int8 (Z.of_nat (size (m_Textures x)))) tx]>
                  (textures h);
              gl := gl h |}).
Proof.
  intros E. unfold SetTexture, Log.Assert.
  rewrite bool_decide_eq_true_2 by eauto.
  unfold and_then, pure, get, update_texture. cbn. now rewrite E.
Qed.

Lemma SetTexture_null (TextureName : string_view.t) (s : State) :
  SetTexture TextureName None s =
    Raise (runtime_error "Texture initialized was not valid...")
          (write [cerr "Texture initialized was not valid..."] s).
Proof.
  unfold SetTexture, Log.Assert.
  rewrite bool_decide_eq_false_2 by (intros [? Hn]; discriminate Hn).
  reflexivity.
Qed.

Lemma to_int8_small (z : Z) : 0 <= z < 128 -> to_int8 z = z.
Proof. intros Hz. unfold to_int8. rewrite Z.mod_small; lia. Qed.

(** A run of SetTexture under names that are not bound yet, with
    textures that are all different. *)
Lemma SetTextures_fresh (binds : list (string_view.t * nat)) :
  forall (x : Material.t) (h : Heap),
    NoDup (key_of <$> binds) -> NoDup (snd <$> binds) ->
    (forall name, name ∈ key_of <$> binds -> m_Textures x !! name = None) ->
    (forall a, a ∈ snd <$> binds -> is_Some (textures h !! a)) ->
    (size (m_Textures x) + length binds <= 128)%nat ->
    exists x' h',
      SetTextures binds (x, h) = Ok tt (x', h')
      /\ gl h' = gl h
      /\ m_ShaderProgram x' = m_ShaderProgram x
      /\ size (m_Textures x') = (size (m_Textures x) + length binds)%nat
      /\ (forall k name a, binds !! k = Some (name, a) ->
            m_Textures x' !! string_view.data name = Some (Some a)
            /\ textures h' !! a =
                 Texture.SetSlotIndex (Z.of_nat (size (m_Textures x) + k))
                   <$> textures h !! a)
      /\ (forall name, name ∉ key_of <$> binds ->
            m_Textures x' !! name = m_Textures x !! name)
      /\ (forall a, a ∉ snd <$> binds -> textures h' !! a = textures h !! a).
Proof.
  induction binds as [|[view a] binds IH]; intros x h Hn Ha Hfresh Hval Hsize.
  - exists x, h. split; [reflexivity|]. split; [reflexivity|]. split; [reflexivity|].
    split; [cbn; lia|]. split; [intros k ? ? Ek; inversion Ek|]. auto.
  - cbn [fmap list_fmap fst snd] in *.
    change (key_of (view, a)) with (string_view.data view) in *.
    set (name := string_view.data view) in *.
    apply NoDup_cons in Hn as [Hn1 Hn]. apply NoDup_cons in Ha as [Ha1 Ha].
    destruct (Hval a) as [tx Etx]; [left|].
    cbn [length] in Hsize.
    set (x1 := set_Textures (<[name := Some a]> (m_Textures x)) x).
    set (h1 := {| textures :=
                    <[a := Texture.SetSlotIndex
                             (to_int8 (Z.of_nat (size (m_Textures x)))) tx]>
                      (textures h);
                  gl := gl h |}).
    assert (Hsz1 : size (m_Textures x1) = S (size (m_Textures x))).
    { unfold x1. cbn. apply map_size_insert_None. apply Hfresh. left. }
    destruct (IH x1 h1 Hn Ha) as (x' & h' & E & Hgl & Hsh & Hsz & Hk & Hothers & Hheap).
    { intros nm Hnm. unfold x1. cbn. rewrite lookup_insert_ne.
      - apply Hfresh. now right.
      - intros ->. contradiction. }
    { intros b Hb. unfold h1. cbn.
      destruct (decide (a = b)) as [->|Hne]; [contradiction|].
      rewrite lookup_insert_ne by exact Hne. apply Hval. now right. }
    { rewrite Hsz1. lia. }
    exists x', h'. split.
    { unfold SetTextures. cbn [for_all fst snd].
      erewrite and_then_Ok by (apply SetTexture_run; exact Etx). exact E. }
    split; [exact Hgl|]. split; [exact Hsh|]. split; [rewrite Hsz, Hsz1; cbn [length]; lia|].
    split; [|split].
    + intros k nm b Ek. destruct k as [|k].
      * cbn in Ek. inversion Ek; subst nm b.
        rewrite Hothers by exact Hn1. rewrite Hheap by exact Ha1.
        unfold x1, h1. cbn. rewrite !lookup_insert_eq, Etx. cbn.
        rewrite to_int8_small by lia. now rewrite Nat.add_0_r.
      * cbn in Ek. destruct (Hk k nm b Ek) as [H1 H2]. split; [exact H1|].
        rewrite H2, Hsz1.
        assert (Hb : b ∈ binds.*2).
        { apply list_elem_of_fmap. exists (nm, b). split; [reflexivity|].
          eapply list_elem_of_lookup_2. exact Ek. }
        unfold h1. cbn [textures].
        rewrite lookup_insert_ne by (intros ->; contradiction).
        do 2 f_equal. lia.
    + intros nm Hnm. apply not_elem_of_cons in Hnm as [Hne Hnm].
      rewrite Hothers by exact Hnm. unfold x1. cbn.
      now rewrite lookup_insert_ne by congruence.
    + intros b Hb. apply not_elem_of_cons in Hb as [Hne Hb].
      rewrite Hheap by exact Hb. unfold h1. cbn.
      now rewrite lookup_insert_ne by congruence.
Qed.

(** Textures set under different keys (the C strings at the
    [data()] of the views given as names) get the slots 0, 1, 2, ...
    in the order of the calls, and each is found under its key. *)
Theorem SetTexture_assigns_consecutive_slots (Shader : option Z)
    (binds : list (string_view.t * nat)) (h : Heap) :
  NoDup (string_view.data <$> (fst <$> binds)) -> NoDup (snd <$> binds) ->
  (forall a, a ∈ snd <$> binds -> is_Some (textures h !! a)) ->
  (length binds <= 128)%nat ->
  exists x' h',
    SetTextures binds (Material.new Shader, h) = Ok tt (x', h')
    /\ gl h' = gl h
    /\ size (m_Textures x') = length binds
    /\ (forall k name a, binds !! k = Some (name, a) ->
          m_Textures x' !! string_view.data name = Some (Some a)
          /\ textures h' !! a = Texture.SetSlotIndex (Z.of_nat k) <$> textures h !! a)
    /\ (forall a, a ∉ snd <$> binds -> textures h' !! a = textures h !! a).
Proof.
  intros Hn Ha Hval Hlen.
  assert (Hn' : NoDup (key_of <$> binds)).
  { rewrite <- list_fmap_compose in Hn. exact Hn. }
  destruct (SetTextures_fresh binds (Material.new Shader) h Hn' Ha)
    as (x' & h' & E & Hgl & _ & Hsz & Hk & _ & Hheap).
  - intros name _. apply lookup_empty.
  - exact Hval.
  - cbn. rewrite map_size_empty. lia.
  - exists x', h'. cbn in Hsz, Hk. rewrite map_size_empty in Hsz, Hk.
    split; [exact E|]. split; [exact Hgl|]. split; [exact Hsz|].
    split; [exact Hk | exact Hheap].
Qed.

Lemma last_bound_cons (Key : string) (b : string_view.t * nat)
    (binds : list (string_view.t * nat)) :
  last_bound Key (b :: binds) =
    match last_bound Key binds with
    | Some a => Some a
    | None => if decide (key_of b = Key) then Some b.2 else None
    end.
Proof.
  unfold last_bound. rewrite filter_cons.
  destruct (decide (key_of b = Key)) as [E|Hne].
  - destruct (filter _ binds) as [|c l] eqn:Ef; [reflexivity|].
    rewrite last_cons. destruct (last (c :: l)) eqn:El; [reflexivity|].
    apply last_None in El. discriminate El.
  - now destruct (snd <$> last _).
Qed.

(** A run of SetTexture, whatever the names and the textures. *)
Lemma SetTextures_run (binds : list (string_view.t * nat)) :
  forall (x : Material.t) (h : Heap),
    (forall a, a ∈ snd <$> binds -> is_Some (textures h !! a)) ->
    exists x' h',
      SetTextures binds (x, h) = Ok tt (x', h')
      /\ gl h' = gl h
      /\ m_ShaderProgram x' = m_ShaderProgram x
      /\ dom (textures h') = dom (textures h)
      /\ forall name,
           m_Textures x' !! name =
             match last_bound name binds with
             | Some a => Some (Some a)
             | None => m_Textures x !! name
             end.
Proof.
  induction binds as [|[view a] binds IH]; intros x h Hval.
  - exists x, h. repeat split; reflexivity.
  - cbn [fmap list_fmap snd] in Hval. destruct (Hval a) as [tx Etx]; [left|].
    set (name := string_view.data view).
    set (x1 := set_Textures (<[name := Some a]> (m_Textures x)) x).
    set (h1 := {| textures :=
                    <[a := Texture.SetSlotIndex
                             (to_int8 (Z.of_nat (size (m_Textures x)))) tx]>
                      (textures h);
                  gl := gl h |}).
    assert (Hdom : dom (textures h1) = dom (textures h)).
    { unfold h1. cbn. apply dom_insert_lookup_L. eauto. }
    destruct (IH x1 h1) as (x' & h' & E & Hgl & Hsh & Hd & Hlook).
    { intros b Hb. apply elem_of_dom. rewrite Hdom. apply elem_of_dom.
      apply Hval. now right. }
    exists x', h'. split.
    { unfold SetTextures. cbn [for_all fst snd].
      erewrite and_then_Ok by (apply SetTexture_run; exact Etx). exact E. }
    split; [exact Hgl|]. split; [exact Hsh|]. split; [congruence|].
    intros nm. rewrite Hlook, last_bound_cons. unfold key_of. cbn [fst snd].
    fold name. destruct (last_bound nm binds); [reflexivity|].
    unfold x1. cbn. destruct (decide (name = nm)) as [->|Hne].
    + now rewrite lookup_insert_eq.
    + now rewrite lookup_insert_ne.
Qed.

(** GetTexture hands out the texture of the last SetTexture whose
    key was the key now looked up (the C string at the [data()] of the
    view); for a key that was never written it writes to std::cerr and
    throws, naming the characters of the view. *)
Theorem GetTexture_finds_the_last_texture_set (Shader : option Z)
    (binds : list (string_view.t * nat)) (h : Heap) (TextureName : string_view.t) :
  (forall a, a ∈ snd <$> binds -> is_Some (textures h !! a)) ->
  exists s',
    SetTextures binds (Material.new Shader, h) = Ok tt s'
    /\ GetTexture TextureName s' =
         match last_bound (string_view.data TextureName) binds with
         | Some a => Ok (Some a) s'
         | None =>
           let message :=
             ("Failed to retrieve texture: " ++ dquote
              ++ string_view.str TextureName ++ dquote
              ++ ". Ensure the texture name is correct and matches the expected value.")%string in
           Raise (runtime_error message)
                 (s'.1, {| textures := textures s'.2;
                           gl := mkWorld (next_texture (gl s'.2))
                                         (calls (gl s'.2) ++ [cerr message]) |})
         end.
Proof.
  intros Hval.
  destruct (SetTextures_run binds (Material.new Shader) h Hval)
    as (x' & h' & E & _ & _ & _ & Hlook).
  exists (x', h'). split; [exact E|].
  unfold GetTexture, and_then, get. cbn. rewrite Hlook.
  destruct (last_bound (string_view.data TextureName) binds); [reflexivity|].
  cbn. rewrite lookup_empty. reflexivity.
Qed.

Lemma ActivateTextures_run (entries : list (string * option nat)) :
  forall (x : Material.t) (h : Heap),
    Forall (fun e : string * option nat =>
              exists a, e.2 = Some a /\ is_Some (textures h !! a)) entries ->
    for_all ActivateTexture entries (x, h) =
      Ok tt (x, {| textures := textures h;
                   gl := call (concat (activation h <$> entries)) (gl h) |}).
Proof.
  induction entries as [|[name v] entries IH]; intros x h Hall.
  - cbn. unfold pure, call. rewrite app_nil_r. now destruct h as [tx [n cs]].
  - apply Forall_cons in Hall as [(a & Ea & [tx Etx]) Hall]. cbn in Ea. subst v.
    cbn [for_all]. unfold and_then at 1. unfold ActivateTexture at 1. cbn [fst snd].
    rewrite Etx. rewrite IH by exact Hall. cbn [textures gl].
    cbn [fmap list_fmap concat]. unfold activation at 2. cbn [fst snd]. rewrite Etx.
    unfold Texture.Activate, call. cbn [next_texture calls].
    now rewrite <- app_assoc.
Qed.

Lemma Activate_run (x : Material.t) (h : Heap) :
  Activate (x, h) =
    match m_ShaderProgram x with
    | None =>
      Raise (runtime_error "Shader program is null or uninitialized. Ensure a valid shader program is assigned to this material before activation.")
            (write [cerr "Shader program is null or uninitialized. Ensure a valid shader program is assigned to this material before activation."]
                   (x, h))
    | Some program =>
      and_then (for_all ActivateTexture (iteration (m_Textures x)))
               (fun _ => pure tt)
               (x, {| textures := textures h;
                      gl := call [glUseProgram program] (gl h) |})
    end.
Proof.
  unfold Activate, and_then, get. cbn.
  destruct (m_ShaderProgram x); reflexivity.
Qed.

(** Material::Activate: without a shader it writes to std::cerr
    and throws before it touches OpenGL; with one, it selects the
    program and then binds every texture of the material once, none of
    them null, in the order in which the iteration of the
    unordered_map yields them. *)
Theorem Activate_binds_every_texture_once (Shader : option Z)
    (binds : list (string_view.t * nat)) (h : Heap) :
  (forall a, a ∈ snd <$> binds -> is_Some (textures h !! a)) ->
  exists x' h',
    SetTextures binds (Material.new Shader, h) = Ok tt (x', h')
    /\ let entries := iteration (m_Textures x') in
       NoDup (fst <$> entries)
       /\ (forall name, name ∈ fst <$> entries <-> name ∈ key_of <$> binds)
       /\ Forall (fun e : string * option nat =>
                    exists a, e.2 = Some a /\ is_Some (textures h' !! a)) entries
       /\ match Shader with
          | None =>
            let message :=
              "Shader program is null or uninitialized. Ensure a valid shader program is assigned to this material before activation."%string in
            Activate (x', h') =
              Raise (runtime_error message)
                    (x', {| textures := textures h';
                            gl := call [cerr message] (gl h') |})
          | Some program =>
            Activate (x', h') =
              Ok tt (x', {| textures := textures h';
                            gl := call (glUseProgram program
                                        :: concat (activation h' <$> entries))
                                       (gl h') |})
          end.
Proof.
  intros Hval.
  destruct (SetTextures_run binds (Material.new Shader) h Hval)
    as (x' & h' & E & _ & Hsh & Hdom & Hlook).
  exists x', h'. split; [exact E|]. cbv zeta.
  pose proof (iteration_Permutation (m_Textures x')) as Hperm.
  assert (Hbound : forall name v, m_Textures x' !! name = Some v ->
            exists a, v = Some a /\ last_bound name binds = Some a).
  { intros name v Hv. rewrite Hlook in Hv.
    destruct (last_bound name binds) as [a|]; [inversion Hv; eauto|].
    cbn in Hv. rewrite lookup_empty in Hv. discriminate Hv. }
  assert (Hin : forall name a, last_bound name binds = Some a ->
            exists view, string_view.data view = name /\ (view, a) ∈ binds).
  { intros name a Hl. unfold last_bound in Hl.
    destruct (last (filter _ binds)) as [[view b]|] eqn:El; [|discriminate Hl].
    cbn in Hl. inversion Hl; subst b.
    apply last_Some_elem_of, list_elem_of_filter in El as [Hnm Hb].
    exists view. split; [exact Hnm | exact Hb]. }
  assert (Hentry : forall name v,
            (name, v) ∈ iteration (m_Textures x') <-> m_Textures x' !! name = Some v).
  { intros name v. rewrite Hperm. apply elem_of_map_to_list. }
  assert (Hall : Forall (fun e : string * option nat =>
                    exists a, e.2 = Some a /\ is_Some (textures h' !! a))
                   (iteration (m_Textures x'))).
  { apply Forall_forall. intros [name v] He. apply Hentry in He.
    destruct (Hbound name v He) as (a & -> & Hl). exists a. split; [reflexivity|].
    apply elem_of_dom. rewrite Hdom. apply elem_of_dom. apply Hval.
    destruct (Hin name a Hl) as (view & _ & Hb).
    apply list_elem_of_fmap. exists (view, a). split; [reflexivity | exact Hb]. }
  split; [rewrite Hperm; apply NoDup_fst_map_to_list|]. split; [|split; [exact Hall|]].
  - intros name. split.
    + intros Hnm. apply list_elem_of_fmap in Hnm as ([nm v] & -> & Hv).
      apply Hentry in Hv. cbn [fst].
      destruct (Hbound nm v Hv) as (a & _ & Hl).
      destruct (Hin nm a Hl) as (view & Ev & Hb).
      apply list_elem_of_fmap. exists (view, a). split; [now rewrite <- Ev | exact Hb].
    + intros Hnm.
      assert (Hs : is_Some (m_Textures x' !! name)).
      2:{ destruct Hs as [v Hv]. apply list_elem_of_fmap. exists (name, v).
          split; [reflexivity|]. now apply Hentry. }
      rewrite Hlook.
      destruct (last_bound name binds) as [a|] eqn:El; [eauto|].
      exfalso. apply list_elem_of_fmap in Hnm as ([view a] & -> & Hb).
      unfold last_bound in El. apply fmap_None, last_None in El.
      assert (Hf : (view, a) ∈ filter (fun b : string_view.t * nat =>
                                         key_of b = key_of (view, a)) binds)
        by (apply list_elem_of_filter; split; [reflexivity | exact Hb]).
      rewrite El in Hf. inversion Hf.
  - rewrite Activate_run, Hsh. cbn [m_ShaderProgram Material.new].
    destruct Shader as [program|]; [|reflexivity].
    erewrite and_then_Ok by (apply ActivateTextures_run; exact Hall).
    unfold pure, call. cbn [textures gl next_texture calls].
    now rewrite <- app_assoc.
Qed.

End MaterialFacts.

(** * Properties of the input manager *)

Section InputFacts.
Context {U : UnorderedMap}.
Import InputManager.

Lemma omap_pointwise {A B} (f g : A -> option B) (l : list A) :
  (forall a, f a = g a) -> omap f l = omap g l.
Proof.
  intros Hfg. induction l as [|a l IH]; [reflexivity|].
  cbn. now rewrite Hfg, IH.
Qed.

Lemma subscript_value (Key : Z) (m : gmap Z bool) : (subscript Key m).1 = held m Key.
Proof. unfold subscript, held. now destruct (m !! Key). Qed.

Lemma subscript_lookup (Key k : Z) (m : gmap Z bool) :
  (subscript Key m).2 !! k = if decide (k = Key) then Some (held m Key) else m !! k.
Proof.
  unfold subscript, held. destruct (m !! Key) eqn:E; cbn.
  - destruct (decide (k = Key)) as [->|]; [exact E | reflexivity].
  - destruct (decide (k = Key)) as [->|Hne].
    + apply lookup_insert_eq.
    + now apply lookup_insert_ne.
Qed.

Lemma subscript_held (Key k : Z) (m : gmap Z bool) :
  held (subscript Key m).2 k = held m k.
Proof.
  unfold held at 1. rewrite subscript_lookup.
  destruct (decide (k = Key)) as [->|]; reflexivity.
Qed.

Lemma UpdateKey_spec (IsPressed : bool) (x : t) (Key : Z) :
  let x' := UpdateKey IsPressed x Key in
  m_OnPressedCallbacks x' = m_OnPressedCallbacks x
  /\ m_OnTriggeredCallbacks x' = m_OnTriggeredCallbacks x
  /\ m_OnReleasedCallbacks x' = m_OnReleasedCallbacks x
  /\ (forall k, m_PreviousKeyStates x' !! k =
        if decide (k = Key) then Some (held (m_PreviousKeyStates x) Key)
        else m_PreviousKeyStates x !! k)
  /\ (forall k, m_CurrentKeyStates x' !! k =
        if decide (k = Key)
        then next_state IsPressed (held (m_PreviousKeyStates x) Key)
                        (m_CurrentKeyStates x !! k)
        else m_CurrentKeyStates x !! k).
Proof.
  cbv zeta. unfold UpdateKey.
  pose proof (subscript_value Key (m_PreviousKeyStates x)) as Hv.
  pose proof (fun k => subscript_lookup Key k (m_PreviousKeyStates x)) as Hl.
  destruct (subscript Key (m_PreviousKeyStates x)) as [previous m]. cbn in Hv, Hl.
  subst previous. unfold next_state.
  destruct IsPressed, (held (m_PreviousKeyStates x) Key); cbn;
    repeat split; try apply Hl; intros k;
    destruct (decide (k = Key)) as [->|Hne];
    rewrite ?lookup_insert_eq, ?lookup_insert_ne by congruence; reflexivity.
Qed.

(** The loop of [UpdateKeyState], over keys that are all different. *)
Lemma UpdateKeys_spec (glfwGetKey : Z -> bool) (ks : list Z) :
  NoDup ks ->
  forall x,
    let x' := fold_left (fun x Key => UpdateKey (glfwGetKey Key) x Key) ks x in
    m_OnPressedCallbacks x' = m_OnPressedCallbacks x
    /\ m_OnTriggeredCallbacks x' = m_OnTriggeredCallbacks x
    /\ m_OnReleasedCallbacks x' = m_OnReleasedCallbacks x
    /\ (forall k, m_PreviousKeyStates x' !! k =
          if bool_decide (k ∈ ks) then Some (held (m_PreviousKeyStates x) k)
          else m_PreviousKeyStates x !! k)
    /\ (forall k, m_CurrentKeyStates x' !! k =
          if bool_decide (k ∈ ks)
          then next_state (glfwGetKey k) (held (m_PreviousKeyStates x) k)
                          (m_CurrentKeyStates x !! k)
          else m_CurrentKeyStates x !! k).
Proof.
  induction 1 as [|Key ks Hnotin Hnd IH]; intros x.
  - cbn. repeat split; reflexivity.
  - cbn [fold_left].
    destruct (UpdateKey_spec (glfwGetKey Key) x Key) as (U1 & U2 & U3 & U4 & U5).
    destruct (IH (UpdateKey (glfwGetKey Key) x Key)) as (I1 & I2 & I3 & I4 & I5).
    cbv zeta in *.
    split; [congruence|]. split; [congruence|]. split; [congruence|]. split.
    + intros k. rewrite I4, U4. unfold held at 1. rewrite U4.
      destruct (decide (k = Key)) as [->|Hne].
      * rewrite (bool_decide_eq_false_2 _ Hnotin).
        rewrite bool_decide_eq_true_2 by left. reflexivity.
      * destruct (decide (k ∈ ks)) as [Hin|Hnin].
        -- rewrite !bool_decide_eq_true_2; [reflexivity | now right | exact Hin].
        -- rewrite !bool_decide_eq_false_2; [reflexivity | | exact Hnin].
           rewrite not_elem_of_cons. now split.
    + intros k. rewrite I5, U5. unfold held at 1. rewrite U4.
      destruct (decide (k = Key)) as [->|Hne].
      * rewrite (bool_decide_eq_false_2 _ Hnotin).
        rewrite bool_decide_eq_true_2 by left. reflexivity.
      * destruct (decide (k ∈ ks)) as [Hin|Hnin].
        -- rewrite !bool_decide_eq_true_2; [reflexivity | now right | exact Hin].
        -- rewrite !bool_decide_eq_false_2; [reflexivity | | exact Hnin].
           rewrite not_elem_of_cons. now split.
Qed.

Lemma polled_seqZ (k : Z) :
  bool_decide (k ∈ seqZ 0 (GLFW_KEY_LAST + 1)) = polled k.
Proof.
  unfold polled, GLFW_KEY_LAST.
  destruct (Z.leb_spec 0 k), (Z.leb_spec k 348); cbn;
    [apply bool_decide_eq_true_2 | apply bool_decide_eq_false_2
     | apply bool_decide_eq_false_2 | apply bool_decide_eq_false_2];
    rewrite elem_of_seqZ; lia.
Qed.

Lemma UpdateKeyState_spec (glfwGetKey : Z -> bool) (x : t) :
  let x' := UpdateKeyState glfwGetKey x in
  let current := m_CurrentKeyStates x in
  m_OnPressedCallbacks x' = m_OnPressedCallbacks x
  /\ m_OnTriggeredCallbacks x' = m_OnTriggeredCallbacks x
  /\ m_OnReleasedCallbacks x' = m_OnReleasedCallbacks x
  /\ (forall k, m_PreviousKeyStates x' !! k =
        if polled k then Some (held current k) else current !! k)
  /\ (forall k, m_CurrentKeyStates x' !! k =
        if polled k then next_state (glfwGetKey k) (held current k) (current !! k)
        else current !! k).
Proof.
  cbv zeta. unfold UpdateKeyState.
  destruct (UpdateKeys_spec glfwGetKey (seqZ 0 (GLFW_KEY_LAST + 1))
              (NoDup_seqZ _ _) (set_Previous (m_CurrentKeyStates x) x))
    as (U1 & U2 & U3 & U4 & U5).
  cbv zeta in *. cbn [set_Previous m_PreviousKeyStates m_CurrentKeyStates
                      m_OnPressedCallbacks m_OnTriggeredCallbacks
                      m_OnReleasedCallbacks] in *.
  split; [exact U1|]. split; [exact U2|]. split; [exact U3|]. split.
  - intros k. rewrite U4, polled_seqZ. reflexivity.
  - intros k. rewrite U5, polled_seqZ. reflexivity.
Qed.

Lemma held_after_update (glfwGetKey : Z -> bool) (x : t) (k : Z) :
  held (m_CurrentKeyStates (UpdateKeyState glfwGetKey x)) k =
    if polled k then glfwGetKey k else held (m_CurrentKeyStates x) k.
Proof.
  destruct (UpdateKeyState_spec glfwGetKey x) as (_ & _ & _ & _ & U5).
  cbv zeta in U5. unfold held at 1. rewrite U5. unfold next_state, held.
  destruct (polled k); [|reflexivity].
  destruct (glfwGetKey k), (m_CurrentKeyStates x !! k) as [[]|]; reflexivity.
Qed.

Lemma held_previous_after_update (glfwGetKey : Z -> bool) (x : t) (k : Z) :
  held (m_PreviousKeyStates (UpdateKeyState glfwGetKey x)) k =
    held (m_CurrentKeyStates x) k.
Proof.
  destruct (UpdateKeyState_spec glfwGetKey x) as (_ & _ & _ & U4 & _).
  cbv zeta in U4. unfold held at 1. rewrite U4.
  now destruct (polled k).
Qed.

(** After UpdateKeyState the three key queries tell the edges
    between what GLFW reported at the previous update and what it
    reports now. *)
Theorem UpdateKeyState_detects_the_edges (glfwGetKey : Z -> bool) (x : t) (Key : Z) :
  let x' := UpdateKeyState glfwGetKey x in
  let was_down := IsKeyTriggered Key x in
  IsKeyTriggered Key x' = (if polled Key then glfwGetKey Key else was_down)
  /\ IsKeyPressed Key x' = Some (polled Key && glfwGetKey Key && negb was_down)
  /\ IsKeyReleased Key x' = Some (polled Key && negb (glfwGetKey Key) && was_down).
Proof.
  cbv zeta.
  destruct (UpdateKeyState_spec glfwGetKey x) as (_ & _ & _ & U4 & U5).
  cbv zeta in U4, U5.
  unfold IsKeyTriggered, IsKeyPressed, IsKeyReleased.
  rewrite U4, U5. unfold next_state, held.
  destruct (polled Key), (glfwGetKey Key),
    (m_CurrentKeyStates x !! Key) as [[]|]; cbn; repeat split; reflexivity.
Qed.

Lemma same_keys_refl (x : t) : same_keys x x.
Proof. unfold same_keys. repeat split; reflexivity. Qed.

Lemma same_keys_trans (x y z : t) : same_keys x y -> same_keys y z -> same_keys x z.
Proof.
  intros (A1 & A2 & A3 & A4 & A5) (B1 & B2 & B3 & B4 & B5).
  unfold same_keys. split; [intros k; rewrite B1; apply A1|].
  split; [intros k; rewrite B2; apply A2|]. repeat split; congruence.
Qed.

Lemma Current_run (Key : Z) (s : State) :
  exists x', Current Key s = Ok (held (m_CurrentKeyStates (self s)) Key)
                                (mkState x' (events s))
             /\ same_keys (self s) x'.
Proof.
  unfold Current.
  pose proof (subscript_value Key (m_CurrentKeyStates (self s))) as Hv.
  pose proof (fun k => subscript_held Key k (m_CurrentKeyStates (self s))) as Hh.
  destruct (subscript Key (m_CurrentKeyStates (self s))) as [v m]. cbn in Hv, Hh.
  subst v. eexists. split; [reflexivity|]. unfold same_keys. repeat split; auto.
Qed.

Lemma Previous_run (Key : Z) (s : State) :
  exists x', Previous Key s = Ok (held (m_PreviousKeyStates (self s)) Key)
                                 (mkState x' (events s))
             /\ same_keys (self s) x'.
Proof.
  unfold Previous.
  pose proof (subscript_value Key (m_PreviousKeyStates (self s))) as Hv.
  pose proof (fun k => subscript_held Key k (m_PreviousKeyStates (self s))) as Hh.
  destruct (subscript Key (m_PreviousKeyStates (self s))) as [v m]. cbn in Hv, Hh.
  subst v. eexists. split; [reflexivity|]. unfold same_keys. repeat split; auto.
Qed.

Section Loops.
Context (glfwGetKeyName : Z -> string).

Lemma InvokeCallback_run (c : nat) (Key : Z) (EventType : string_view.t) (s : State) :
  InvokeCallback glfwGetKeyName (Some c) Key EventType s =
    Ok tt (mkState (self s) (events s ++ [Invoke c])).
Proof. reflexivity. Qed.

Lemma PressedEvent_fires : fires (PressedEvent glfwGetKeyName) pressed_now.
Proof.
  intros [Key cb] s [c Hc]. cbn in Hc. subst cb. unfold PressedEvent, pressed_now. cbn [fst snd].
  destruct (Current_run Key s) as (x1 & E1 & S1).
  erewrite and_then_Ok by exact E1.
  destruct (held (m_CurrentKeyStates (self s)) Key) eqn:Ec; cbn [andb].
  - destruct (Previous_run Key (mkState x1 (events s))) as (x2 & E2 & S2).
    erewrite and_then_Ok by exact E2. cbn [self events] in *.
    pose proof S1 as (_ & S1p & _). rewrite S1p.
    destruct (held (m_PreviousKeyStates (self s)) Key); cbn.
    + exists x2. rewrite app_nil_r. split; [reflexivity|].
      eapply same_keys_trans; eassumption.
    + exists x2. split; [reflexivity|]. eapply same_keys_trans; eassumption.
  - exists x1. unfold pure. rewrite app_nil_r. split; [reflexivity | exact S1].
Qed.

Lemma TriggeredEvent_fires : fires (TriggeredEvent glfwGetKeyName) down_now.
Proof.
  intros [Key cb] s [c Hc]. cbn in Hc. subst cb. unfold TriggeredEvent, down_now. cbn [fst snd].
  destruct (Current_run Key s) as (x1 & E1 & S1).
  erewrite and_then_Ok by exact E1.
  destruct (held (m_CurrentKeyStates (self s)) Key) eqn:Ec.
  - exists x1. split; [reflexivity | exact S1].
  - exists x1. unfold pure. rewrite app_nil_r. split; [reflexivity | exact S1].
Qed.

Lemma ReleasedEvent_fires : fires (ReleasedEvent glfwGetKeyName) released_now.
Proof.
  intros [Key cb] s [c Hc]. cbn in Hc. subst cb. unfold ReleasedEvent, released_now. cbn [fst snd].
  destruct (Current_run Key s) as (x1 & E1 & S1).
  erewrite and_then_Ok by exact E1.
  destruct (held (m_CurrentKeyStates (self s)) Key) eqn:Ec; cbn [andb negb].
  - exists x1. unfold pure. rewrite app_nil_r. split; [reflexivity | exact S1].
  - destruct (Previous_run Key (mkState x1 (events s))) as (x2 & E2 & S2).
    erewrite and_then_Ok by exact E2. cbn [self events] in *.
    pose proof S1 as (_ & S1p & _). rewrite S1p.
    destruct (held (m_PreviousKeyStates (self s)) Key); cbn.
    + exists x2. split; [reflexivity|]. eapply same_keys_trans; eassumption.
    + exists x2. rewrite app_nil_r. split; [reflexivity|].
      eapply same_keys_trans; eassumption.
Qed.

Lemma same_keys_cond (x x' : t) (k : Z) :
  same_keys x x' ->
  pressed_now x' k = pressed_now x k /\ down_now x' k = down_now x k
  /\ released_now x' k = released_now x k.
Proof.
  intros (S1 & S2 & _). unfold pressed_now, down_now, released_now.
  now rewrite S1, S2.
Qed.

(** A loop over the entries of a map of callbacks. *)
Lemma loop_fires (body : Z * Callback -> Exec State unit) (cond : t -> Z -> bool)
    (entries : list (Z * Callback)) :
  fires body cond ->
  (forall x x' k, same_keys x x' -> cond x' k = cond x k) ->
  Forall (fun e : Z * Callback => is_Some e.2) entries ->
  forall s,
    exists x',
      for_all body entries s =
        Ok tt (mkState x'
                 (events s
                  ++ omap (fun e : Z * Callback =>
                             if cond (self s) e.1 then Invoke <$> e.2 else None)
                          entries))
      /\ same_keys (self s) x'.
Proof.
  intros Hbody Hcond Hall. induction Hall as [|e entries He _ IH]; intros s.
  - exists (self s). cbn. unfold pure. rewrite app_nil_r.
    split; [now destruct s | apply same_keys_refl].
  - destruct (Hbody e s He) as (x1 & E1 & S1).
    destruct (IH (mkState x1 (events s
                              ++ if cond (self s) e.1
                                 then option_list (Invoke <$> e.2) else [])))
      as (x2 & E2 & S2).
    cbn [self events] in *.
    exists x2. split; [|eapply same_keys_trans; eassumption].
    cbn [for_all]. erewrite and_then_Ok by exact E1. rewrite E2.
    rewrite <- app_assoc. do 3 f_equal.
    cbn [omap list_omap]. destruct He as [c Hc]. rewrite Hc.
    rewrite (omap_pointwise _ (fun e0 : Z * Callback =>
                                 if cond (self s) e0.1 then Invoke <$> e0.2 else None)).
    + destruct (cond (self s) e.1); reflexivity.
    + intros e0. now rewrite (Hcond (self s) x1 e0.1 S1).
Qed.

Lemma callable_entries (m : gmap Z Callback) :
  (forall Key cb, m !! Key = Some cb -> is_Some cb) ->
  Forall (fun e : Z * Callback => is_Some e.2) (iteration m).
Proof.
  intros Hm. apply Forall_forall. intros [k cb] He.
  rewrite iteration_Permutation in He.
  apply elem_of_map_to_list in He. cbn. eauto.
Qed.

Lemma IsKeyTriggered_held (k : Z) (x : t) :
  IsKeyTriggered k x = held (m_CurrentKeyStates x) k.
Proof. unfold IsKeyTriggered, held. now destruct (m_CurrentKeyStates x !! k). Qed.

(** The three loops, one after the other. *)
Lemma ProcessRegisteredEvents_run (x0 : t) (evs : list InputEvent) :
  callable x0 ->
  exists x3,
    ProcessRegisteredEvents glfwGetKeyName (mkState x0 evs) =
      Ok tt (mkState x3
               (evs ++ fired (pressed_now x0) (m_OnPressedCallbacks x0)
                    ++ fired (down_now x0) (m_OnTriggeredCallbacks x0)
                    ++ fired (released_now x0) (m_OnReleasedCallbacks x0)))
    /\ same_keys x0 x3.
Proof.
  intros (Hp & Ht & Hr). unfold ProcessRegisteredEvents.
  destruct (loop_fires _ pressed_now (iteration (m_OnPressedCallbacks x0))
              PressedEvent_fires
              (fun a b k Hs => proj1 (same_keys_cond a b k Hs))
              (callable_entries (m_OnPressedCallbacks x0) Hp)
              (mkState x0 evs)) as (x1 & E1 & S1).
  cbn [self events] in E1, S1.
  erewrite and_then_Ok.
  2:{ unfold ProcessPressedEvents, and_then, get. cbn [self]. exact E1. }
  pose proof S1 as (_ & _ & C1p & C1t & C1r).
  match type of E1 with
  | _ = Ok tt ?s1 =>
    destruct (loop_fires _ down_now (iteration (m_OnTriggeredCallbacks x1))
                TriggeredEvent_fires
                (fun a b k Hs => proj1 (proj2 (same_keys_cond a b k Hs)))
                (callable_entries (m_OnTriggeredCallbacks x1)
                   ltac:(rewrite C1t; exact Ht))
                s1) as (x2 & E2 & S2)
  end.
  cbn [self events] in E2, S2.
  erewrite and_then_Ok.
  2:{ unfold ProcessTriggeredEvents, and_then, get. cbn [self]. exact E2. }
  pose proof S2 as (_ & _ & C2p & C2t & C2r).
  match type of E2 with
  | _ = Ok tt ?s2 =>
    destruct (loop_fires _ released_now (iteration (m_OnReleasedCallbacks x2))
                ReleasedEvent_fires
                (fun a b k Hs => proj2 (proj2 (same_keys_cond a b k Hs)))
                (callable_entries (m_OnReleasedCallbacks x2)
                   ltac:(rewrite C2r, C1r; exact Hr))
                s2) as (x3 & E3 & S3)
  end.
  cbn [self events] in E3, S3.
  exists x3. split.
  - unfold ProcessReleasedEvents, and_then, get. cbn [self]. rewrite E3.
    assert (HT : omap (fun e : Z * Callback =>
                         if down_now x1 e.1 then Invoke <$> e.2 else None)
                      (iteration (m_OnTriggeredCallbacks x1))
                 = fired (down_now x0) (m_OnTriggeredCallbacks x0)).
    { unfold fired. rewrite C1t. apply omap_pointwise. intros e.
      destruct (same_keys_cond x0 x1 e.1 S1) as (_ & Hd & _). now rewrite Hd. }
    assert (HR : omap (fun e : Z * Callback =>
                         if released_now x2 e.1 then Invoke <$> e.2 else None)
                      (iteration (m_OnReleasedCallbacks x2))
                 = fired (released_now x0) (m_OnReleasedCallbacks x0)).
    { unfold fired. rewrite C2r, C1r. apply omap_pointwise. intros e.
      pose proof (same_keys_trans _ _ _ S1 S2) as S12.
      destruct (same_keys_cond x0 x2 e.1 S12) as (_ & _ & Hrl). now rewrite Hrl. }
    rewrite HT, HR. unfold fired at 1. now rewrite <- !app_assoc.
  - exact (same_keys_trans _ _ _ (same_keys_trans _ _ _ S1 S2) S3).
Qed.

Lemma fired_ext (c1 c2 : Z -> bool) (m : gmap Z Callback) :
  (forall k, c1 k = c2 k) -> fired c1 m = fired c2 m.
Proof.
  intros Hc. unfold fired. apply omap_pointwise. intros e. now rewrite Hc.
Qed.

Lemma ProcessInput_focused (x : t) (evs : list InputEvent) (glfwGetKey : Z -> bool) :
  ProcessInput glfwGetKeyName (Some (mkWindow true)) glfwGetKey (mkState x evs) =
    ProcessRegisteredEvents glfwGetKeyName
      (mkState (UpdateKeyState glfwGetKey x) evs).
Proof. reflexivity. Qed.

(** The loops, run on key states that were updated from [x]. *)
Lemma ProcessRegisteredEvents_after_update
    (x x0 : t) (evs : list InputEvent) (glfwGetKey : Z -> bool) :
  callable x ->
  m_OnPressedCallbacks x0 = m_OnPressedCallbacks x ->
  m_OnTriggeredCallbacks x0 = m_OnTriggeredCallbacks x ->
  m_OnReleasedCallbacks x0 = m_OnReleasedCallbacks x ->
  (forall k, held (m_CurrentKeyStates x0) k =
     if polled k then glfwGetKey k else held (m_CurrentKeyStates x) k) ->
  (forall k, held (m_PreviousKeyStates x0) k = held (m_CurrentKeyStates x) k) ->
  let was_down (k : Z) := IsKeyTriggered k x in
  let pressed_edge (k : Z) := polled k && glfwGetKey k && negb (was_down k) in
  let is_down (k : Z) := if polled k then glfwGetKey k else was_down k in
  let released_edge (k : Z) := polled k && negb (glfwGetKey k) && was_down k in
  exists x',
    ProcessRegisteredEvents glfwGetKeyName (mkState x0 evs) =
      Ok tt (mkState x'
               (evs ++ fired pressed_edge (m_OnPressedCallbacks x)
                    ++ fired is_down (m_OnTriggeredCallbacks x)
                    ++ fired released_edge (m_OnReleasedCallbacks x)))
    /\ callable x'
    /\ forall k, IsKeyTriggered k x' = is_down k.
Proof.
  intros Hcall U1 U2 U3 Hc Hp was_down pressed_edge is_down released_edge.
  assert (Hcall0 : callable x0).
  { destruct Hcall as (H1 & H2 & H3). unfold callable. rewrite U1, U2, U3. auto. }
  destruct (ProcessRegisteredEvents_run x0 evs Hcall0) as (x3 & E & S).
  assert (Hcond : forall k,
            pressed_now x0 k = pressed_edge k
            /\ down_now x0 k = is_down k
            /\ released_now x0 k = released_edge k).
  { intros k. unfold pressed_now, down_now, released_now. rewrite Hc, Hp.
    unfold pressed_edge, is_down, released_edge, was_down.
    rewrite IsKeyTriggered_held.
    destruct (polled k), (glfwGetKey k), (held (m_CurrentKeyStates x) k); auto. }
  exists x3. split; [|split].
  - rewrite E, U1, U2, U3.
    rewrite (fired_ext _ pressed_edge) by (intros k; exact (proj1 (Hcond k))).
    rewrite (fired_ext (down_now _) is_down)
      by (intros k; exact (proj1 (proj2 (Hcond k)))).
    rewrite (fired_ext (released_now _) released_edge)
      by (intros k; exact (proj2 (proj2 (Hcond k)))).
    reflexivity.
  - destruct S as (_ & _ & C3p & C3t & C3r). destruct Hcall0 as (H1 & H2 & H3).
    unfold callable. rewrite C3p, C3t, C3r. auto.
  - intros k. destruct S as (S & _).
    rewrite IsKeyTriggered_held, S. exact (proj1 (proj2 (Hcond k))).
Qed.

Lemma ProcessInput_run
    (x : t) (evs : list InputEvent) (glfwGetKey : Z -> bool) :
  callable x ->
  let s := mkState x evs in
  let was_down (k : Z) := IsKeyTriggered k x in
  let pressed_edge (k : Z) := polled k && glfwGetKey k && negb (was_down k) in
  let is_down (k : Z) := if polled k then glfwGetKey k else was_down k in
  let released_edge (k : Z) := polled k && negb (glfwGetKey k) && was_down k in
  ProcessInput glfwGetKeyName None glfwGetKey s =
    Raise (runtime_error "Failed to retrieve the Window class when attempting to get the window's focus state.") s
  /\ ProcessInput glfwGetKeyName (Some (mkWindow false)) glfwGetKey s = Ok tt s
  /\ exists x',
       ProcessInput glfwGetKeyName (Some (mkWindow true)) glfwGetKey s =
         Ok tt (mkState x'
                  (evs ++ fired pressed_edge (m_OnPressedCallbacks x)
                       ++ fired is_down (m_OnTriggeredCallbacks x)
                       ++ fired released_edge (m_OnReleasedCallbacks x)))
       /\ callable x'
       /\ forall k, IsKeyTriggered k x' = is_down k.
Proof.
  intros Hcall s was_down pressed_edge is_down released_edge.
  split; [reflexivity|]. split; [reflexivity|].
  destruct (UpdateKeyState_spec glfwGetKey x) as (U1 & U2 & U3 & _ & _).
  destruct (ProcessRegisteredEvents_after_update x (UpdateKeyState glfwGetKey x)
              evs glfwGetKey Hcall U1 U2 U3
              (held_after_update glfwGetKey x)
              (held_previous_after_update glfwGetKey x))
    as (x' & E & Hc' & Hd).
  exists x'. split; [|split; [exact Hc' | exact Hd]].
  unfold s. rewrite ProcessInput_focused. exact E.
Qed.

(** What a phase fires does not depend on the order of the iteration:
    the callbacks of the keys that satisfy the condition. *)
Lemma elem_of_fired (cond : Z -> bool) (callbacks : gmap Z Callback) (c : nat) :
  Invoke c ∈ fired cond callbacks <->
  exists Key, callbacks !! Key = Some (Some c) /\ cond Key = true.
Proof.
  unfold fired. rewrite list_elem_of_omap. split.
  - intros ([Key cb] & He & Hf). rewrite iteration_Permutation in He.
    apply elem_of_map_to_list in He. cbn [fst snd] in Hf.
    destruct (cond Key) eqn:Ec; [|discriminate Hf].
    destruct cb as [c'|]; [|discriminate Hf]. cbn in Hf. inversion Hf; subst c'.
    eauto.
  - intros (Key & Hk & Ec). exists (Key, Some c). split.
    + rewrite iteration_Permutation. now apply elem_of_map_to_list.
    + cbn [fst snd]. now rewrite Ec.
Qed.

(** ProcessInput: an error without a window, nothing without the
    focus, and with it the callbacks of the key edges, in the three
    phases pressed, triggered, released; within a phase the callbacks
    come in the order in which the iteration of the unordered_map
    yields the keys, whatever that order is. *)
Theorem ProcessInput_fires_the_callbacks_of_the_edges
    (x : t) (evs : list InputEvent) (glfwGetKey : Z -> bool) :
  callable x ->
  let s := mkState x evs in
  let was_down (k : Z) := IsKeyTriggered k x in
  let pressed_edge (k : Z) := polled k && glfwGetKey k && negb (was_down k) in
  let is_down (k : Z) := if polled k then glfwGetKey k else was_down k in
  let released_edge (k : Z) := polled k && negb (glfwGetKey k) && was_down k in
  ProcessInput glfwGetKeyName None glfwGetKey s =
    Raise (runtime_error "Failed to retrieve the Window class when attempting to get the window's focus state.") s
  /\ ProcessInput glfwGetKeyName (Some (mkWindow false)) glfwGetKey s = Ok tt s
  /\ exists x',
       ProcessInput glfwGetKeyName (Some (mkWindow true)) glfwGetKey s =
         Ok tt (mkState x'
                  (evs ++ fired pressed_edge (m_OnPressedCallbacks x)
                       ++ fired is_down (m_OnTriggeredCallbacks x)
                       ++ fired released_edge (m_OnReleasedCallbacks x)))
       /\ callable x'
       /\ (forall k, IsKeyTriggered k x' = is_down k)
       /\ forall (cond : Z -> bool) (callbacks : gmap Z Callback) (c : nat),
            Invoke c ∈ fired cond callbacks <->
            exists Key, callbacks !! Key = Some (Some c) /\ cond Key = true.
Proof.
  intros Hcall s was_down pressed_edge is_down released_edge.
  destruct (ProcessInput_run x evs glfwGetKey Hcall) as (E1 & E2 & x' & E3 & Hc & Hd).
  split; [exact E1|]. split; [exact E2|]. exists x'.
  split; [exact E3|]. split; [exact Hc|]. split; [exact Hd|].
  apply elem_of_fired.
Qed.

Lemma callable_new : callable new.
Proof.
  unfold callable, new. cbn.
  repeat split; intros Key cb Hcb; rewrite lookup_empty in Hcb; discriminate Hcb.
Qed.

Lemma callable_RegisterKeyEvent (Key : Z) (KeyType : KeyEventType) (callback : nat)
    (x : t) :
  callable x -> callable (RegisterKeyEvent Key KeyType callback x).
Proof.
  intros (Hp & Ht & Hr). unfold callable.
  destruct KeyType; cbn; repeat split; try assumption; intros k cb Hcb;
    (destruct (decide (Key = k)) as [->|Hne];
     [rewrite lookup_insert_eq in Hcb; inversion Hcb; eauto
     | rewrite lookup_insert_ne in Hcb by exact Hne; eauto]).
Qed.

(** Callbacks that were registered can always be called: through
    any history of registrations and frames, a frame throws only when
    no window is registered. *)
Theorem registered_callbacks_never_make_a_frame_throw (ops : list InputOp) :
  Forall (fun op => match op with
                    | Frame None _ => False
                    | _ => True
                    end) ops ->
  forall (x : t) (evs : list InputEvent),
    callable x ->
    exists s',
      for_all (input_step glfwGetKeyName) ops (mkState x evs) = Ok tt s'
      /\ callable (self s').
Proof.
  induction 1 as [|op ops Hop _ IH]; intros x evs Hcall.
  - eexists. split; [reflexivity | exact Hcall].
  - cbn [for_all]. destruct op as [Key KeyType callback | [[focused]|] glfwGetKey].
    + erewrite and_then_Ok by reflexivity.
      apply IH. cbn [self]. now apply callable_RegisterKeyEvent.
    + destruct (ProcessInput_run x evs glfwGetKey Hcall)
        as (_ & Eoff & x' & Eon & Hcall' & _).
      destruct focused.
      * erewrite and_then_Ok by exact Eon. now apply IH.
      * erewrite and_then_Ok by exact Eoff. now apply IH.
    + destruct Hop.
Qed.

End Loops.

End InputFacts.

(** * Properties of the asset path manager *)

Section StringFacts.

Lemma append_nil (s : string) : ("" ++ s)%string = s.
Proof. reflexivity. Qed.

Lemma append_cons (a : ascii) (k s : string) :
  (String a k ++ s)%string = String a (k ++ s).
Proof. reflexivity. Qed.

Lemma string_find_app (c : ascii) (k v : string) :
  free_of c k -> string_find c (k ++ String c v) = Some (String.length k).
Proof.
  induction k as [|a k IH]; intros Hk.
  - rewrite append_nil. cbn [string_find String.length]. now rewrite Ascii.eqb_refl.
  - destruct Hk as [Hne Hk]. rewrite append_cons. cbn [string_find String.length].
    destruct (Ascii.eqb_spec a c) as [->|_]; [contradiction|].
    now rewrite IH.
Qed.

Lemma string_find_free (c : ascii) (s : string) :
  free_of c s -> string_find c s = None.
Proof.
  induction s as [|a s IH]; cbn [string_find free_of]; [reflexivity|]. intros [Hne Hs].
  destruct (Ascii.eqb_spec a c) as [->|_]; [contradiction|]. now rewrite IH.
Qed.

Lemma string_take_app (k v : string) : string_take (String.length k) (k ++ v) = k.
Proof.
  induction k as [|a k IH].
  - rewrite append_nil. now destruct v.
  - rewrite append_cons. cbn [string_take String.length]. now rewrite IH.
Qed.

Lemma string_drop_app (k v : string) : string_drop (String.length k) (k ++ v) = v.
Proof.
  induction k as [|a k IH].
  - rewrite append_nil. now destruct v.
  - rewrite append_cons. cbn [string_drop String.length]. exact IH.
Qed.

Lemma string_drop_app_S (k v : string) (c : ascii) :
  string_drop (String.length k + 1) (k ++ String c v) = v.
Proof.
  induction k as [|a k IH].
  - rewrite append_nil. cbn. now destruct v.
  - rewrite append_cons. cbn [string_drop String.length Nat.add]. exact IH.
Qed.

End StringFacts.

Section AssetFacts.
Context {P : Platform}.
Import AssetPathManager.

Lemma ParseLine_entry (Key Value : string) (x : t) :
  free_of "=" Key ->
  let Resolved := path_append (m_ConfigPathPath x) (ResolvePath Value x) in
  ParseLine (Key ++ String "=" Value) x =
    if fs_exists Resolved
    then Ok tt {| m_ConfigMap := <[Key := Resolved]> (m_ConfigMap x);
                  m_ConfigPathPath := m_ConfigPathPath x |}
    else Raise (runtime_error
                  ("Path resolution failed for key '" ++ Key
                   ++ "'. Resolved path does not exist: " ++ Resolved)) x.
Proof.
  intros Hk Resolved. unfold ParseLine.
  rewrite (string_find_app "=" Key Value Hk).
  unfold and_then, get. rewrite string_take_app, string_drop_app_S.
  fold Resolved. now destruct (fs_exists Resolved).
Qed.

(** AssetPathManager::ParseLine on a line Key=Value whose key holds no
    '=': when the resolved path exists, the line is stored, GetPath
    through any view whose data() reads the key then returns the
    resolved path (the directory of the configuration file joined with
    the resolved value) and every other key is as before; when it does
    not exist, ParseLine throws and the manager is unchanged. *)
Theorem ParseLine_then_GetPath (Key Value : string) (x : t) :
  free_of "=" Key ->
  let Resolved := path_append (m_ConfigPathPath x) (ResolvePath Value x) in
  if fs_exists Resolved then
    exists x',
      ParseLine (Key ++ String "=" Value) x = Ok tt x'
      /\ (forall View, string_view.data View = Key ->
            GetPath View x' = Ok Resolved x')
      /\ m_ConfigPathPath x' = m_ConfigPathPath x
      /\ forall Other, Other <> Key ->
           m_ConfigMap x' !! Other = m_ConfigMap x !! Other
  else
    ParseLine (Key ++ String "=" Value) x =
      Raise (runtime_error
               ("Path resolution failed for key '" ++ Key
                ++ "'. Resolved path does not exist: " ++ Resolved)) x.
Proof.
  intros Hk Resolved. pose proof (ParseLine_entry Key Value x Hk) as E.
  cbv zeta in E. fold Resolved in E.
  destruct (fs_exists Resolved); [|exact E].
  eexists. split; [exact E|]. split; [|split; [reflexivity|]].
  - intros View Ev. unfold GetPath, and_then, get. cbn.
    now rewrite Ev, lookup_insert_eq.
  - intros Other Hne. cbn. now rewrite lookup_insert_ne by congruence.
Qed.

Lemma ParseLine_paths_exist (Line : string) (x : t) :
  paths_exist x ->
  match ParseLine Line x with
  | Ok _ x' => paths_exist x' /\ m_ConfigPathPath x' = m_ConfigPathPath x
  | Raise _ x' => x' = x
  end.
Proof.
  intros Hx. unfold ParseLine.
  destruct (string_find "=" Line) as [Index|]; [|reflexivity].
  unfold and_then, get.
  destruct (fs_exists (path_append (m_ConfigPathPath x)
              (ResolvePath (string_drop (Index + 1) Line) x))) eqn:Ee; cbn.
  - split; [|reflexivity]. intros Key Path Hl. cbn in Hl.
    destruct (decide (string_take Index Line = Key)) as [<-|Hne].
    + rewrite lookup_insert_eq in Hl. now inversion Hl; subst.
    + rewrite lookup_insert_ne in Hl by exact Hne. eapply Hx. exact Hl.
  - reflexivity.
Qed.

Lemma lines_paths_exist (Lines : list string) (x : t) :
  paths_exist x ->
  paths_exist
    (state_of (for_all (fun Line => if is_entry Line then ParseLine Line else pure tt)
                       Lines x)).
Proof.
  revert x. induction Lines as [|Line Lines IH]; intros x Hx; [exact Hx|].
  cbn [for_all]. unfold and_then at 1.
  destruct (is_entry Line).
  - pose proof (ParseLine_paths_exist Line x Hx) as H.
    destruct (ParseLine Line x) as [[] x'|f x'].
    + apply IH, H.
    + cbn. now subst x'.
  - cbn. apply IH, Hx.
Qed.

Lemma LoadConfig_paths_exist (ConfigPath : string_view.t) (x : t) :
  paths_exist x -> paths_exist (state_of (LoadConfig ConfigPath x)).
Proof.
  intros Hx. unfold LoadConfig.
  destruct (read_lines (string_view.data ConfigPath)) as [Lines|]; [|exact Hx].
  unfold and_then, get, put.
  apply lines_paths_exist. exact Hx.
Qed.

(** AssetPathManager::ResolvePath inside ParseLine: in a value
    Base/Rest, a Base that is a key read earlier is replaced by the
    path stored for it, which already starts with the directory of the
    configuration file, and that directory is joined in front once
    more; a Base that is no key is kept as it is. *)
Theorem ParseLine_resolves_a_reference (Key Base Rest : string) (x : t) :
  free_of "=" Key -> free_of "/" Base ->
  let Value :=
    match m_ConfigMap x !! Base with
    | Some Stored => (Stored ++ String "/" Rest)%string
    | None => (Base ++ String "/" Rest)%string
    end in
  let Resolved := path_append (m_ConfigPathPath x) Value in
  fs_exists Resolved = true ->
  ParseLine (Key ++ String "=" (Base ++ String "/" Rest))%string x =
    Ok tt {| m_ConfigMap := <[Key := Resolved]> (m_ConfigMap x);
             m_ConfigPathPath := m_ConfigPathPath x |}.
Proof.
  intros Hk Hb Value Resolved He.
  pose proof (ParseLine_entry Key (Base ++ String "/" Rest)%string x Hk) as E. cbv zeta in E.
  assert (Hv : ResolvePath (Base ++ String "/" Rest)%string x = Value).
  { unfold ResolvePath, Value. rewrite (string_find_app "/" Base Rest Hb).
    rewrite string_take_app, string_drop_app. reflexivity. }
  rewrite Hv in E. fold Resolved in E. rewrite He in E. exact E.
Qed.

(** Whatever the configuration file holds, and whether the constructor
    returned or threw: GetPath looks up the C string at the data() of
    the view it is given; a path it hands out existed when it was read,
    and for a key the manager does not hold it throws a runtime_error
    whose message names the characters of the view, and leaves the
    manager as it was. *)
Theorem manager_holds_only_existing_paths (ConfigPath Key : string_view.t) :
  let x := state_of (new ConfigPath) in
  match GetPath Key x with
  | Ok Path x' =>
    m_ConfigMap x !! string_view.data Key = Some Path
    /\ fs_exists Path = true /\ x' = x
  | Raise f x' =>
    m_ConfigMap x !! string_view.data Key = None /\ x' = x
    /\ f = runtime_error ("Path retrieval failed. No entry found for key: '"
                          ++ string_view.str Key ++ "'.")
  end.
Proof.
  intros x.
  assert (Hx : paths_exist x).
  { apply LoadConfig_paths_exist. intros k p Hl. cbn in Hl.
    rewrite lookup_empty in Hl. discriminate. }
  unfold GetPath, and_then, get.
  destruct (m_ConfigMap x !! string_view.data Key) as [Path|] eqn:El; cbn.
  - split; [reflexivity|]. split; [|reflexivity]. eapply Hx. exact El.
  - repeat split.
Qed.

End AssetFacts.

(** * Properties of the shader uniforms *)

Section ShaderFacts.
Context {G : GLM}.
Context (uniform_location : Z -> string -> Z).
Import Shader.

Lemma lookups_app (l1 l2 : list GLCall) : lookups (l1 ++ l2) = lookups l1 ++ lookups l2.
Proof. apply omap_app. Qed.

Lemma writes_app (l1 l2 : list GLCall) : writes (l1 ++ l2) = writes l1 ++ writes l2.
Proof. apply omap_app. Qed.

Lemma GetUniformLocation_run (View : string_view.t) (x : t) (lg : list GLCall) :
  let Name := string_view.data View in
  cache_of_log uniform_location x lg -> NoDup (lookups lg) ->
  exists x' lg',
    GetUniformLocation uniform_location View (x, lg)
      = Ok (uniform_location (m_ID x) Name) (x', lg ++ lg')
    /\ m_ID x' = m_ID x
    /\ cache_of_log uniform_location x' (lg ++ lg')
    /\ NoDup (lookups (lg ++ lg'))
    /\ lookups lg' = (if bool_decide (Name ∈ lookups lg) then [] else [Name])
    /\ writes lg' = [].
Proof.
  intros Name Hc Hn. unfold GetUniformLocation, and_then, get. cbn. fold Name.
  pose proof (Hc Name) as Hl.
  destruct (bool_decide (Name ∈ lookups lg)) eqn:Ein.
  - rewrite Hl. exists x, []. rewrite app_nil_r. cbn. repeat split; auto.
  - rewrite Hl. cbn. eexists _, [_]. split; [reflexivity|]. cbn.
    apply bool_decide_eq_false in Ein.
    split; [reflexivity|]. split; [|split; [|split; reflexivity]].
    + intros n. cbn. rewrite lookups_app. cbn.
      destruct (decide (n = Name)) as [->|Hne].
      * rewrite lookup_insert_eq. rewrite bool_decide_eq_true_2; [reflexivity|].
        apply elem_of_app. right. apply list_elem_of_singleton. reflexivity.
      * rewrite lookup_insert_ne by congruence. rewrite (Hc n).
        apply (f_equal (fun b : bool => if b then _ else _)).
        apply bool_decide_ext. rewrite elem_of_app, list_elem_of_singleton. tauto.
    + rewrite lookups_app. cbn. apply NoDup_app. split; [exact Hn|].
      split; [|apply NoDup_singleton].
      intros n Hin Hn'. apply list_elem_of_singleton in Hn'. subst n. contradiction.
Qed.

Lemma setter_run (View : string_view.t) (call : Z -> GLCall) (x : t)
    (lg : list GLCall) :
  let Name := string_view.data View in
  (forall Location, is_write (call Location)) ->
  cache_of_log uniform_location x lg -> NoDup (lookups lg) ->
  exists x' lg',
    and_then (GetUniformLocation uniform_location View)
      (fun UniformLocation =>
         if negb (UniformLocation =? -1) then emit (call UniformLocation) else pure tt)
      (x, lg) = Ok tt (x', lg ++ lg')
    /\ m_ID x' = m_ID x
    /\ cache_of_log uniform_location x' (lg ++ lg')
    /\ NoDup (lookups (lg ++ lg'))
    /\ lookups lg' = (if bool_decide (Name ∈ lookups lg) then [] else [Name])
    /\ writes lg' =
         (if uniform_location (m_ID x) Name =? -1 then []
          else [call (uniform_location (m_ID x) Name)]).
Proof.
  intros Name Hcall Hc Hn.
  destruct (GetUniformLocation_run View x lg Hc Hn)
    as (x' & lg' & E & Hid & Hc' & Hn' & Hl & Hw).
  cbv zeta in E, Hl. fold Name in E, Hl.
  unfold and_then at 1. rewrite E.
  destruct (uniform_location (m_ID x) Name =? -1) eqn:Eloc; cbn [negb].
  - exists x', lg'. repeat split; assumption.
  - exists x', (lg' ++ [call (uniform_location (m_ID x) Name)]).
    unfold emit. cbn [fst snd]. rewrite app_assoc. split; [reflexivity|].
    split; [exact Hid|].
    assert (Hlk : lookups ((lg ++ lg') ++ [call (uniform_location (m_ID x) Name)])
                  = lookups (lg ++ lg')).
    { rewrite lookups_app. specialize (Hcall (uniform_location (m_ID x) Name)).
      destruct (call _); cbn in *; try contradiction; apply app_nil_r. }
    split; [intros n; rewrite Hlk; apply Hc'|].
    split; [rewrite Hlk; exact Hn'|].
    split.
    + rewrite lookups_app, Hl. specialize (Hcall (uniform_location (m_ID x) Name)).
      destruct (call _); cbn in *; try contradiction; apply app_nil_r.
    + rewrite writes_app, Hw. specialize (Hcall (uniform_location (m_ID x) Name)).
      destruct (call _); cbn in *; try contradiction; reflexivity.
Qed.

Lemma set_run (c : Setter) (x : t) (lg : list GLCall) :
  cache_of_log uniform_location x lg -> NoDup (lookups lg) ->
  exists x' lg',
    run_setter uniform_location c (x, lg) = Ok tt (x', lg ++ lg')
    /\ m_ID x' = m_ID x
    /\ cache_of_log uniform_location x' (lg ++ lg')
    /\ NoDup (lookups (lg ++ lg'))
    /\ lookups lg' = (if bool_decide (setter_name c ∈ lookups lg) then []
                      else [setter_name c])
    /\ writes lg' =
         (if uniform_location (m_ID x) (setter_name c) =? -1 then []
          else [uniform_write (uniform_location (m_ID x) (setter_name c)) c]).
Proof.
  intros Hc Hn. destruct c; cbn [run_setter setter_name uniform_write].
  - apply (setter_run Name (fun l => glUniform1i l (Z.b2z Value))); auto. intros; exact I.
  - apply (setter_run Name (fun l => glUniform1i l Value)); auto. intros; exact I.
  - apply (setter_run Name (fun l => glUniform1ui l Value)); auto. intros; exact I.
  - apply (setter_run Name (fun l => glUniform1f l Value)); auto. intros; exact I.
  - apply (setter_run Name (fun l => glUniform3fv l Value)); auto. intros; exact I.
  - apply (setter_run Name (fun l => glUniform3fv l (mkVec3 X Y Z))); auto. intros; exact I.
  - apply (setter_run Name (fun l => glUniformMatrix4fv l Value)); auto. intros; exact I.
Qed.

Lemma sets_run (cs : list Setter) (x : t) (lg : list GLCall) :
  cache_of_log uniform_location x lg -> NoDup (lookups lg) ->
  exists x' lg',
    for_all (run_setter uniform_location) cs (x, lg) = Ok tt (x', lg ++ lg')
    /\ m_ID x' = m_ID x
    /\ cache_of_log uniform_location x' (lg ++ lg')
    /\ NoDup (lookups (lg ++ lg'))
    /\ (forall Name, Name ∈ lookups lg' -> Name ∈ (setter_name <$> cs))
    /\ (forall Name, Name ∈ (setter_name <$> cs) -> Name ∈ lookups (lg ++ lg'))
    /\ writes lg' =
         omap (fun c => let Location := uniform_location (m_ID x) (setter_name c) in
                        if Location =? -1 then None else Some (uniform_write Location c)) cs.
Proof.
  revert x lg. induction cs as [|c cs IH]; intros x lg Hc Hn.
  - exists x, []. rewrite app_nil_r. cbn. repeat split; auto.
    all: intros n Hin; inversion Hin.
  - destruct (set_run c x lg Hc Hn) as (x1 & lg1 & E1 & Hid1 & Hc1 & Hn1 & Hl1 & Hw1).
    destruct (IH x1 (lg ++ lg1) Hc1 Hn1)
      as (x2 & lg2 & E2 & Hid2 & Hc2 & Hn2 & Hsub & Hsup & Hw2).
    exists x2, (lg1 ++ lg2). cbn [for_all]. unfold and_then at 1. rewrite E1, E2.
    rewrite <- !app_assoc in *.
    split; [reflexivity|]. split; [congruence|]. split; [exact Hc2|].
    split; [exact Hn2|]. split; [|split].
    + intros n Hin. rewrite lookups_app, elem_of_app in Hin. cbn.
      destruct Hin as [Hin|Hin].
      * rewrite Hl1 in Hin. destruct (bool_decide _); [inversion Hin|].
        apply list_elem_of_singleton in Hin. subst n. left.
      * right. now apply Hsub.
    + intros n Hin. cbn in Hin. apply elem_of_cons in Hin as [->|Hin].
      * rewrite app_assoc, lookups_app, elem_of_app. left.
        rewrite lookups_app, elem_of_app, Hl1.
        destruct (bool_decide (setter_name c ∈ lookups lg)) eqn:Ein.
        -- left. now apply bool_decide_eq_true in Ein.
        -- right. apply list_elem_of_singleton. reflexivity.
      * now apply Hsup.
    + rewrite writes_app, Hw1, Hw2, Hid1. cbn [omap list_omap]. cbv zeta.
      destruct (uniform_location (m_ID x) (setter_name c) =? -1); reflexivity.
Qed.

(** Over any sequence of setter calls on a new shader, the name of a
    call being the C string at the data() of the view it is given:
    OpenGL is asked for the location of each name once, at its first
    use, the answer -1 included; and the values written are those of
    the calls whose name has a location other than -1, in the order of
    the calls, each to the location of its name. *)
Theorem uniform_locations_are_looked_up_once (ID : Z) (cs : list Setter) :
  exists x lg,
    for_all (run_setter uniform_location) cs (new ID, []) = Ok tt (x, lg)
    /\ NoDup (lookups lg)
    /\ (forall Name, Name ∈ lookups lg <-> Name ∈ (setter_name <$> cs))
    /\ writes lg =
         omap (fun c => let Location := uniform_location ID (setter_name c) in
                        if Location =? -1 then None else Some (uniform_write Location c)) cs.
Proof.
  destruct (sets_run cs (new ID) []) as (x & lg & E & _ & _ & Hn & Hsub & Hsup & Hw).
  - intros n. cbn. apply lookup_empty.
  - constructor.
  - exists x, lg. cbn in *. repeat split; auto.
Qed.

End ShaderFacts.

(** * Properties of the components *)

Section EntityFacts.
Import Entity.

Lemma GetComponent_None (ID : Z) (x : t) : GetComponent ID x = None.
Proof. unfold GetComponent. now destruct (m_Components x !! ID). Qed.

Lemma fresh_component (h : gmap nat Component.t) : h !! fresh (dom h) = None.
Proof. apply not_elem_of_dom. apply is_fresh. Qed.

(** Entity::CreateComponent, called twice for one component type:
    neither call returns nullptr, both return the same component, and
    the second call changes nothing. When the entity had no component
    of the type, the first call makes one at an unused address, owned
    by the entity; when it had one, the first call changes nothing
    either. *)
Theorem CreateComponent_keeps_the_first_component (this : nat) (ID : Z) (s : State) :
  let r1 := CreateComponent this ID s in
  let r2 := CreateComponent this ID r1.2 in
  exists a,
    r1.1 = Some a /\ r2.1 = Some a
    /\ r2.2 = r1.2
    /\ m_Components (self r1.2) !! ID = Some a
    /\ (m_Components (self s) !! ID = None ->
        heap s !! a = None
        /\ heap r1.2 = <[a := Component.mk (Some this)]> (heap s)
        /\ m_Components (self r1.2) = <[ID := a]> (m_Components (self s)))
    /\ (is_Some (m_Components (self s) !! ID) -> r1.2 = s).
Proof.
  intros r1 r2.
  assert (Hdel : forall h : gmap nat Component.t,
             delete (fresh (dom h))
               (<[fresh (dom h) := Component.SetOwner (Some this) Component.new]> h) = h).
  { intros h. rewrite delete_insert_eq. apply delete_id, fresh_component. }
  assert (Hold : forall (s0 : State) a,
             m_Components (self s0) !! ID = Some a ->
             CreateComponent this ID s0 = (Some a, s0)).
  { intros s0 a Ha. unfold CreateComponent. rewrite GetComponent_None, Ha, Hdel.
    now destruct s0. }
  destruct (m_Components (self s) !! ID) as [a|] eqn:El.
  - exists a. subst r2 r1. rewrite (Hold s a El). cbn [fst snd].
    rewrite (Hold s a El). cbn [fst snd]. repeat split; auto; intros; discriminate.
  - exists (fresh (dom (heap s))).
    assert (E1 : r1 = (Some (fresh (dom (heap s))),
                       {| self := {| m_Components :=
                                       <[ID := fresh (dom (heap s))]> (m_Components (self s)) |};
                          heap := <[fresh (dom (heap s)) :=
                                      Component.SetOwner (Some this) Component.new]> (heap s) |})).
    { subst r1. unfold CreateComponent. now rewrite GetComponent_None, El. }
    subst r2. rewrite E1. cbn [fst snd].
    rewrite (Hold _ (fresh (dom (heap s)))) by (cbn; apply lookup_insert_eq).
    cbn [fst snd self heap m_Components]. repeat split; auto.
    + apply lookup_insert_eq.
    + apply fresh_component.
    + intros [? ?]. discriminate.
Qed.

End EntityFacts.

(** * Properties of the material of a model *)

Section ModelFacts.
Context {P : Platform} {G : GLM} {H : StdHash G}.
Context (uniform_location : Z -> string -> Z).
Import Model.

Lemma SetInt_run (Name : string) (Value : Z) (x : Shader.t) (lg : list Shader.GLCall) :
  exists x' lg',
    Shader.SetInt uniform_location (string_view.of_string Name) Value (x, lg)
      = Ok tt (x', lg ++ lg')
    /\ (forall n, location_of uniform_location x' n = location_of uniform_location x n)
    /\ writes lg' =
         (if location_of uniform_location x Name =? -1 then []
          else [Shader.glUniform1i (location_of uniform_location x Name) Value]).
Proof.
  unfold Shader.SetInt, Shader.GetUniformLocation, and_then, get, location_of. cbn.
  destruct (Shader.m_UniformLocationCache x !! Name) as [l|] eqn:El; cbn.
  - destruct (l =? -1); cbn.
    + exists x, []. now rewrite app_nil_r.
    + eexists x, [_]. repeat split.
  - assert (Hloc : forall n,
              default (uniform_location (Shader.m_ID x) n)
                (<[Name := uniform_location (Shader.m_ID x) Name]>
                   (Shader.m_UniformLocationCache x) !! n)
              = default (uniform_location (Shader.m_ID x) n)
                  (Shader.m_UniformLocationCache x !! n)).
    { intros n. destruct (decide (Name = n)) as [<-|Hne].
      - now rewrite lookup_insert_eq, El.
      - now rewrite lookup_insert_ne by exact Hne. }
    destruct (uniform_location (Shader.m_ID x) Name =? -1); cbn.
    + eexists _, [_]. split; [reflexivity|]. split; [exact Hloc|reflexivity].
    + eexists _, [_; _]. split; [unfold Shader.emit; cbn; now rewrite <- app_assoc|].
      split; [exact Hloc|reflexivity].
Qed.

Lemma BindTexture_run (a : nat) (tx : Texture.t) (Nr : Z * Z)
    (sh : Shader.t) (lg : list Shader.GLCall) (x : Material.t) (h : Heap) :
  textures h !! a = Some tx ->
  let r := GetTextureNumber (Texture.m_Name tx) Nr.1 Nr.2 in
  let name := (Texture.m_Name tx ++ r.1)%string in
  exists sh' lg',
    BindTexture uniform_location a Nr (mkSetup (sh, lg) (x, h)) =
      Ok r.2
         (mkSetup (sh', lg ++ lg')
            (Material.set_Textures (<[name := Some a]> (Material.m_Textures x)) x,
             {| textures :=
                  <[a := Texture.SetSlotIndex
                           (to_int8 (Z.of_nat (size (Material.m_Textures x)))) tx]>
                    (textures h);
                gl := call (unit_binding tx) (gl h) |}))
    /\ (forall n, location_of uniform_location sh' n = location_of uniform_location sh n)
    /\ writes lg' = option_list (sampler_write uniform_location sh (name, tx)).
Proof.
  intros Ea r name.
  destruct (SetInt_run ("material." ++ name) (Texture.GetSlotIndex tx) sh lg)
    as (sh' & lg' & Es & Hloc & Hw).
  exists sh', lg'. split; [|split; [exact Hloc|]].
  - unfold BindTexture. unfold and_then at 1. unfold get. cbn [material snd].
    rewrite Ea. unfold and_then at 1. unfold on_material at 1. cbn [material shader].
    subst name r. unfold Texture.GetName in *.
    destruct (GetTextureNumber (Texture.m_Name tx) Nr.1 Nr.2) as [Number Nr'].
    cbn [fst snd] in *.
    unfold and_then at 1. unfold on_shader. cbn [shader material]. rewrite Es.
    unfold and_then at 1. unfold on_material. cbn [shader material].
    rewrite (SetTexture_run _ a tx) by exact Ea. reflexivity.
  - rewrite Hw. unfold sampler_write. cbn [fst snd]. unfold Texture.GetSlotIndex.
    now destruct (_ =? -1).
Qed.

Lemma Forall2_textures_ext (addrs : list nat) (txs : list Texture.t) (h h1 : Heap) :
  (forall b, b ∈ addrs -> textures h1 !! b = textures h !! b) ->
  Forall2 (fun a tx => textures h !! a = Some tx) addrs txs ->
  Forall2 (fun a tx => textures h1 !! a = Some tx) addrs txs.
Proof.
  intros Hext Hf. induction Hf as [|a tx addrs txs Ea Hf IH]; constructor.
  - rewrite Hext; [exact Ea|left].
  - apply IH. intros b Hb. apply Hext. now right.
Qed.

Lemma BindTexturesOfMesh_run (addrs : list nat) :
  forall (txs : list Texture.t) (Nr : Z * Z) (sh : Shader.t) (lg : list Shader.GLCall)
         (x : Material.t) (h : Heap),
    NoDup addrs ->
    Forall2 (fun a tx => textures h !! a = Some tx) addrs txs ->
    let names := numbered (Texture.m_Name <$> txs) Nr in
    NoDup names ->
    (forall name, name ∈ names -> Material.m_Textures x !! name = None) ->
    (size (Material.m_Textures x) + length addrs <= 128)%nat ->
    exists Nr' sh' lg' x' h',
      BindTexturesOfMesh uniform_location addrs Nr (mkSetup (sh, lg) (x, h)) =
        Ok Nr' (mkSetup (sh', lg ++ lg') (x', h'))
      /\ writes lg' = omap (sampler_write uniform_location sh) (zip names txs)
      /\ calls (gl h') = calls (gl h) ++ concat (unit_binding <$> txs)
      /\ size (Material.m_Textures x')
         = (size (Material.m_Textures x) + length addrs)%nat
      /\ (forall k a tx name,
            addrs !! k = Some a -> txs !! k = Some tx -> names !! k = Some name ->
            textures h' !! a
              = Some (Texture.SetSlotIndex
                        (Z.of_nat (size (Material.m_Textures x) + k)) tx)
            /\ Material.m_Textures x' !! name = Some (Some a))
      /\ (forall name, name ∉ names ->
            Material.m_Textures x' !! name = Material.m_Textures x !! name)
      /\ (forall a, a ∉ addrs -> textures h' !! a = textures h !! a).
Proof.
  induction addrs as [|a addrs IH]; intros txs Nr sh lg x h Hn Hf names Hnn Hfresh Hsize.
  - apply Forall2_nil_inv_l in Hf. subst txs. cbn in names. subst names.
    exists Nr, sh, [], x, h. rewrite !app_nil_r. cbn.
    split; [reflexivity|]. split; [reflexivity|]. split; [reflexivity|].
    split; [lia|]. split; [intros k ? ? ? Ek; inversion Ek|]. auto.
  - apply Forall2_cons_inv_l in Hf as (tx & txs' & Ea & Hf & ->).
    apply NoDup_cons in Hn as [Ha1 Hn].
    cbn [fmap list_fmap numbered] in names.
    destruct (BindTexture_run a tx Nr sh lg x h Ea) as (sh1 & lg1 & E1 & Hloc1 & Hw1).
    cbv zeta in E1, Hw1.
    destruct (GetTextureNumber (Texture.m_Name tx) Nr.1 Nr.2) as [Number Nr1] eqn:En.
    cbn [fst snd] in E1, Hw1. subst names.
    apply NoDup_cons in Hnn as [Hn1 Hnn].
    cbn [length] in Hsize.
    set (name := (Texture.m_Name tx ++ Number)%string) in *.
    set (x1 := Material.set_Textures (<[name := Some a]> (Material.m_Textures x)) x) in *.
    set (h1 := {| textures :=
                    <[a := Texture.SetSlotIndex
                             (to_int8 (Z.of_nat (size (Material.m_Textures x)))) tx]>
                      (textures h);
                  gl := call (unit_binding tx) (gl h) |}) in *.
    assert (Hsz1 : size (Material.m_Textures x1) = S (size (Material.m_Textures x))).
    { unfold x1. cbn. apply map_size_insert_None. apply Hfresh. left. }
    destruct (IH txs' Nr1 sh1 (lg ++ lg1) x1 h1 Hn)
      as (Nr' & sh' & lg' & x' & h' & E & Hw & Hc & Hsz & Hk & Hothers & Hheap).
    { apply (Forall2_textures_ext addrs txs' h h1); [|exact Hf]. intros b Hb.
      unfold h1. cbn [textures]. rewrite lookup_insert_ne; [reflexivity|].
      intros ->. contradiction. }
    { exact Hnn. }
    { intros nm Hnm. unfold x1. cbn. rewrite lookup_insert_ne.
      - apply Hfresh. now right.
      - intros ->. contradiction. }
    { rewrite Hsz1. lia. }
    exists Nr', sh', (lg1 ++ lg'), x', h'. rewrite app_assoc. split.
    { cbn [BindTexturesOfMesh]. unfold and_then at 1. rewrite E1. exact E. }
    split.
    { rewrite writes_app, Hw1, Hw. cbn [zip zip_with omap list_omap].
      assert (Hext : omap (sampler_write uniform_location sh1) (zip (numbered (Texture.m_Name <$> txs') Nr1) txs')
                     = omap (sampler_write uniform_location sh) (zip (numbered (Texture.m_Name <$> txs') Nr1) txs')).
      { apply omap_pointwise. intros e. unfold sampler_write. now rewrite Hloc1. }
      rewrite Hext. now destruct (sampler_write uniform_location sh (name, tx)). }
    split.
    { rewrite Hc. unfold h1. cbn. now rewrite <- app_assoc. }
    split; [rewrite Hsz, Hsz1; cbn [length]; lia|].
    split; [|split].
    + intros k b tb nm Eb Etb Enm. destruct k as [|k].
      * cbn in Eb, Etb, Enm. inversion Eb; inversion Etb; inversion Enm; subst b tb nm.
        rewrite Hothers by exact Hn1. rewrite Hheap by exact Ha1.
        unfold x1, h1. cbn. rewrite !lookup_insert_eq.
        rewrite to_int8_small by lia. now rewrite Nat.add_0_r.
      * cbn in Eb, Etb, Enm. destruct (Hk k b tb nm Eb Etb Enm) as [H1 H2].
        split; [|exact H2]. rewrite H1, Hsz1. do 2 f_equal. lia.
    + intros nm Hnm. apply not_elem_of_cons in Hnm as [Hne Hnm].
      rewrite Hothers by exact Hnm. unfold x1. cbn.
      now rewrite lookup_insert_ne by congruence.
    + intros b Hb. apply not_elem_of_cons in Hb as [Hne Hb].
      rewrite Hheap by exact Hb. unfold h1. cbn.
      now rewrite lookup_insert_ne by congruence.
Qed.

Lemma BindTexturesOfMesh_app (l1 l2 : list nat) :
  forall (Nr : Z * Z) (s : Setup),
    BindTexturesOfMesh uniform_location (l1 ++ l2) Nr s =
      and_then (BindTexturesOfMesh uniform_location l1 Nr)
               (BindTexturesOfMesh uniform_location l2) s.
Proof.
  induction l1 as [|a l1 IH]; intros Nr s; [reflexivity|].
  cbn [app BindTexturesOfMesh]. unfold and_then.
  destruct (BindTexture uniform_location a Nr s) as [Nr1 s1|f s1]; [|reflexivity].
  rewrite IH. reflexivity.
Qed.

Lemma BindTexturesOfMeshes_flat (Meshes : list Mesh.BaseMesh) :
  forall (Nr : Z * Z) (s : Setup),
    BindTexturesOfMeshes uniform_location Meshes Nr s =
      BindTexturesOfMesh uniform_location (textures_of Meshes) Nr s.
Proof.
  induction Meshes as [|M Meshes IH]; intros Nr s; [reflexivity|].
  unfold textures_of. cbn [fmap list_fmap concat BindTexturesOfMeshes].
  rewrite BindTexturesOfMesh_app. unfold and_then.
  destruct (BindTexturesOfMesh uniform_location (Mesh.m_Textures M) Nr s)
    as [Nr1 s1|f s1]; [|reflexivity].
  apply IH.
Qed.

(** Model::BindTexturesToMaterial on a new material, for a model whose
    textures get different names: the k-th texture, in the order of the
    meshes, is registered under its numbered name and gets the slot k;
    but the texture unit that is activated for it and the value sent to
    its sampler uniform are the slot index it had before the call. *)
Theorem BindTexturesToMaterial_sends_the_old_slots (Meshes : list Mesh.BaseMesh)
    (sh : Shader.t) (lg : list Shader.GLCall) (Shader_ : option Z) (h : Heap)
    (txs : list Texture.t) :
  let addrs := textures_of Meshes in
  let names := numbered (Texture.m_Name <$> txs) (1, 1) in
  NoDup addrs ->
  Forall2 (fun a tx => textures h !! a = Some tx) addrs txs ->
  NoDup names ->
  (length addrs <= 128)%nat ->
  exists sh' lg' x' h',
    BindTexturesToMaterial uniform_location Meshes
      (mkSetup (sh, lg) (Material.new Shader_, h))
      = Ok tt (mkSetup (sh', lg ++ lg') (x', h'))
    /\ writes lg' = omap (sampler_write uniform_location sh) (zip names txs)
    /\ calls (gl h') = calls (gl h) ++ concat (unit_binding <$> txs)
    /\ forall k a tx name,
         addrs !! k = Some a -> txs !! k = Some tx -> names !! k = Some name ->
         textures h' !! a = Some (Texture.SetSlotIndex (Z.of_nat k) tx)
         /\ Material.m_Textures x' !! name = Some (Some a).
Proof.
  intros addrs names Hn Hf Hnn Hlen.
  destruct (BindTexturesOfMesh_run addrs txs (1, 1) sh lg (Material.new Shader_) h
              Hn Hf Hnn)
    as (Nr' & sh' & lg' & x' & h' & E & Hw & Hc & _ & Hk & _ & _).
  { intros name _. apply lookup_empty. }
  { cbn. rewrite map_size_empty. lia. }
  exists sh', lg', x', h'. split; [|split; [exact Hw|split; [exact Hc|]]].
  - unfold BindTexturesToMaterial, and_then.
    rewrite BindTexturesOfMeshes_flat. fold addrs. now rewrite E.
  - intros k a tx name Ea Et Enm. destruct (Hk k a tx name Ea Et Enm) as [H1 H2].
    split; [|exact H2]. rewrite H1. cbn. rewrite map_size_empty. reflexivity.
Qed.

End ModelFacts.

(** * Instances of the properties *)

Lemma toy_binds_loaded :
  forall a, a ∈ snd <$> toy_binds -> is_Some (textures toy_heap !! a).
Proof.
  intros a Ha. cbn in Ha.
  apply elem_of_cons in Ha as [->|Ha]; [eexists; apply lookup_insert_eq|].
  apply elem_of_cons in Ha as [->|Ha]; [|inversion Ha].
  eexists. cbn. rewrite lookup_insert_ne by discriminate. apply lookup_insert_eq.
Qed.

Lemma toy_input_callable : callable toy_input.
Proof. apply callable_RegisterKeyEvent, callable_RegisterKeyEvent, callable_new. Qed.





Lemma Sphere_indices_refer_to_vertices_witness :
  0 <= 2 /\ 0 <= 3 /\ (2 + 1) * (3 + 1) <= INT_MAX
  /\ let Vertices := @Sphere.GenerateVertices ToyGLM ToyCMath (1 : @f32 ToyGLM) 2 3 in
     let Indices := Sphere.GenerateIndices 2 3 in
     Z.of_nat (length Vertices) = (2 + 1) * (3 + 1)
     /\ Z.of_nat (length Indices) = 6 * 2 * 3
     /\ Forall (fun i => 0 <= i < Z.of_nat (length Vertices)) Indices.
Proof.
  assert (H1 : 0 <= 2) by lia. assert (H2 : 0 <= 3) by lia.
  assert (H3 : (2 + 1) * (3 + 1) <= INT_MAX) by (vm_compute; discriminate).
  split; [exact H1|]. split; [exact H2|]. split; [exact H3|].
  exact (Sphere_indices_refer_to_vertices (G := ToyGLM) (C := ToyCMath)
           (1 : @f32 ToyGLM) 2 3 H1 H2 H3).
Defined.

Lemma Sphere_quad_is_two_triangles_witness :
  0 <= 1 < 2 /\ 0 <= 2 < 3 /\ (2 + 1) * (3 + 1) <= INT_MAX
  /\ let Vertices := @Sphere.GenerateVertices ToyGLM ToyCMath (1 : @f32 ToyGLM) 2 3 in
     let Indices := Sphere.GenerateIndices 2 3 in
     exists i00 i10 i01 i11 : Z,
       take 6 (drop (Z.to_nat (6 * (1 * 3 + 2))) Indices)
         = [i00; i10; i01; i10; i11; i01]
       /\ Vertices !! Z.to_nat i00 = Some (@Sphere.MakeVertex ToyGLM ToyCMath (1 : @f32 ToyGLM) 2 3 1 2)
       /\ Vertices !! Z.to_nat i10 = Some (@Sphere.MakeVertex ToyGLM ToyCMath (1 : @f32 ToyGLM) 2 3 (1 + 1) 2)
       /\ Vertices !! Z.to_nat i01 = Some (@Sphere.MakeVertex ToyGLM ToyCMath (1 : @f32 ToyGLM) 2 3 1 (2 + 1))
       /\ Vertices !! Z.to_nat i11 = Some (@Sphere.MakeVertex ToyGLM ToyCMath (1 : @f32 ToyGLM) 2 3 (1 + 1) (2 + 1))
       /\ 0 <= i00 /\ i00 < i01 /\ i01 < i10 /\ i10 < i11.
Proof.
  assert (H1 : 0 <= 1 < 2) by lia. assert (H2 : 0 <= 2 < 3) by lia.
  assert (H3 : (2 + 1) * (3 + 1) <= INT_MAX) by (vm_compute; discriminate).
  split; [exact H1|]. split; [exact H2|]. split; [exact H3|].
  exact (Sphere_quad_is_two_triangles (G := ToyGLM) (C := ToyCMath)
           (1 : @f32 ToyGLM) 2 3 1 2 H1 H2 H3).
Defined.

Lemma SetTexture_assigns_consecutive_slots_witness :
  NoDup (string_view.data <$> (fst <$> toy_binds)) /\ NoDup (snd <$> toy_binds)
  /\ (forall a, a ∈ snd <$> toy_binds -> is_Some (textures toy_heap !! a))
  /\ (length toy_binds <= 128)%nat
  /\ exists x' h',
       SetTextures toy_binds (Material.new (Some 3), toy_heap) = Ok tt (x', h')
       /\ gl h' = gl toy_heap
       /\ size (Material.m_Textures x') = length toy_binds
       /\ (forall k name a, toy_binds !! k = Some (name, a) ->
             Material.m_Textures x' !! string_view.data name = Some (Some a)
             /\ textures h' !! a
                = Texture.SetSlotIndex (Z.of_nat k) <$> textures toy_heap !! a)
       /\ (forall a, a ∉ snd <$> toy_binds -> textures h' !! a = textures toy_heap !! a).
Proof.
  assert (H1 : NoDup (string_view.data <$> (fst <$> toy_binds)))
    by (apply (bool_decide_unpack _); vm_compute; exact I).
  assert (H2 : NoDup (snd <$> toy_binds)) by (apply (bool_decide_unpack _); vm_compute; exact I).
  assert (H4 : (length toy_binds <= 128)%nat) by (cbn; lia).
  split; [exact H1|]. split; [exact H2|]. split; [exact toy_binds_loaded|].
  split; [exact H4|].
  exact (SetTexture_assigns_consecutive_slots (P := ToyPlatform) (Some 3) toy_binds
           toy_heap H1 H2 toy_binds_loaded H4).
Defined.

Lemma GetTexture_finds_the_last_texture_set_witness :
  let TextureName := string_view.mk "diffuse" "diffuse_map" in
  (forall a, a ∈ snd <$> toy_binds -> is_Some (textures toy_heap !! a))
  /\ last_bound (string_view.data TextureName) toy_binds = Some 0%nat
  /\ last_bound "diffuse" toy_binds = None
  /\ exists s',
       SetTextures toy_binds (Material.new (Some 3), toy_heap) = Ok tt s'
       /\ Material.GetTexture TextureName s' =
            match last_bound (string_view.data TextureName) toy_binds with
            | Some a => Ok (Some a) s'
            | None =>
              let message :=
                ("Failed to retrieve texture: " ++ dquote
                 ++ string_view.str TextureName ++ dquote
                 ++ ". Ensure the texture name is correct and matches the expected value.")%string in
              Raise (runtime_error message)
                    (s'.1, {| textures := textures s'.2;
                              gl := mkWorld (next_texture (gl s'.2))
                                            (calls (gl s'.2) ++ [cerr message]) |})
            end.
Proof.
  intros TextureName.
  split; [exact toy_binds_loaded|]. split; [reflexivity|]. split; [reflexivity|].
  exact (GetTexture_finds_the_last_texture_set (P := ToyPlatform) (Some 3) toy_binds
           toy_heap TextureName toy_binds_loaded).
Defined.

Lemma Activate_binds_every_texture_once_witness :
  (forall a, a ∈ snd <$> toy_binds -> is_Some (textures toy_heap !! a))
  /\ exists x' h',
       SetTextures toy_binds (Material.new (Some 3), toy_heap) = Ok tt (x', h')
       /\ let entries := iteration (Material.m_Textures x') in
          NoDup (fst <$> entries)
          /\ (forall name, name ∈ fst <$> entries <-> name ∈ key_of <$> toy_binds)
          /\ Forall (fun e : string * option nat =>
                       exists a, e.2 = Some a /\ is_Some (textures h' !! a)) entries
          /\ Material.Activate (x', h') =
               Ok tt (x', {| textures := textures h';
                             gl := call (glUseProgram 3
                                         :: concat (activation h' <$> entries))
                                        (gl h') |}).
Proof.
  split; [exact toy_binds_loaded|].
  exact (Activate_binds_every_texture_once (P := ToyPlatform) (U := ToyUnorderedMap)
           (Some 3) toy_binds toy_heap toy_binds_loaded).
Defined.

Lemma ProcessInput_fires_the_callbacks_of_the_edges_witness :
  callable toy_input
  /\ let glfwGetKeyName := fun _ : Z => "A"%string in
     let glfwGetKey := fun k : Z => (k =? 65) || (k =? 66) in
     let s := InputManager.mkState toy_input [] in
     let was_down (k : Z) := InputManager.IsKeyTriggered k toy_input in
     let pressed_edge (k : Z) := polled k && glfwGetKey k && negb (was_down k) in
     let is_down (k : Z) := if polled k then glfwGetKey k else was_down k in
     let released_edge (k : Z) := polled k && negb (glfwGetKey k) && was_down k in
     InputManager.ProcessInput glfwGetKeyName None glfwGetKey s =
       Raise (runtime_error "Failed to retrieve the Window class when attempting to get the window's focus state.") s
     /\ InputManager.ProcessInput glfwGetKeyName (Some (InputManager.mkWindow false))
          glfwGetKey s = Ok tt s
     /\ exists x',
          InputManager.ProcessInput glfwGetKeyName (Some (InputManager.mkWindow true))
            glfwGetKey s =
            Ok tt (InputManager.mkState x'
                     ([] ++ fired pressed_edge (InputManager.m_OnPressedCallbacks toy_input)
                         ++ fired is_down (InputManager.m_OnTriggeredCallbacks toy_input)
                         ++ fired released_edge
                              (InputManager.m_OnReleasedCallbacks toy_input)))
          /\ callable x'
          /\ (forall k, InputManager.IsKeyTriggered k x' = is_down k)
          /\ forall (cond : Z -> bool) (callbacks : gmap Z InputManager.Callback)
                    (c : nat),
               InputManager.Invoke c ∈ fired cond callbacks <->
               exists Key, callbacks !! Key = Some (Some c) /\ cond Key = true.
Proof.
  split; [exact toy_input_callable|].
  exact (ProcessInput_fires_the_callbacks_of_the_edges (U := ToyUnorderedMap)
           (fun _ : Z => "A"%string)
           toy_input [] (fun k : Z => (k =? 65) || (k =? 66)) toy_input_callable).
Defined.

Lemma registered_callbacks_never_make_a_frame_throw_witness :
  let glfwGetKeyName := fun _ : Z => "A"%string in
  let ops := [Register 65 InputManager.OnPressed 7%nat;
              Frame (Some (InputManager.mkWindow true)) (fun k : Z => k =? 65);
              Register 66 InputManager.OnReleased 8%nat;
              Frame (Some (InputManager.mkWindow false)) (fun _ : Z => false)] in
  Forall (fun op => match op with
                    | Frame None _ => False
                    | _ => True
                    end) ops
  /\ callable InputManager.new
  /\ exists s',
       for_all (input_step glfwGetKeyName) ops (InputManager.mkState InputManager.new [])
         = Ok tt s'
       /\ callable (InputManager.self s').
Proof.
  intros glfwGetKeyName ops.
  assert (Hops : Forall (fun op => match op with
                                   | Frame None _ => False
                                   | _ => True
                                   end) ops) by (repeat constructor).
  split; [exact Hops|]. split; [exact callable_new|].
  exact (registered_callbacks_never_make_a_frame_throw glfwGetKeyName ops Hops
           InputManager.new [] callable_new).
Defined.

Lemma ParseLine_then_GetPath_witness :
  free_of "=" "models"
  /\ exists x',
       @AssetPathManager.ParseLine ToyPlatform "models=assets/models" toy_assets = Ok tt x'
       /\ (forall View, string_view.data View = "models"%string ->
             AssetPathManager.GetPath View x' = Ok "cfg/cfg/assets/models"%string x')
       /\ AssetPathManager.m_ConfigPathPath x' = AssetPathManager.m_ConfigPathPath toy_assets
       /\ forall Other, Other <> "models"%string ->
            AssetPathManager.m_ConfigMap x' !! Other
            = AssetPathManager.m_ConfigMap toy_assets !! Other.
Proof.
  assert (Hk : free_of "=" "models") by (cbn; repeat split; discriminate).
  split; [exact Hk|].
  exact (ParseLine_then_GetPath (P := ToyPlatform) "models" "assets/models" toy_assets Hk).
Defined.

Lemma ParseLine_resolves_a_reference_witness :
  free_of "=" "models" /\ free_of "/" "assets"
  /\ @fs_exists ToyPlatform "cfg/cfg/assets/models" = true
  /\ @AssetPathManager.ParseLine ToyPlatform "models=assets/models" toy_assets =
       Ok tt {| AssetPathManager.m_ConfigMap :=
                  <["models"%string := "cfg/cfg/assets/models"%string]>
                    (AssetPathManager.m_ConfigMap toy_assets);
                AssetPathManager.m_ConfigPathPath :=
                  AssetPathManager.m_ConfigPathPath toy_assets |}.
Proof.
  assert (Hk : free_of "=" "models") by (cbn; repeat split; discriminate).
  assert (Hb : free_of "/" "assets") by (cbn; repeat split; discriminate).
  assert (He : @fs_exists ToyPlatform "cfg/cfg/assets/models" = true) by reflexivity.
  split; [exact Hk|]. split; [exact Hb|]. split; [exact He|].
  exact (ParseLine_resolves_a_reference (P := ToyPlatform) "models" "assets" "models"
           toy_assets Hk Hb He).
Defined.

Lemma BindTexturesToMaterial_sends_the_old_slots_witness :
  let uniform_location := fun (_ : Z) (_ : string) => 5 in
  let addrs := textures_of toy_meshes in
  let txs := [toy_diffuse; toy_diffuse] in
  let names := numbered (Texture.m_Name <$> txs) (1, 1) in
  NoDup addrs
  /\ Forall2 (fun a tx => textures toy_model_heap !! a = Some tx) addrs txs
  /\ NoDup names
  /\ (length addrs <= 128)%nat
  /\ exists sh' lg' x' h',
       Model.BindTexturesToMaterial uniform_location toy_meshes
         (Model.mkSetup (Shader.new 3, ([] : list (@Shader.GLCall ToyGLM)))
            (Material.new (Some 3), toy_model_heap))
         = Ok tt (Model.mkSetup (sh', [] ++ lg') (x', h'))
       /\ writes lg' =
            omap (sampler_write uniform_location (Shader.new 3)) (zip names txs)
       /\ calls (gl h') = calls (gl toy_model_heap) ++ concat (unit_binding <$> txs)
       /\ forall k a tx name,
            addrs !! k = Some a -> txs !! k = Some tx -> names !! k = Some name ->
            textures h' !! a = Some (Texture.SetSlotIndex (Z.of_nat k) tx)
            /\ Material.m_Textures x' !! name = Some (Some a).
Proof.
  intros uniform_location addrs txs names.
  assert (H1 : NoDup addrs) by (apply (bool_decide_unpack _); vm_compute; exact I).
  assert (H2 : Forall2 (fun a tx => textures toy_model_heap !! a = Some tx) addrs txs)
    by (repeat constructor).
  assert (H3 : NoDup names) by (apply (bool_decide_unpack _); vm_compute; exact I).
  assert (H4 : (length addrs <= 128)%nat) by (cbn; lia).
  split; [exact H1|]. split; [exact H2|]. split; [exact H3|]. split; [exact H4|].
  exact (BindTexturesToMaterial_sends_the_old_slots (P := ToyPlatform) (G := ToyGLM)
           uniform_location toy_meshes (Shader.new 3) []
           (Some 3) toy_model_heap txs H1 H2 H3 H4).
Defined.
